(** * PaperQA preprocessing: segmentation, chunk filtering and summary flow

    A shallow embedding of [Upload_papers/Preprocessing/chunk_and_embed.py]
    (class [Document_processing]) and of the records of [ChunkData.py].

    Conventions of the embedding.
    - A Python [str] is a list of characters; a character is an 8-bit
      [ascii], read as the code point of the same number (U+0000..U+00FF).
      The character tables below ([isspace], [isdigit], [isalpha], ...) are
      those of CPython on that range, and every string operation used by the
      program maps such strings to such strings.
    - Quotients compared with decimal thresholds ([digits <= 0.4], ...) are
      exact rationals. The program computes them in binary64: the quotient of
      two integers is correctly rounded, rounding is monotone and maps the
      exact threshold to the literal, and a quotient of counts below 2^48
      that differs from a threshold is further from it than the spacing of
      binary64 there; so both readings agree for every text shorter than 2^48
      characters.
    - The language-model and embedding services are collaborators: functions
      of the calls made so far and of the request, returning a reply or an
      external failure.  Calls are recorded in a trace.
    - The store client and the reader of the files are collaborators as
      well: the requests that the store carries out are recorded in a log,
      and the text of the pages of a file is a function of its path. *)

From Stdlib Require Import Ascii String.
From Stdlib Require Import List Bool Arith PeanoNat ZArith QArith Lia.
Import ListNotations.
Local Open Scope nat_scope.
Local Open Scope list_scope.

(** ** Python strings *)

Module PyStr.

Definition str := list ascii.

Definition py (s : string) : str := list_ascii_of_string s.

Definition ord (c : ascii) : nat := nat_of_ascii c.
Definition chr (n : nat) : ascii := ascii_of_nat n.

Definition NUL : ascii := "000"%char.
Definition TAB : ascii := "009"%char.
Definition LF : ascii := "010"%char.
Definition CR : ascii := "013"%char.
Definition SP : ascii := " "%char.

Definition between (lo hi : nat) (c : ascii) : bool :=
  (lo <=? ord c) && (ord c <=? hi).

(** [str.isspace], also the set used by [str.strip], [str.split] and by
    [\s] in [re]. *)
Definition isspace (c : ascii) : bool :=
  between 9 13 c || between 28 32 c || (ord c =? 133) || (ord c =? 160).

(** [str.isdigit]: the decimal digits and the superscripts 1, 2, 3. *)
Definition isdigit (c : ascii) : bool :=
  between 48 57 c || between 178 179 c || (ord c =? 185).

(** [\d] in [re]: decimal digits only. *)
Definition isdecimal (c : ascii) : bool := between 48 57 c.

Definition isalpha (c : ascii) : bool :=
  between 65 90 c || between 97 122 c || (ord c =? 170) || (ord c =? 181)
  || (ord c =? 186) || between 192 214 c || between 216 246 c
  || between 248 255 c.

Definition islower_c (c : ascii) : bool :=
  between 97 122 c || (ord c =? 170) || (ord c =? 181) || (ord c =? 186)
  || between 223 246 c || between 248 255 c.

Definition isupper_c (c : ascii) : bool :=
  between 65 90 c || between 192 214 c || between 216 222 c.

Definition lower_c (c : ascii) : ascii :=
  if isupper_c c then chr (ord c + 32) else c.

Definition is_empty (s : str) : bool :=
  match s with [] => true | _ :: _ => false end.

Fixpoint str_eqb (a b : str) : bool :=
  match a, b with
  | [], [] => true
  | x :: a', y :: b' => Ascii.eqb x y && str_eqb a' b'
  | _, _ => false
  end.

Definition str_eq_dec : forall a b : str, {a = b} + {a <> b} :=
  list_eq_dec ascii_dec.

Definition lower (s : str) : str := map lower_c s.

(** [s.isupper()]: no lowercase character and at least one uppercase one. *)
Definition isupper (s : str) : bool :=
  forallb (fun c => negb (islower_c c)) s && existsb isupper_c s.

Fixpoint lstrip (s : str) : str :=
  match s with
  | [] => []
  | c :: s' => if isspace c then lstrip s' else s
  end.

Definition rstrip (s : str) : str := rev (lstrip (rev s)).

Definition strip (s : str) : str := rstrip (lstrip s).

(** [s.startswith(p)]. *)
Fixpoint startswith (s p : str) {struct p} : bool :=
  match p, s with
  | [], _ => true
  | a :: p', b :: s' => Ascii.eqb a b && startswith s' p'
  | _ :: _, [] => false
  end.

(** [sub in s]. *)
Fixpoint str_in (sub s : str) : bool :=
  startswith s sub
  || match s with [] => false | _ :: s' => str_in sub s' end.

(** [s.count(sub)] for a one-character [sub]. *)
Definition count (c : ascii) (s : str) : nat :=
  length (filter (Ascii.eqb c) s).

(** [s.split()]: maximal runs of non-space characters. [cur] holds the
    current run, reversed. *)
Fixpoint split_ws_aux (cur : str) (s : str) : list str :=
  match s with
  | [] => match cur with [] => [] | _ :: _ => [rev cur] end
  | c :: s' =>
      if isspace c
      then match cur with
           | [] => split_ws_aux [] s'
           | _ :: _ => rev cur :: split_ws_aux [] s'
           end
      else split_ws_aux (c :: cur) s'
  end.

Definition split_ws (s : str) : list str := split_ws_aux [] s.

(** [s.split(sep)] for a non-empty [sep]: cut at the leftmost occurrences,
    which do not overlap. [skip] counts the characters of a separator still to
    be passed over. *)
Fixpoint split_aux (sep : str) (skip : nat) (cur : str) (s : str)
  : list str :=
  match s with
  | [] => [rev cur]
  | c :: s' =>
      match skip with
      | S k => split_aux sep k cur s'
      | O =>
          if startswith s sep
          then rev cur :: split_aux sep (length sep - 1) [] s'
          else split_aux sep 0 (c :: cur) s'
      end
  end.

Definition split (s sep : str) : list str := split_aux sep 0 [] s.

(** [sep.join(l)]. *)
Fixpoint join (sep : str) (l : list str) : str :=
  match l with
  | [] => []
  | [x] => x
  | x :: t => x ++ sep ++ join sep t
  end.

(** [x or empty] for an optional string. *)
Definition or_empty (x : option str) : str :=
  match x with Some s => s | None => [] end.

End PyStr.

Import PyStr.

(** ** Regular expressions of [re]

    A backtracking matcher in continuation-passing style, with the priorities
    of [re]: greedy and lazy repetition, ordered alternation, numbered
    groups. [re.match] anchors at the start of the string, so a leading [^]
    is not represented. *)

Module Re.

Inductive regex : Type :=
| Eps
| Cls (p : ascii -> bool)
| Seq (r1 r2 : regex)
| Alt (r1 r2 : regex)
| Star (greedy : bool) (r : regex)
| Group (i : nat) (r : regex)
| Eol.

Definition captures := list (nat * str).

Definition cont := str -> captures -> option captures.

(** Repetition of a body matcher [m]: each round must consume input, and
    [fuel] bounds the rounds by the length of the input. Greedy repetition
    tries one more round first, lazy repetition tries to stop first. *)
Fixpoint star_iter (m : cont -> str -> captures -> option captures)
  (greedy : bool) (k : cont) (fuel : nat) (s : str) (c : captures)
  {struct fuel} : option captures :=
  let more :=
    match fuel with
    | O => None
    | S fuel' =>
        m (fun s' c' =>
             if length s' <? length s
             then star_iter m greedy k fuel' s' c'
             else None)
          s c
    end in
  if greedy
  then match more with Some c' => Some c' | None => k s c end
  else match k s c with Some c' => Some c' | None => more end.

Fixpoint exec (r : regex) (k : cont) (s : str) (c : captures) {struct r}
  : option captures :=
  match r with
  | Eps => k s c
  | Cls p =>
      match s with
      | a :: s' => if p a then k s' c else None
      | [] => None
      end
  | Seq r1 r2 => exec r1 (exec r2 k) s c
  | Alt r1 r2 =>
      match exec r1 k s c with
      | Some c' => Some c'
      | None => exec r2 k s c
      end
  | Star greedy r1 => star_iter (exec r1) greedy k (length s) s c
  | Group i r1 =>
      exec r1
        (fun s' c' => k s' ((i, firstn (length s - length s') s) :: c'))
        s c
  | Eol =>
      match s with
      | [] => k s c
      | [a] => if Ascii.eqb a LF then k s c else None
      | _ :: _ :: _ => None
      end
  end.

(** [re.match(r, s)]: the groups of the first match found, if any. *)
Definition re_match (r : regex) (s : str) : option captures :=
  exec r (fun _ c => Some c) s [].

Definition matches (r : regex) (s : str) : bool :=
  match re_match r s with Some _ => true | None => false end.

(** [m.group(i)]: the text of the last match of group [i]. *)
Fixpoint group (i : nat) (c : captures) : str :=
  match c with
  | [] => []
  | (j, v) :: c' => if i =? j then v else group i c'
  end.

Definition plus (r : regex) : regex := Seq r (Star true r).
Definition plus_lazy (r : regex) : regex := Seq r (Star false r).
Definition opt (r : regex) : regex := Alt r Eps.

Definition chr_ (a : ascii) : regex := Cls (Ascii.eqb a).

(** A literal, and a literal of lowercase letters under [re.IGNORECASE]. *)
Fixpoint lit (s : str) : regex :=
  match s with
  | [] => Eps
  | a :: s' => Seq (chr_ a) (lit s')
  end.

Fixpoint lit_i (s : str) : regex :=
  match s with
  | [] => Eps
  | a :: s' => Seq (Cls (fun c => Ascii.eqb (lower_c c) a)) (lit_i s')
  end.

Definition ws : regex := Cls isspace.
Definition digit : regex := Cls isdecimal.
Definition dot : regex := Cls (fun c => negb (Ascii.eqb c LF)).

End Re.

Import Re.

(** ** Records of [ChunkData.py] *)

Record Document (vec : Type) : Type := mkDocument {
  doc_id : str;
  arxiv_id : str;
  title : str;
  document_summary : str;
  document_summary_embedding : option vec
}.

Record RAGChunk (vec : Type) : Type := mkRAGChunk {
  chunk_doc_id : str;
  content : str;
  embedding : option vec;
  section : option str;
  subsection : option str
}.

Arguments mkDocument {vec}.
Arguments doc_id {vec}.
Arguments arxiv_id {vec}.
Arguments title {vec}.
Arguments document_summary {vec}.
Arguments document_summary_embedding {vec}.
Arguments mkRAGChunk {vec}.
Arguments chunk_doc_id {vec}.
Arguments content {vec}.
Arguments embedding {vec}.
Arguments section {vec}.
Arguments subsection {vec}.

(** ** Pure helpers of [Document_processing] *)

Definition ratio (a b : nat) : Q :=
  (inject_Z (Z.of_nat a) / inject_Z (Z.of_nat b))%Q.

Definition words_of (s : str) : list str :=
  filter (fun w => negb (is_empty w)) (split_ws s).

Definition _is_proper_chunk_text (content : str) : bool :=
  let s := strip content in
  let words := words_of s in
  if is_empty s || (length s <? 35) || (length words <? 5) then false
  else
    let n := length s in
    let nw := length words in
    let digits := ratio (length (filter isdigit s)) (Nat.max n 1) in
    let single :=
      ratio (length (filter (fun w => length w =? 1) words)) (Nat.max nw 1) in
    let alpha := ratio (length (filter (existsb isalpha) words)) nw in
    let unique :=
      ratio (length (nodup str_eq_dec (map lower words))) (Nat.max nw 1) in
    let avg_len := ratio (list_sum (map (@length ascii) words)) (Nat.max nw 1) in
    let has_end := existsb (fun c => str_in [c] s) (py ".!?") in
    Qle_bool digits 0.4 && Qle_bool single 0.28 && Qle_bool 0.5 alpha
    && Qle_bool 0.3 unique
    && (has_end || Qle_bool 3.2 avg_len)
    && negb (isupper s && (n <? 80)).

Definition _sanitize_text_for_db (s : option str) : option str :=
  match s with
  | None => None
  | Some s =>
      Some (filter
              (fun c =>
                 negb (Ascii.eqb c NUL)
                 && ((32 <=? ord c) || str_in [c] [LF; CR; TAB]))
              s)
  end.

(** ** Line predicates of [process_document] *)

(** [section_header]: optional spaces, group 1 a dotted number (digits,
    then any number of a dot and digits), spaces, group 2 a lazy non-empty
    run of characters other than a line feed, optional spaces, end. *)
Definition section_header : regex :=
  Seq (Star true ws)
    (Seq (Group 1 (Seq (plus digit) (Star true (Seq (chr_ ".") (plus digit)))))
       (Seq (plus ws)
          (Seq (Group 2 (plus_lazy dot))
             (Seq (Star true ws) Eol)))).

(** The whole-line pattern of the word abstract between optional spaces,
    under [re.IGNORECASE]. *)
Definition abstract_line : regex :=
  Seq (Star true ws) (Seq (lit_i (py "abstract")) (Seq (Star true ws) Eol)).

(** The numbered pattern of [_is_standalone_references_header]: a dotted
    number, spaces, one of the two keywords, then a space or the end. *)
Definition numbered_references : regex :=
  Seq (plus digit)
    (Seq (Star true (Group 1 (Seq (chr_ ".") (plus digit))))
       (Seq (plus ws)
          (Seq (Group 2 (Alt (lit (py "references")) (lit (py "bibliography"))))
             (Group 3 (Alt ws Eol))))).

Definition _is_references_or_bibliography (title : str) : bool :=
  let t := lower title in
  str_in (py "references") t || str_in (py "bibliography") t.

Definition _is_standalone_references_header (line : str) : bool :=
  let s := strip line in
  if is_empty s || (10 <? length (split_ws s)) then false
  else
    let t := lower s in
    if str_eqb t (py "references") || str_eqb t (py "bibliography") then true
    else if matches numbered_references t then true
    else if (length (split_ws s) <=? 4)
            && (startswith t (py "references ")
                || startswith t (py "bibliography "))
    then true
    else false.

Definition _is_appendix_header (line : str) : bool :=
  let s := strip line in
  if is_empty s then false
  else
    let t := lower s in
    if negb (str_in (py "appendix") t) && negb (str_in (py "appendices") t)
    then false
    else
      let words := split_ws s in
      (length words <=? 15) && (length s <=? 120).

(** ** Collaborators and effects *)

Inductive call : Type :=
| ChatCompletion (system user : str)
| Embeddings (input : list str).

Definition trace := list call.

Inductive error (exn : Type) : Type :=
| IndexError
| External (e : exn).

Arguments IndexError {exn}.
Arguments External {exn}.

(** A computation reads the calls made so far, may call a collaborator, and
    ends with a value and the extended trace, or with an error. *)
Definition M (exn A : Type) : Type := trace -> error exn + (A * trace).

Definition ret {exn A : Type} (a : A) : M exn A := fun t => inr (a, t).

Definition raise {exn A : Type} (e : error exn) : M exn A := fun _ => inl e.

Definition bind {exn A B : Type} (m : M exn A) (f : A -> M exn B) : M exn B :=
  fun t =>
    match m t with
    | inl e => inl e
    | inr (a, t') => f a t'
    end.

Notation "x <- m ;; k" := (bind m (fun x => k))
  (at level 61, m at next level, right associativity).

Fixpoint foldM {exn A B : Type} (f : A -> B -> M exn A) (l : list B) (a : A)
  : M exn A :=
  match l with
  | [] => ret a
  | x :: l' => a' <- f a x ;; foldM f l' a'
  end.

Record collaborators : Type := mkCollaborators {
  exn : Type;
  vec : Type;
  (** [client.chat.completions.create(...)]: the content of the first choice,
      possibly absent. *)
  chat_completions_create : trace -> str -> str -> exn + option str;
  (** [client.embeddings.create(...)]: the vectors of [resp.data]. *)
  embeddings_create : trace -> list str -> exn + list vec;
  (** [SentenceSplitter.get_nodes_from_documents]: the contents of the nodes
      (chunk size 500, overlap 100). *)
  sentence_splitter : str -> list str
}.

Definition usage_system_prompt : str :=
  py ("You are given a section of an academic paper. Write exactly ONE short line (one sentence) "
   ++ "that states what was used, proposed, or found in THIS section. Keep it as short and concise "
   ++ "as possible, no filler words. Include key terms: model names, dataset names, method names, "
   ++ "metrics, or tools. Mention only what this paper did, not prior or related work. Do NOT start "
   ++ "with 'This paper' or 'The paper'; start directly with the fact, method, or result. The line "
   ++ "will be used for search, so pack in the important keywords. Reply with only that one line, "
   ++ "nothing else.")%string.

Definition condense_system_prompt : str :=
  py ("You are given one sentence per section of an academic paper. Write ONE short paragraph "
   ++ "that summarizes the document. Do NOT repeat the same ideas,"
   ++ "merge and rephrase so each point is said once. The paragraph should read as one consistent "
   ++ "summary, concise and with no filler. Include key terms (models, datasets, methods, results). "
   ++ "Reply with only the paragraph, nothing else.")%string.

(** Segmentation state of [process_document]: the local variables that the
    loop and the closure [flush] share. *)
Record seg_state (vec : Type) : Type := mkState {
  chunks_out : list (RAGChunk vec);
  current_section : option str;
  current_subsection : option str;
  section_content : list str;
  section_sentences : list str;
  in_references : bool;
  current_part : list str
}.

Arguments mkState {vec}.
Arguments chunks_out {vec}.
Arguments current_section {vec}.
Arguments current_subsection {vec}.
Arguments section_content {vec}.
Arguments section_sentences {vec}.
Arguments in_references {vec}.
Arguments current_part {vec}.

Section Document_processing.

Variable C : collaborators.

Local Abbreviation state := (seg_state (vec C)).

Definition chat (system user : str) : M (exn C) (option str) :=
  fun t =>
    match chat_completions_create C t system user with
    | inl e => inl (External e)
    | inr r => inr (r, t ++ [ChatCompletion system user])
    end.

Definition embed (input : list str) : M (exn C) (list (vec C)) :=
  fun t =>
    match embeddings_create C t input with
    | inl e => inl (External e)
    | inr r => inr (r, t ++ [Embeddings input])
    end.

Definition _extract_section_usage_line (section_text : str) : M (exn C) str :=
  if is_empty section_text || is_empty (strip section_text) then ret []
  else
    resp <- chat usage_system_prompt
              (py "Section text:" ++ [LF] ++ firstn 8000 section_text) ;;
    let line := strip (or_empty resp) in
    ret (if is_empty line then [] else strip (hd [] (split line [LF]))).

Definition _condense_sentences_to_summary (section_sentences : list str)
  : M (exn C) str :=
  match section_sentences with
  | [] => ret []
  | _ :: _ =>
      let sentences_text :=
        join [LF] (map (fun s => py "- " ++ s) section_sentences) in
      resp <- chat condense_system_prompt
                (py "Section sentences:" ++ [LF] ++ sentences_text) ;;
      ret (strip (or_empty resp))
  end.

Definition _chunk_section (text : str) : list str :=
  let text := strip text in
  if is_empty text then []
  else
    filter (fun node => negb (is_empty (strip node)))
      (sentence_splitter C text).

Definition _embed_text (text : str) : M (exn C) (option (vec C)) :=
  if is_empty text || is_empty (strip text) then ret None
  else
    data <- embed [strip text] ;;
    ret (match data with [] => None | e :: _ => Some e end).

(** *** [process_document] *)

Definition init_state : state :=
  mkState [] (Some (py "Abstract")) None [] [] false [].

Definition set_chunks_sentences (st : state) (cs : list (RAGChunk (vec C)))
  (ss : list str) : state :=
  mkState cs (current_section st) (current_subsection st) []
    ss (in_references st) (current_part st).

Definition set_in_references (b : bool) (st : state) : state :=
  mkState (chunks_out st) (current_section st) (current_subsection st)
    (section_content st) (section_sentences st) b (current_part st).

Definition set_current_part (p : list str) (st : state) : state :=
  mkState (chunks_out st) (current_section st) (current_subsection st)
    (section_content st) (section_sentences st) (in_references st) p.

Definition set_section (l : str) (st : state) : state :=
  mkState (chunks_out st) (Some l) None
    (section_content st) (section_sentences st) (in_references st)
    (current_part st).

Definition set_subsection (l : str) (st : state) : state :=
  mkState (chunks_out st) (current_section st) (Some l)
    (section_content st) (section_sentences st) (in_references st)
    (current_part st).

(** [if current_part:] append the lines of [current_part], joined by line
    feeds, to [section_content]. *)
Definition commit_part (st : state) : state :=
  match current_part st with
  | [] => st
  | _ :: _ =>
      mkState (chunks_out st) (current_section st) (current_subsection st)
        (section_content st ++ [join [LF] (current_part st)])
        (section_sentences st) (in_references st) (current_part st)
  end.

Definition flush (did : str) (st : state) : M (exn C) state :=
  match section_content st with
  | [] => ret st
  | _ :: _ =>
      let combined := strip (join [SP] (section_content st)) in
      if is_empty combined then ret st
      else
        usage_line <- _extract_section_usage_line combined ;;
        let sentences :=
          if is_empty usage_line then section_sentences st
          else section_sentences st ++ [usage_line] in
        let emitted :=
          map (fun content =>
                 mkRAGChunk did content None (current_section st)
                   (current_subsection st))
            (filter
               (fun content =>
                  negb (is_empty content) && _is_proper_chunk_text content)
               (_chunk_section combined)) in
        ret (set_chunks_sentences st (chunks_out st ++ emitted) sentences)
  end.

(** The assignments that open a heading: a dotted number opens a
    subsection, anything else a section. *)
Definition open_heading (dotted : bool) (line_stripped : str) (st : state)
  : state :=
  if dotted then set_subsection line_stripped st
  else set_section line_stripped st.

(** One iteration of [for line in lines_in_block]. *)
Definition process_line (did : str) (st : state) (line : str) : M (exn C) state :=
  let line_stripped := strip line in
  if in_references st then
    if _is_appendix_header line_stripped then
      st <- flush did (commit_part (set_in_references false st)) ;;
      let st :=
        match re_match section_header line_stripped with
        | Some m =>
            if length (split_ws line_stripped) <=? 15
            then open_heading (str_in (py ".") (group 1 m)) line_stripped st
            else set_section line_stripped st
        | None => set_section line_stripped st
        end in
      ret (set_current_part [] st)
    else ret st
  else if _is_standalone_references_header line_stripped then
    st <- flush did (commit_part st) ;;
    ret (set_in_references true st)
  else
    match re_match section_header line_stripped with
    | Some m =>
        if length (split_ws line_stripped) <=? 15 then
          let section_title := strip (group 2 m) in
          st <- flush did (commit_part st) ;;
          if _is_references_or_bibliography section_title
          then ret (set_in_references true st)
          else
            ret (set_current_part []
                   (open_heading (str_in (py ".") (group 1 m))
                      line_stripped st))
        else ret (set_current_part (current_part st ++ [line]) st)
    | None => ret (set_current_part (current_part st ++ [line]) st)
    end.

(** One iteration of [for block in blocks]. *)
Definition process_block (did : str) (st : state) (block : str)
  : M (exn C) state :=
  st <- foldM (process_line did) (split block [LF]) (set_current_part [] st) ;;
  ret (if negb (in_references st) then commit_part st else st).

Definition process_blocks (did : str) (blocks : list str) (st : state)
  : M (exn C) state :=
  st <- foldM (process_block did) blocks st ;;
  if negb (in_references st) then flush did st else ret st.

(** [first_page_lines] scanned for the first whole-line Abstract;
    [abstract_start] is the index after it. *)
Fixpoint abstract_start (i : nat) (first_page_lines : list str) : option nat :=
  match first_page_lines with
  | [] => None
  | ln :: rest =>
      if matches abstract_line (strip ln) then Some (i + 1)
      else abstract_start (S i) rest
  end.

Definition first_page_from_abstract (first_page_text : str) : str :=
  let first_page_lines := split first_page_text [LF] in
  match abstract_start 0 first_page_lines with
  | Some a => strip (join [LF] (skipn a first_page_lines))
  | None => first_page_text
  end.

Definition blocks_of (pages : list str) : list str :=
  let first_page_text := strip (hd [] pages) in
  let rest_pages := join [LF; LF] (map strip (tl pages)) in
  let full_text :=
    first_page_from_abstract first_page_text
    ++ (if is_empty (strip rest_pages) then [] else [LF; LF] ++ rest_pages) in
  map strip
    (filter (fun b => negb (is_empty (strip b))) (split full_text [LF; LF])).

(** [process_document]; [did] is the identifier derived from the file name
    and [ttl] the title extracted from the first page, [pages] the
    [extract_text()] of every page of the reader. *)
Definition process_document (did ttl : str) (pages : list str)
  : M (exn C) (Document (vec C) * list (RAGChunk (vec C))) :=
  match pages with
  | [] => raise IndexError
  | _ :: _ =>
      st <- process_blocks did (blocks_of pages) init_state ;;
      document_summary <- _condense_sentences_to_summary (section_sentences st) ;;
      document_summary_embedding <- _embed_text document_summary ;;
      ret (mkDocument did did ttl document_summary document_summary_embedding,
           chunks_out st)
  end.

End Document_processing.

Arguments set_chunks_sentences {C}.
Arguments set_in_references {C}.
Arguments set_current_part {C}.
Arguments set_section {C}.
Arguments set_subsection {C}.
Arguments commit_part {C}.
Arguments open_heading {C}.

(** ** Specification-side definitions

    The properties below are written after the specification's wording and
    are compared with the functions above. *)

Module Spec.

(** [subseq y x]: [y] is obtained from [x] by deleting characters, the
    others keeping their order. *)
Inductive subseq {A : Type} : list A -> list A -> Prop :=
| subseq_nil : subseq [] []
| subseq_skip : forall a y x, subseq y x -> subseq y (a :: x)
| subseq_keep : forall a y x, subseq y x -> subseq (a :: y) (a :: x).

(** [purged P x y]: [y] is [x] with exactly the characters satisfying [P]
    removed. *)
Inductive purged (P : ascii -> Prop) : str -> str -> Prop :=
| purged_nil : purged P [] []
| purged_drop : forall c x y, P c -> purged P x y -> purged P (c :: x) y
| purged_keep :
    forall c x y, ~ P c -> purged P x y -> purged P (c :: x) (c :: y).

(** A character that the database sanitizer removes: the null byte, or a
    control character below 32 other than line feed, carriage return and
    tab. *)
Definition db_rejected (c : ascii) : Prop :=
  c = NUL \/ (ord c < 32 /\ c <> LF /\ c <> CR /\ c <> TAB).

(** The test that [_sanitize_text_for_db] applies to each character. *)
Definition db_keeps (c : ascii) : bool :=
  negb (Ascii.eqb c NUL) && ((32 <=? ord c) || str_in [c] [LF; CR; TAB]).

(** [a / b <= pct / 100] and [a / b >= pct / 100], for [b > 0]. *)
Definition fraction_le (a b pct : nat) : Prop := 100 * a <= pct * b.
Definition fraction_ge (a b pct : nat) : Prop := pct * b <= 100 * a.

Definition fully_uppercase (t : str) : Prop :=
  (forall c, In c t -> islower_c c = false)
  /\ (exists c, In c t /\ isupper_c c = true).

Definition distinct_lower (ws : list str) : nat :=
  length (nodup str_eq_dec (map lower ws)).

(** The conditions of the prose classifier on a trimmed text [t]. *)
Record prose_accepts (t : str) : Prop := mkProseAccepts {
  pa_length : 35 <= length t;
  pa_words : 5 <= length (split_ws t);
  pa_digits : fraction_le (length (filter isdigit t)) (length t) 40;
  pa_single :
    fraction_le (length (filter (fun w => length w =? 1) (split_ws t)))
      (length (split_ws t)) 28;
  pa_alpha :
    fraction_ge (length (filter (existsb isalpha) (split_ws t)))
      (length (split_ws t)) 50;
  pa_unique :
    fraction_ge (distinct_lower (split_ws t)) (length (split_ws t)) 30;
  pa_sentence :
    (exists c, In c (py ".!?") /\ In c t)
    \/ 32 * length (split_ws t) <= 10 * list_sum (map (@length ascii) (split_ws t));
  pa_not_caps : ~ (fully_uppercase t /\ length t < 80)
}.

(** *** Matches of a regular expression

    [lang r s s']: [r] matches a prefix of [s] and leaves [s']. *)
Inductive lang : regex -> str -> str -> Prop :=
| lang_eps : forall s, lang Eps s s
| lang_cls : forall p a s, p a = true -> lang (Cls p) (a :: s) s
| lang_seq :
    forall r1 r2 s s1 s2,
      lang r1 s s1 -> lang r2 s1 s2 -> lang (Seq r1 r2) s s2
| lang_alt_l : forall r1 r2 s s1, lang r1 s s1 -> lang (Alt r1 r2) s s1
| lang_alt_r : forall r1 r2 s s1, lang r2 s s1 -> lang (Alt r1 r2) s s1
| lang_star_stop : forall g r s, lang (Star g r) s s
| lang_star_more :
    forall g r s s1 s2,
      lang r s s1 -> length s1 < length s -> lang (Star g r) s1 s2 ->
      lang (Star g r) s s2
| lang_group : forall i r s s1, lang r s s1 -> lang (Group i r) s s1
| lang_eol_end : lang Eol [] []
| lang_eol_lf : lang Eol [LF] [LF].

(** [recognizes r W]: the matches of [r] are the prefixes in [W], whatever
    follows them. *)
Definition recognizes (r : regex) (W : str -> Prop) : Prop :=
  forall s s1, lang r s s1 <-> exists w, W w /\ s = w ++ s1.

(** *** Headers *)

Definition all_space (w : str) : Prop := Forall (fun c => isspace c = true) w.

Definition digits1 (d : str) : Prop :=
  d <> [] /\ Forall (fun c => isdecimal c = true) d.

(** number(.number)* *)
Definition dotted_number (num : str) : Prop :=
  exists d ds,
    num = d ++ concat (map (fun x => py "." ++ x) ds)
    /\ digits1 d /\ Forall digits1 ds.

(** A dotted number, spaces, one of the two keywords, then a space or the
    end of the line. *)
Definition numbered_references_spec (t : str) : Prop :=
  exists num sp kw rest,
    t = num ++ sp ++ kw ++ rest
    /\ dotted_number num
    /\ sp <> [] /\ all_space sp
    /\ (kw = py "references" \/ kw = py "bibliography")
    /\ (rest = [] \/ exists a r, rest = a :: r /\ isspace a = true).

Definition standalone_references_header_spec (line : str) : Prop :=
  let s := strip line in
  let t := lower s in
  length (split_ws s) <= 10
  /\ (t = py "references" \/ t = py "bibliography"
      \/ numbered_references_spec t
      \/ (length (split_ws s) <= 4
          /\ exists r, t = py "references " ++ r \/ t = py "bibliography " ++ r)).

(** A whole line that reads Abstract, in any case, between optional
    spaces. *)
Definition is_abstract_heading (line : str) : Prop :=
  lower (strip line) = py "abstract".

(** *** Line kinds

    What [process_line] does with a line, as decided by its guards: in the
    references state only an appendix header is looked at; otherwise a
    standalone references header, then the numbered-header pattern. *)

Inductive line_kind : Type :=
| KReferences   (* enter the references state *)
| KSection      (* open a section *)
| KSubsection   (* open a subsection *)
| KPlain        (* body text *)
| KDiscard.     (* skipped inside the references *)

(** A numbered header: the pattern matches and the line has at most 15
    tokens. Gives the dotted number and the title. *)
Definition numbered_header (line_stripped : str) : option (str * str) :=
  match re_match section_header line_stripped with
  | Some m =>
      if length (split_ws line_stripped) <=? 15
      then Some (group 1 m, strip (group 2 m))
      else None
  | None => None
  end.

Definition classify (in_refs : bool) (line_stripped : str) : line_kind :=
  if in_refs then
    if _is_appendix_header line_stripped then
      match numbered_header line_stripped with
      | Some (number, _) =>
          if str_in (py ".") number then KSubsection else KSection
      | None => KSection
      end
    else KDiscard
  else if _is_standalone_references_header line_stripped then KReferences
  else
    match numbered_header line_stripped with
    | Some (number, title) =>
        if _is_references_or_bibliography title then KReferences
        else if str_in (py ".") number then KSubsection else KSection
    | None => KPlain
    end.

(** The references flag after a line of a given kind, and after a sequence
    of lines read from the initial state. *)
Definition flag_step (in_refs : bool) (line : str) : bool :=
  match classify in_refs (strip line) with
  | KReferences => true
  | KSection | KSubsection => false
  | KPlain | KDiscard => in_refs
  end.

Definition flag_after (lines : list str) : bool :=
  fold_left flag_step lines false.

(** [headed_as k pre l]: the line [l], read after the lines [pre], is of
    kind [k]. *)
Definition headed_as (k : line_kind) (pre : list str) (l : str) : Prop :=
  classify (flag_after pre) (strip l) = k.

(** No line of [post], read after [pre], opens a section. *)
Definition no_section_in (pre post : list str) : Prop :=
  forall p1 l p2, post = p1 ++ l :: p2 -> ~ headed_as KSection (pre ++ p1) l.

(** The section label that the lines read so far justify: the sentinel, or
    the most recent line that opened a section. *)
Definition section_justified (hist : list str) (sec : option str) : Prop :=
  (sec = Some (py "Abstract") /\ no_section_in [] hist)
  \/ (exists pre l post,
        hist = pre ++ l :: post /\ sec = Some (strip l)
        /\ headed_as KSection pre l /\ no_section_in (pre ++ [l]) post).

(** The subsection label that the lines read so far justify: none, or a
    numbered header with a dotted number read since the most recent line that
    opened a section. *)
Definition subsection_justified (hist : list str) (sub : option str) : Prop :=
  match sub with
  | None => True
  | Some s =>
      exists pre l post,
        hist = pre ++ l :: post /\ s = strip l
        /\ headed_as KSubsection pre l
        /\ (exists number title,
              numbered_header (strip l) = Some (number, title)
              /\ str_in (py ".") number = true)
        /\ no_section_in (pre ++ [l]) post
  end.

(** *** The lines read before each flush

    The loop of [process_document] run with two more variables, which the
    program does not hold: the lines read so far, and, for each chunk
    emitted so far, the lines that had been read when the flush that emitted
    it ran. Each step runs the function of the program on the state of the
    program; the chunks that it appends are stamped with the lines read
    before the step. *)
Record traced (vec : Type) : Type := mkTraced {
  seg : seg_state vec;
  lines_read : list str;
  flushed_after : list (list str)
}.

Arguments mkTraced {vec}.
Arguments seg {vec}.
Arguments lines_read {vec}.
Arguments flushed_after {vec}.

(** One stamp [read] for each chunk that [after] holds beyond those of
    [before]. *)
Definition stamp {vec : Type} (read : list str) (before after : seg_state vec)
  (stamps : list (list str)) : list (list str) :=
  stamps
  ++ repeat read (length (chunks_out after) - length (chunks_out before)).

Definition process_line_traced (C : collaborators) (did : str)
  (s : traced (vec C)) (line : str) : M (exn C) (traced (vec C)) :=
  st' <- process_line C did (seg s) line ;;
  ret (mkTraced st' (lines_read s ++ [line])
         (stamp (lines_read s) (seg s) st' (flushed_after s))).

Definition process_block_traced (C : collaborators) (did : str)
  (s : traced (vec C)) (block : str) : M (exn C) (traced (vec C)) :=
  s' <- foldM (process_line_traced C did) (split block [LF])
          (mkTraced (set_current_part [] (seg s)) (lines_read s)
             (flushed_after s)) ;;
  ret (mkTraced
         (if negb (in_references (seg s')) then commit_part (seg s')
          else seg s')
         (lines_read s') (flushed_after s')).

Definition process_blocks_traced (C : collaborators) (did : str)
  (blocks : list str) (s : traced (vec C)) : M (exn C) (traced (vec C)) :=
  s' <- foldM (process_block_traced C did) blocks s ;;
  if negb (in_references (seg s')) then
    st' <- flush C did (seg s') ;;
    ret (mkTraced st' (lines_read s')
           (stamp (lines_read s') (seg s') st' (flushed_after s')))
  else ret s'.

(** The result of a traced run without the two added variables. *)
Definition erase {C : collaborators}
  (r : error (exn C) + (traced (vec C) * trace))
  : error (exn C) + (seg_state (vec C) * trace) :=
  match r with
  | inl e => inl e
  | inr (s, t) => inr (seg s, t)
  end.

(** A chunk is justified by the lines [read] before its flush, among the
    lines of the document, when [read] is a prefix of these lines and
    justifies its labels. *)
Definition chunk_justified {vec : Type} (lines : list str) (c : RAGChunk vec)
  (read : list str) : Prop :=
  section c <> None
  /\ (exists rest, lines = read ++ rest)
  /\ section_justified read (section c)
  /\ subsection_justified read (subsection c).

(** The invariant of the loop of [process_document]: the labels of the
    state are those that the lines read so far justify, every chunk emitted so
    far is justified by the lines read before its flush, and the flag is the
    one that the lines read so far determine. *)
Definition labels_ok {C : collaborators} (hist : list str)
  (st : seg_state (vec C)) (stamps : list (list str)) : Prop :=
  section_justified hist (current_section st)
  /\ subsection_justified hist (current_subsection st)
  /\ Forall2 (chunk_justified hist) (chunks_out st) stamps.

Definition labels_inv {C : collaborators} (s : traced (vec C)) : Prop :=
  in_references (seg s) = flag_after (lines_read s)
  /\ labels_ok (lines_read s) (seg s) (flushed_after s).

(** A title that contains references or bibliography, in any case. *)
Definition mentions_references (title : str) : Prop :=
  exists l r,
    lower title = l ++ py "references" ++ r
    \/ lower title = l ++ py "bibliography" ++ r.

(** Collaborators that answer every request. *)
Definition reliable (C : collaborators) : Prop :=
  (forall t s u, exists r, chat_completions_create C t s u = inr r)
  /\ (forall t i, exists r, embeddings_create C t i = inr r).

Definition doc_lines (pages : list str) : list str :=
  concat (map (fun block => split block [LF]) (blocks_of pages)).

(** The chunks that a flush of the text [combined] emits under the labels
    of [st]. *)
Definition emitted (C : collaborators) (did : str)
  (st : seg_state (vec C)) (combined : str) : list (RAGChunk (vec C)) :=
  map (fun content =>
         mkRAGChunk did content None (current_section st)
           (current_subsection st))
    (filter
       (fun content => negb (is_empty content) && _is_proper_chunk_text content)
       (_chunk_section C combined)).

(** The request sent for the fact sentence of a section text. *)
Definition usage_request (combined : str) : str :=
  py "Section text:" ++ [LF] ++ firstn 8000 combined.

End Spec.

Import Spec.

(** ** Sample collaborators and documents *)

Module Samples.

Definition lines_text (l : list string) : str := join [LF] (map py l).

(** A splitter that keeps a short text in one node, a summarizer that
    numbers its replies, an embedder that returns one vector per input. *)
Definition demo : collaborators :=
  mkCollaborators nat (list nat)
    (fun t _ _ => inr (Some (py "Key fact " ++ [chr (48 + length t)])))
    (fun _ input => inr (map (fun _ => [1; 2]) input))
    (fun text => [text]).

(** The same, with a language model that fails with status 503. *)
Definition failing : collaborators :=
  mkCollaborators nat (list nat)
    (fun _ _ _ => inl 503)
    (fun _ input => inr (map (fun _ => [1; 2]) input))
    (fun text => [text]).

(** The same, with a language model that replies with blank text. *)
Definition silent : collaborators :=
  mkCollaborators nat (list nat)
    (fun _ _ _ => inr (Some (py "  ")))
    (fun _ input => inr (map (fun _ => [1; 2]) input))
    (fun text => [text]).

Definition prose1 : str :=
  py "The method achieves 94% accuracy on the test set using a transformer encoder.".

Definition prose2 : str :=
  py "Extra details are given here for the interested reader of this paper.".

(** References and an appendix on the page of the last body text. *)
Definition page_refs_appendix : str :=
  lines_text
    ["A Title"; "Abstract";
     "The method achieves 94% accuracy on the test set using a transformer encoder.";
     "References"; "[1] Smith et al."; "Appendix A";
     "Extra details are given here for the interested reader of this paper."]%string.

Definition page_sections : str :=
  lines_text
    ["A Title"; "Abstract";
     "The method achieves 94% accuracy on the test set using a transformer encoder.";
     "1 Introduction";
     "We introduce the method in this section with enough words to pass.";
     "1.1 Background";
     "Background text about earlier methods is long enough to be kept here.";
     "2 Method";
     "The method text is also long enough to be kept as a chunk here.";
     "6 References";
     "[1] Smith et al. A very long reference entry that would pass the filter."]%string.

Definition page_plain : str :=
  lines_text
    ["A Title"; "Abstract";
     "The method achieves 94% accuracy on the test set using a transformer encoder."]%string.

Definition did : str := py "2005.11401v4".
Definition ttl : str := py "A Title".

(** A state with one buffered section text. *)
Definition buffered (C : collaborators) : seg_state (vec C) :=
  mkState [] (Some (py "Abstract")) None [prose1] [] false [].

End Samples.

(** ** Further functions of [Document_processing]

    The functions below complete the embedding of the class: the identifier
    and the title of a document, the batch embedding of the chunks, the rows
    sent to the store and the loop over the documents. *)

(** *** [_arxiv_id_from_path], with the path functions of POSIX *)

(** [s.rfind(c)] for a one-character [c]: the last index of [c], if any. *)
Fixpoint rfind_from (c : ascii) (s : str) (i : nat) (last : option nat)
  : option nat :=
  match s with
  | [] => last
  | a :: s' => rfind_from c s' (S i) (if Ascii.eqb a c then Some i else last)
  end.

Definition rfind (c : ascii) (s : str) : option nat := rfind_from c s 0 None.

(** The index after the last slash: [p.rfind(sep) + 1]. *)
Definition after_sep (p : str) : nat :=
  match rfind "/" p with Some i => i + 1 | None => 0 end.

(** [os.path.basename(p)]. *)
Definition basename (p : str) : str := skipn (after_sep p) p.

(** [os.path.splitext(p)]: cut at the last dot when it stands after the
    last slash and a character other than a dot stands between them. *)
Definition splitext (p : str) : str * str :=
  match rfind "." p with
  | Some dotIndex =>
      let filenameIndex := after_sep p in
      if (filenameIndex <=? dotIndex)
         && existsb (fun ch => negb (Ascii.eqb ch "."))
              (firstn (dotIndex - filenameIndex) (skipn filenameIndex p))
      then (firstn dotIndex p, skipn dotIndex p)
      else (p, [])
  | None => (p, [])
  end.

Definition _arxiv_id_from_path (doc_path : str) : str :=
  fst (splitext (basename doc_path)).

(** *** [_extract_title_and_abstract_from_pdf], on the text of the first
    page *)

(** The marks that [_looks_like_author_line] looks for (U+2020, U+2021,
    U+22C6) lie outside the range of the characters of this embedding: no
    string here holds one. *)
Definition author_marks : str := [].

Definition _looks_like_author_line (line : str) : bool :=
  let lower_line := lower line in
  if str_in (py "@") line || str_in (py ".com") lower_line then true
  else if existsb (fun c => str_in [c] line) author_marks then true
  else if str_in (py "university") lower_line
          || str_in (py "research") lower_line
          || str_in (py "institute") lower_line
  then true
  else if 2 <=? count "," line then true
  else false.

(** Optional spaces, digits, an optional dot, a space. *)
Definition numbered_start : regex :=
  Seq (Star true ws) (Seq (plus digit) (Seq (opt (chr_ ".")) ws)).

(** The whole-line pattern of one of introduction, keywords, index terms,
    under [re.IGNORECASE]. *)
Definition abstract_stop : regex :=
  Seq (Star true ws)
    (Seq (Group 1
            (Alt (lit_i (py "introduction"))
               (Alt (lit_i (py "keywords")) (lit_i (py "index terms")))))
       (Seq (Star true ws) Eol)).

(** The first loop: the lines before the abstract line or an author line. *)
Fixpoint title_parts (lines : list str) : list str :=
  match lines with
  | [] => []
  | ln :: rest =>
      if matches abstract_line ln then []
      else if _looks_like_author_line ln then []
      else ln :: title_parts rest
  end.

(** The inner loop: the lines after the abstract line, up to a numbered
    line, a stop word or an arXiv stamp. *)
Fixpoint abstract_lines (lines : list str) : list str :=
  match lines with
  | [] => []
  | ln :: rest =>
      if matches numbered_start ln then []
      else if matches abstract_stop ln then []
      else if startswith (lower (strip ln)) (py "arxiv:") then []
      else ln :: abstract_lines rest
  end.

(** The outer loop: the first abstract line starts the inner loop. *)
Fixpoint abstract_after (lines : list str) : list str :=
  match lines with
  | [] => []
  | line :: rest =>
      if matches abstract_line line then abstract_lines rest
      else abstract_after rest
  end.

(** The non-blank lines of the first page, trimmed. *)
Definition first_page_lines (first_page_text : str) : list str :=
  map strip
    (filter (fun ln => negb (is_empty (strip ln)))
       (split first_page_text [LF])).

(** [page0] is the [extract_text()] of the first page. *)
Definition _extract_title_and_abstract_from_pdf (page0 : str) : str * str :=
  let first_page_text := strip page0 in
  if is_empty first_page_text then ([], [])
  else
    let lines := first_page_lines first_page_text in
    match lines with
    | [] => ([], [])
    | first :: _ =>
        let title :=
          match title_parts lines with
          | [] => first
          | _ :: _ => strip (join [SP] (title_parts lines))
          end in
        (title, strip (join [SP] (abstract_after lines)))
    end.

(** *** [embed_chunks] *)

Definition set_embedding {vec : Type} (chunk : RAGChunk vec) (emb : vec)
  : RAGChunk vec :=
  mkRAGChunk (chunk_doc_id chunk) (content chunk) (Some emb) (section chunk)
    (subsection chunk).

(** [for chunk, emb in zip(chunks, embeddings): chunk.embedding = emb]: the
    chunks beyond the vectors received stay as they are. *)
Fixpoint assign_embeddings {vec : Type} (chunks : list (RAGChunk vec))
  (embeddings : list vec) : list (RAGChunk vec) :=
  match chunks, embeddings with
  | chunk :: chunks', emb :: embeddings' =>
      set_embedding chunk emb :: assign_embeddings chunks' embeddings'
  | _, _ => chunks
  end.

Definition embed_chunks (C : collaborators) (document : Document (vec C))
  (chunks : list (RAGChunk (vec C))) : M (exn C) (list (RAGChunk (vec C))) :=
  match chunks with
  | [] => ret []
  | _ :: _ =>
      embeddings <- embed C (map content chunks) ;;
      ret (assign_embeddings chunks embeddings)
  end.

(** *** The store *)

Record document_row (vec : Type) : Type := mkDocumentRow {
  row_doc_id : str;
  row_arxiv_id : str;
  row_title : str;
  row_document_summary : str;
  row_document_summary_embedding : option vec
}.

Record chunk_row (vec : Type) : Type := mkChunkRow {
  crow_doc_id : str;
  crow_content : str;
  crow_embedding : option vec;
  crow_section : option str;
  crow_subsection : option str
}.

Arguments mkDocumentRow {vec}.
Arguments row_doc_id {vec}.
Arguments row_arxiv_id {vec}.
Arguments row_title {vec}.
Arguments row_document_summary {vec}.
Arguments row_document_summary_embedding {vec}.
Arguments mkChunkRow {vec}.
Arguments crow_doc_id {vec}.
Arguments crow_content {vec}.
Arguments crow_embedding {vec}.
Arguments crow_section {vec}.
Arguments crow_subsection {vec}.

(** The requests that the program sends to the store client. *)
Inductive request (vec : Type) : Type :=
| Upsert (table : str) (row : document_row vec) (on_conflict : str)
| DeleteEq (table column value : str)
| Insert (table : str) (rows : list (chunk_row vec)).

Arguments Upsert {vec}.
Arguments DeleteEq {vec}.
Arguments Insert {vec}.

(** The store client: the outcome of [execute()] on a request, given the
    requests carried out before. *)
Record storage (vec : Type) : Type := mkStorage {
  store_exn : Type;
  execute : list (request vec) -> request vec -> option store_exn
}.

Arguments mkStorage {vec}.
Arguments store_exn {vec}.
Arguments execute {vec}.

(** A computation on the store: from the requests carried out so far to a
    value or the failure of the store, and the requests carried out then; a
    request that fails is not carried out, those before it are. *)
Definition DB {vec : Type} (db : storage vec) (A : Type) : Type :=
  list (request vec) -> (store_exn db + A) * list (request vec).

Definition db_ret {vec : Type} {db : storage vec} {A : Type} (a : A)
  : DB db A :=
  fun log => (inr a, log).

Definition db_bind {vec : Type} {db : storage vec} {A B : Type}
  (m : DB db A) (f : A -> DB db B) : DB db B :=
  fun log =>
    match m log with
    | (inl e, log') => (inl e, log')
    | (inr a, log') => f a log'
    end.

Definition send {vec : Type} (db : storage vec) (r : request vec)
  : DB db unit :=
  fun log =>
    match execute db log r with
    | Some e => (inl e, log)
    | None => (inr tt, log ++ [r])
    end.

(** [_sanitize_text_for_db(x) or empty]. *)
Definition sanitized_or_empty (x : str) : str :=
  or_empty (_sanitize_text_for_db (Some x)).

Definition document_row_of {vec : Type} (document : Document vec)
  : document_row vec :=
  mkDocumentRow (doc_id document) (arxiv_id document)
    (sanitized_or_empty (title document))
    (sanitized_or_empty (document_summary document))
    (document_summary_embedding document).

Definition store_document {vec : Type} (db : storage vec)
  (document : Document vec) : DB db unit :=
  send db (Upsert (py "documents") (document_row_of document) (py "doc_id")).

Definition chunk_row_of {vec : Type} (chunk : RAGChunk vec) : chunk_row vec :=
  mkChunkRow (chunk_doc_id chunk)
    (sanitized_or_empty (content chunk))
    (embedding chunk)
    (_sanitize_text_for_db (section chunk))
    (_sanitize_text_for_db (subsection chunk)).

Definition store_chunks {vec : Type} (db : storage vec)
  (chunks : list (RAGChunk vec)) : DB db unit :=
  match chunks with
  | [] => db_ret tt
  | first :: _ =>
      db_bind (send db (DeleteEq (py "chunks") (py "doc_id") (chunk_doc_id first)))
        (fun _ => send db (Insert (py "chunks") (map chunk_row_of chunks)))
  end.

(** *** [process_and_store_docs] *)

(** What the loop runs against: the collaborators, the store, and the text
    of the pages of the file at a path ([PdfReader], the same at each
    reading), or the failure to read it. *)
Record environment : Type := mkEnvironment {
  env_collaborators : collaborators;
  env_storage : storage (vec env_collaborators);
  read_exn : Type;
  extract_pages : str -> read_exn + list str
}.

Inductive batch_error (E : environment) : Type :=
| ReadFailed (e : read_exn E)
| ProcessingFailed (e : error (exn (env_collaborators E)))
| StoreFailed (e : store_exn (env_storage E)).

Arguments ReadFailed {E}.
Arguments ProcessingFailed {E}.
Arguments StoreFailed {E}.

(** The state of the world of the loop: the calls made to the collaborators
    and the requests carried out by the store. A failure ends the loop and
    keeps the requests carried out until then; of a step of calls that fails
    the world keeps the trace from before the step ([M] returns no trace with
    an error). *)
Definition world (E : environment) : Type :=
  (trace * list (request (vec (env_collaborators E))))%type.

Definition Batch (E : environment) (A : Type) : Type :=
  world E -> (batch_error E + A) * world E.

Definition batch_ret {E : environment} {A : Type} (a : A) : Batch E A :=
  fun w => (inr a, w).

Definition batch_bind {E : environment} {A B : Type} (m : Batch E A)
  (f : A -> Batch E B) : Batch E B :=
  fun w =>
    match m w with
    | (inl e, w') => (inl e, w')
    | (inr a, w') => f a w'
    end.

Definition lift_calls {E : environment} {A : Type}
  (m : M (exn (env_collaborators E)) A) : Batch E A :=
  fun w =>
    match m (fst w) with
    | inl e => (inl (ProcessingFailed e), w)
    | inr (a, t') => (inr a, (t', snd w))
    end.

Definition lift_store {E : environment} {A : Type}
  (m : DB (env_storage E) A) : Batch E A :=
  fun w =>
    match m (snd w) with
    | (inl e, log') => (inl (StoreFailed e), (fst w, log'))
    | (inr a, log') => (inr a, (fst w, log'))
    end.

Definition read_document {E : environment} (doc_path : str)
  : Batch E (list str) :=
  fun w =>
    match extract_pages E doc_path with
    | inl e => (inl (ReadFailed e), w)
    | inr pages => (inr pages, w)
    end.

(** [process_document(doc_path)], from the path to the document and its
    chunks. *)
Definition process_document_at (E : environment) (doc_path : str)
  : Batch E (Document (vec (env_collaborators E))
             * list (RAGChunk (vec (env_collaborators E)))) :=
  batch_bind (read_document doc_path) (fun pages =>
  lift_calls
    (process_document (env_collaborators E) (_arxiv_id_from_path doc_path)
       (fst (_extract_title_and_abstract_from_pdf (hd [] pages))) pages)).

(** One iteration of the loop of [process_and_store_docs]. *)
Definition process_and_store_doc (E : environment) (doc_path : str)
  : Batch E unit :=
  batch_bind (process_document_at E doc_path) (fun dc =>
  batch_bind (lift_calls (embed_chunks (env_collaborators E) (fst dc) (snd dc)))
    (fun chunks =>
  batch_bind (lift_store (store_document (env_storage E) (fst dc))) (fun _ =>
  lift_store (store_chunks (env_storage E) chunks)))).

Fixpoint process_and_store_docs (E : environment) (documents : list str)
  : Batch E unit :=
  match documents with
  | [] => batch_ret tt
  | doc_path :: rest =>
      batch_bind (process_and_store_doc E doc_path)
        (fun _ => process_and_store_docs E rest)
  end.

(** *** Properties stated about these functions *)

(** A line at which the title stops: the abstract line or an author line. *)
Definition stops_title (line : str) : Prop :=
  is_abstract_heading line \/ _looks_like_author_line line = true.


(** A text that is trimmed and holds no line feed. *)
Definition one_trimmed_line (s : str) : Prop :=
  strip s = s /\ ~ In LF s.

(** A chunk as [process_document] hands it over: of the document, not yet
    embedded, with a text that the classifier accepts. *)
Definition fresh_chunk {vec : Type} (did : str) (c : RAGChunk vec) : Prop :=
  chunk_doc_id c = did
  /\ embedding c = None
  /\ _is_proper_chunk_text (content c) = true.

(** A request for the fact sentence of a section text that is trimmed and
    not empty. *)
Definition usage_call (c : call) : Prop :=
  exists text,
    text <> [] /\ strip text = text
    /\ c = ChatCompletion usage_system_prompt (usage_request text).

(** The invariant of the loop of [process_document] on the calls made since
    the trace [t0]: fact requests only, and neither a fact nor a chunk
    before the first of them. *)
Definition calls_inv (C : collaborators) (did : str) (t0 : trace)
  (st : seg_state (vec C)) (t : trace) : Prop :=
  exists calls,
    t = t0 ++ calls
    /\ Forall usage_call calls
    /\ Forall (fresh_chunk did) (chunks_out st)
    /\ (calls = [] -> section_sentences st = [] /\ chunks_out st = []).

(** A text without a character that the store rejects. *)
Definition db_clean (s : str) : Prop := Forall (fun c => ~ db_rejected c) s.

Definition db_clean_opt (s : option str) : Prop :=
  match s with Some x => db_clean x | None => True end.


(** A row of the table of documents as the program writes it for [id]. *)
Definition document_row_ok {vec : Type} (id : str) (row : document_row vec)
  : Prop :=
  row_doc_id row = id /\ row_arxiv_id row = id
  /\ db_clean (row_title row) /\ db_clean (row_document_summary row).

(** A row of the table of chunks as the program writes it for [id]. *)
Definition chunk_row_ok {vec : Type} (id : str) (row : chunk_row vec) : Prop :=
  crow_doc_id row = id
  /\ crow_content row <> [] /\ db_clean (crow_content row)
  /\ db_clean_opt (crow_section row) /\ db_clean_opt (crow_subsection row).

(** ** A sample store and a sample environment *)

Module StoreSamples.


(** A store that refuses every insertion with status 500. *)
Definition refusing_inserts : storage (vec Samples.demo) :=
  mkStorage nat
    (fun _ r => match r with Insert _ _ => Some 500 | _ => None end).

Definition paper_path : str := py "documents/2005.11401v4.pdf".


Definition library_refusing_inserts : environment :=
  mkEnvironment Samples.demo refusing_inserts nat
    (fun _ => inr [Samples.page_plain]).

(** An embedder that returns one vector, whatever the number of texts. *)
Definition one_vector : collaborators :=
  mkCollaborators nat (list nat)
    (fun _ _ _ => inr (Some (py "Key fact")))
    (fun _ _ => inr [[1; 2]])
    (fun text => [text]).

Definition two_chunks : list (RAGChunk (vec one_vector)) :=
  [mkRAGChunk Samples.did Samples.prose1 None (Some (py "Abstract")) None;
   mkRAGChunk Samples.did Samples.prose2 None (Some (py "Abstract")) None].

End StoreSamples.

(** * Properties *)

(** ** Characters and strings *)

Section StringFacts.

Lemma str_eqb_eq (a b : str) : str_eqb a b = true <-> a = b.
Proof.
  revert b; induction a as [|x a IH]; intros [|y b]; simpl;
    try (split; [discriminate | discriminate]); try (split; reflexivity).
  rewrite andb_true_iff, Ascii.eqb_eq, IH.
  split; [intros [-> ->]; reflexivity | intros H; inversion H; auto].
Qed.

Lemma is_empty_true (s : str) : is_empty s = true <-> s = [].
Proof. destruct s; simpl; split; congruence. Qed.

Lemma is_empty_false (s : str) : is_empty s = false <-> s <> [].
Proof. destruct s; simpl; split; congruence. Qed.

Lemma startswith_iff (s p : str) :
  startswith s p = true <-> exists r, s = p ++ r.
Proof.
  revert s; induction p as [|a p IH]; intros s; simpl.
  - split; [intros _; exists s; reflexivity | reflexivity].
  - destruct s as [|b s]; simpl.
    + split; [discriminate | intros [r H]; discriminate].
    + rewrite andb_true_iff, Ascii.eqb_eq, IH. split.
      * intros [-> [r ->]]. exists r; reflexivity.
      * intros [r H]. inversion H; subst. split; [reflexivity | exists r; reflexivity].
Qed.

Lemma str_in_iff (sub s : str) :
  str_in sub s = true <-> exists l r, s = l ++ sub ++ r.
Proof.
  induction s as [|b s IH]; simpl.
  - rewrite orb_false_r, startswith_iff. split.
    + intros [r H]. exists [], r. exact H.
    + intros [l [r H]]. destruct l; simpl in H.
      * exists r; exact H.
      * discriminate.
  - rewrite orb_true_iff, IH, startswith_iff. split.
    + intros [[r H] | [l [r H]]].
      * exists [], r; exact H.
      * exists (b :: l), r. simpl. rewrite H. reflexivity.
    + intros [l [r H]]. destruct l as [|x l]; simpl in H.
      * left. exists r; exact H.
      * right. inversion H. exists l, r. reflexivity.
Qed.

(** [c in s] for a one-character string is membership. *)
Lemma str_in_char (c : ascii) (s : str) :
  str_in [c] s = true <-> In c s.
Proof.
  rewrite str_in_iff. split.
  - intros [l [r ->]]. apply in_or_app. right. left. reflexivity.
  - intros H. apply in_split in H. destruct H as [l [r ->]].
    exists l, r. reflexivity.
Qed.

(** Words produced by [split] on whitespace are never empty. *)
Lemma split_ws_aux_nonempty (s cur : str) :
  Forall (fun w => w <> []) (split_ws_aux cur s).
Proof.
  revert cur; induction s as [|c s IH]; intros cur; simpl.
  - destruct cur as [|a cur]; constructor; [|constructor].
    simpl. intros H. apply app_eq_nil in H. destruct H; discriminate.
  - destruct (isspace c).
    + destruct cur as [|a cur]; [apply IH|].
      constructor; [|apply IH].
      simpl. intros H. apply app_eq_nil in H. destruct H; discriminate.
    + apply IH.
Qed.

Lemma words_of_split_ws (s : str) : words_of s = split_ws s.
Proof.
  unfold words_of, split_ws.
  generalize (split_ws_aux_nonempty s []).
  induction 1 as [|w l Hw Hl IH]; simpl; [reflexivity|].
  destruct w; [congruence|]. simpl. rewrite IH. reflexivity.
Qed.

Lemma isupper_iff (t : str) : isupper t = true <-> fully_uppercase t.
Proof.
  unfold isupper, fully_uppercase.
  rewrite andb_true_iff, forallb_forall, existsb_exists.
  split; intros [H1 H2]; split; auto.
  - intros c Hc. apply H1 in Hc. now apply negb_true_iff in Hc.
  - intros c Hc. apply negb_true_iff. auto.
Qed.

(** *** Trimming *)

Lemma lstrip_snoc (l : str) (c : ascii) :
  lstrip (l ++ [c]) =
  if is_empty (lstrip l) && isspace c then [] else lstrip l ++ [c].
Proof.
  induction l as [|a l IH]; simpl.
  - destruct (isspace c); reflexivity.
  - destruct (isspace a); [exact IH | reflexivity].
Qed.

Lemma is_empty_rev (s : str) : is_empty (rev s) = is_empty s.
Proof.
  destruct s as [|a s]; [reflexivity|]. simpl.
  destruct (rev s ++ [a]) eqn:E; [|reflexivity].
  apply app_eq_nil in E. destruct E; discriminate.
Qed.

(** [rstrip] by the first character. *)
Lemma rstrip_cons (c : ascii) (x : str) :
  rstrip (c :: x) =
  if is_empty (rstrip x) && isspace c then [] else c :: rstrip x.
Proof.
  unfold rstrip. simpl rev. rewrite lstrip_snoc, is_empty_rev.
  destruct (is_empty (lstrip (rev x)) && isspace c); [reflexivity|].
  rewrite rev_app_distr. reflexivity.
Qed.

Lemma lstrip_idem (s : str) : lstrip (lstrip s) = lstrip s.
Proof.
  induction s as [|c s IH]; [reflexivity|]. simpl.
  destruct (isspace c) eqn:E; [exact IH|]. simpl. rewrite E. reflexivity.
Qed.

Lemma rstrip_idem (s : str) : rstrip (rstrip s) = rstrip s.
Proof. unfold rstrip. rewrite rev_involutive, lstrip_idem. reflexivity. Qed.

(** A text that does not start with a space still does not after [rstrip]. *)
Lemma lstrip_rstrip_fixed (x : str) :
  lstrip x = x -> lstrip (rstrip x) = rstrip x.
Proof.
  destruct x as [|c x]; [reflexivity|]. simpl.
  destruct (isspace c) eqn:E.
  - intros H. exfalso.
    assert (Hl : forall s, length (lstrip s) <= length s).
    { induction s as [|a s IHs]; simpl; [lia|].
      destruct (isspace a); simpl; lia. }
    specialize (Hl x). rewrite H in Hl. simpl in Hl. lia.
  - intros _. rewrite rstrip_cons, E, andb_false_r. simpl. rewrite E.
    reflexivity.
Qed.

Lemma strip_strip (s : str) : strip (strip s) = strip s.
Proof.
  unfold strip.
  rewrite (lstrip_rstrip_fixed (lstrip s)) by apply lstrip_idem.
  apply rstrip_idem.
Qed.

End StringFacts.

(** ** Exact quotients against decimal thresholds *)

Section Ratios.

Lemma ratio_le (a b : nat) (p : Z) (q : positive) :
  0 < b ->
  (Qle_bool (ratio a b) (p # q) = true
   <-> (Z.of_nat a * Z.pos q <= p * Z.of_nat b)%Z).
Proof.
  intros Hb. rewrite Qle_bool_iff.
  destruct b as [|b]; [lia|].
  unfold ratio, Qdiv, Qmult, Qinv, Qle, inject_Z. simpl Qnum. simpl Qden.
  simpl. rewrite ?Z.mul_1_r. reflexivity.
Qed.

Lemma ratio_ge (a b : nat) (p : Z) (q : positive) :
  0 < b ->
  (Qle_bool (p # q) (ratio a b) = true
   <-> (p * Z.of_nat b <= Z.of_nat a * Z.pos q)%Z).
Proof.
  intros Hb. rewrite Qle_bool_iff.
  destruct b as [|b]; [lia|].
  unfold ratio, Qdiv, Qmult, Qinv, Qle, inject_Z. simpl Qnum. simpl Qden.
  simpl. rewrite ?Z.mul_1_r. reflexivity.
Qed.

End Ratios.

(** ** The database sanitizer *)

Section Sanitizer.

Lemma db_keeps_true (c : ascii) : db_keeps c = true -> ~ db_rejected c.
Proof.
  unfold db_keeps, db_rejected.
  rewrite andb_true_iff, negb_true_iff, orb_true_iff, Nat.leb_le, str_in_char.
  rewrite Ascii.eqb_neq. simpl.
  intros [H0 H] [H'|[H1 [H2 [H3 H4]]]]; [congruence|].
  destruct H as [H|[H|[H|[H|[]]]]]; try congruence. lia.
Qed.

Lemma db_keeps_false (c : ascii) : db_keeps c = false -> db_rejected c.
Proof.
  unfold db_keeps, db_rejected.
  rewrite andb_false_iff, negb_false_iff, orb_false_iff, Nat.leb_gt.
  rewrite Ascii.eqb_eq.
  intros [H|[H1 H2]]; [left; exact H|].
  right. split; [exact H1|].
  assert (Hn : ~ In c [LF; CR; TAB]).
  { intros Hin. apply str_in_char in Hin. congruence. }
  simpl in Hn. repeat split; intros E; apply Hn; auto.
Qed.

Lemma sanitize_purged (x : str) : purged db_rejected x (filter db_keeps x).
Proof.
  induction x as [|c x IH]; simpl; [constructor|].
  destruct (db_keeps c) eqn:E.
  - apply purged_keep; [apply db_keeps_true; exact E | exact IH].
  - apply purged_drop; [apply db_keeps_false; exact E | exact IH].
Qed.

Lemma purged_subseq (P : ascii -> Prop) (x y : str) :
  purged P x y -> subseq y x.
Proof. induction 1; constructor; assumption. Qed.

Lemma purged_clean (P : ascii -> Prop) (x y : str) :
  purged P x y -> Forall (fun c => ~ P c) y.
Proof. induction 1; auto. Qed.

Lemma purged_id (P : ascii -> Prop) (x y : str) :
  purged P x y -> Forall (fun c => ~ P c) x -> y = x.
Proof.
  induction 1 as [|c x y Hc _ IH|c x y Hc _ IH]; intros Hx;
    [reflexivity | inversion Hx; contradiction | ].
  inversion Hx; subst. f_equal. auto.
Qed.

(** C10. The sanitizer returns None exactly on None; on a string it returns
    the string with exactly the rejected characters (the null byte, and the
    control characters below 32 other than line feed, carriage return and
    tab) removed, the others in their order: the result is a subsequence
    free of rejected characters, and a string free of them is unchanged. *)
Theorem sanitize_text_for_db_spec (s : option str) :
  (_sanitize_text_for_db s = None <-> s = None)
  /\ match s with
     | None => True
     | Some x =>
         exists y,
           _sanitize_text_for_db s = Some y
           /\ purged db_rejected x y
           /\ subseq y x
           /\ Forall (fun c => ~ db_rejected c) y
           /\ (Forall (fun c => ~ db_rejected c) x -> y = x)
     end.
Proof.
  destruct s as [x|]; simpl.
  - split; [split; discriminate|].
    exists (filter db_keeps x).
    pose proof (sanitize_purged x) as Hp.
    split; [reflexivity|].
    split; [exact Hp|].
    split; [eapply purged_subseq; exact Hp|].
    split; [eapply purged_clean; exact Hp|].
    apply purged_id. exact Hp.
  - split; [split; reflexivity | exact I].
Qed.

End Sanitizer.

(** ** The prose classifier *)

Section Classifier.

Lemma has_end_iff (s : str) :
  existsb (fun c => str_in [c] s) (py ".!?") = true
  <-> exists c, In c (py ".!?") /\ In c s.
Proof.
  rewrite existsb_exists. split; intros [c [H1 H2]]; exists c; split; auto;
    apply str_in_char; exact H2.
Qed.

Lemma prose_accepts_guard (t : str) :
  prose_accepts t -> 35 <= length t /\ 5 <= length (split_ws t).
Proof. intros [H1 H2 _ _ _ _ _ _]. split; assumption. Qed.

(** The classifier against the conditions of the specification. *)
Lemma proper_iff_accepts (w : str) :
  _is_proper_chunk_text w = true <-> prose_accepts (strip w).
Proof.
  unfold _is_proper_chunk_text.
  rewrite words_of_split_ws.
  set (s := strip w). set (ws := split_ws s).
  destruct (is_empty s || (length s <? 35) || (length ws <? 5)) eqn:G.
  - split; [discriminate|]. intros H.
    apply prose_accepts_guard in H. destruct H as [H1 H2]. subst ws.
    rewrite !orb_true_iff, !Nat.ltb_lt, is_empty_true in G.
    destruct G as [[G|G]|G]; try lia.
    rewrite G in H1. simpl in H1. lia.
  - rewrite !orb_false_iff, !Nat.ltb_ge in G. destruct G as [[_ Gn] Gw].
    assert (Hn : Nat.max (length s) 1 = length s) by lia.
    assert (Hw : Nat.max (length ws) 1 = length ws) by lia.
    rewrite Hn, Hw.
    rewrite !andb_true_iff, orb_true_iff, negb_true_iff.
    rewrite ratio_le, ratio_le, ratio_ge, ratio_ge, ratio_ge by lia.
    rewrite has_end_iff.
    split.
    + intros [[[[[Hd Hs] Ha] Hu] He] Hc].
      subst ws.
      constructor; unfold fraction_le, fraction_ge, distinct_lower; try lia.
      * destruct He as [He|He]; [left; exact He | right; lia].
      * intros [Hup Hlt]. apply isupper_iff in Hup.
        apply Nat.ltb_lt in Hlt. rewrite Hup, Hlt in Hc. discriminate.
    + intros [H1 H2 Hd Hs Ha Hu He Hc]. subst ws.
      unfold fraction_le, fraction_ge, distinct_lower in *.
      repeat split; try lia.
      * destruct He as [He|He]; [left; exact He | right; lia].
      * apply andb_false_iff.
        destruct (isupper s) eqn:Eu; [right | left; reflexivity].
        apply Nat.ltb_ge.
        destruct (le_lt_dec 80 (length s)) as [L|L]; [exact L|].
        exfalso. apply Hc. split; [apply isupper_iff; exact Eu | exact L].
Qed.

(** C3. The classifier accepts a text exactly when its trimmed form meets
    every condition of the specification: at least 35 characters and 5
    words, digit fraction at most 0.40, one-character-word fraction at most
    0.28, alphabetic-word fraction at least 0.50, distinct lowercase
    word-form fraction at least 0.30, a sentence terminator or an average
    word length of at least 3.2, and not fully uppercase while shorter than
    80 characters. *)
Theorem is_proper_chunk_text_spec (w : str) :
  _is_proper_chunk_text w = true <-> prose_accepts (strip w).
Proof. exact (proper_iff_accepts w). Qed.

End Classifier.

(** ** Flush and line processing *)

Section Segmenter.

Variable C : collaborators.
Variable did : str.

Local Abbreviation state := (seg_state (vec C)).

Lemma bind_inr {A B : Type} (m : M (exn C) A) (f : A -> M (exn C) B)
  (t : trace) (b : B) (t' : trace) :
  bind m f t = inr (b, t') ->
  exists a t1, m t = inr (a, t1) /\ f a t1 = inr (b, t').
Proof.
  unfold bind. destruct (m t) as [e|[a t1]]; [discriminate|].
  intros H. exists a, t1. split; [reflexivity | exact H].
Qed.

Lemma bind_inl {A B : Type} (m : M (exn C) A) (f : A -> M (exn C) B)
  (t : trace) (e : error (exn C)) :
  m t = inl e -> bind m f t = inl e.
Proof. unfold bind. intros ->. reflexivity. Qed.

Lemma foldM_app {A B : Type} (f : A -> B -> M (exn C) A) (l1 l2 : list B)
  (a : A) (t : trace) :
  foldM f (l1 ++ l2) a t = bind (foldM f l1 a) (foldM f l2) t.
Proof.
  revert a t. induction l1 as [|x l1 IH]; intros a t; simpl.
  - reflexivity.
  - unfold bind. destruct (f a x t) as [e|[a' t1]]; [reflexivity|].
    rewrite IH. reflexivity.
Qed.

(** An invariant of the elements folded so far, the state and the trace. *)
Lemma foldM_inv {A B : Type} (f : A -> B -> M (exn C) A)
  (P : list B -> A -> trace -> Prop) :
  (forall h a x t a' t',
      P h a t -> f a x t = inr (a', t') -> P (h ++ [x]) a' t') ->
  forall l h a t a' t',
    P h a t -> foldM f l a t = inr (a', t') -> P (h ++ l) a' t'.
Proof.
  intros Hstep l. induction l as [|x l IH]; intros h a t a' t' HP H; simpl in H.
  - inversion H; subst. rewrite app_nil_r. exact HP.
  - apply bind_inr in H. destruct H as [a1 [t1 [H1 H2]]].
    replace (h ++ x :: l) with ((h ++ [x]) ++ l)
      by (rewrite <- app_assoc; reflexivity).
    eapply IH; [|exact H2]. eapply Hstep; eassumption.
Qed.

(** The fact-sentence request of a non-blank text reaches the language
    model. *)
Lemma usage_line_call (combined : str) (t : trace) :
  combined <> [] -> strip combined <> [] ->
  _extract_section_usage_line C combined t =
  match chat_completions_create C t usage_system_prompt
          (usage_request combined) with
  | inl e => inl (External e)
  | inr r =>
      let line := strip (or_empty r) in
      inr (if is_empty line then [] else strip (hd [] (split line [LF])),
           t ++ [ChatCompletion usage_system_prompt (usage_request combined)])
  end.
Proof.
  intros H1 H2. unfold _extract_section_usage_line.
  apply is_empty_false in H1. apply is_empty_false in H2.
  rewrite H1, H2. cbn [orb].
  unfold bind, chat, ret, usage_request.
  destruct (chat_completions_create C t usage_system_prompt _);
    reflexivity.
Qed.

(** What a flush leaves unchanged, and what it adds. *)
Lemma flush_inr (st st' : state) (t t' : trace) :
  flush C did st t = inr (st', t') ->
  current_section st' = current_section st
  /\ current_subsection st' = current_subsection st
  /\ in_references st' = in_references st
  /\ current_part st' = current_part st
  /\ exists combined,
       chunks_out st' = chunks_out st ++ emitted C did st combined.
Proof.
  unfold flush.
  destruct (section_content st) as [|x l] eqn:Ec.
  - intros H. inversion H; subst. repeat split.
    exists []. unfold emitted, _chunk_section. simpl.
    rewrite app_nil_r. reflexivity.
  - set (combined := strip (join [SP] (x :: l))).
    destruct (is_empty combined) eqn:Ee.
    + intros H. inversion H; subst. repeat split.
      exists []. unfold emitted, _chunk_section. simpl.
      rewrite app_nil_r. reflexivity.
    + intros H. apply bind_inr in H. destruct H as [u [t1 [_ H]]].
      inversion H; subst. simpl. repeat split.
      exists combined. reflexivity.
Qed.

Lemma commit_part_labels (st : state) :
  current_section (commit_part st) = current_section st
  /\ current_subsection (commit_part st) = current_subsection st
  /\ in_references (commit_part st) = in_references st
  /\ chunks_out (commit_part st) = chunks_out st
  /\ current_part (commit_part st) = current_part st.
Proof.
  unfold commit_part. destruct (current_part st) eqn:E; simpl;
    repeat split; auto.
Qed.

Lemma set_in_references_same (st : state) :
  set_in_references (in_references st) st = st.
Proof. destruct st; reflexivity. Qed.

(** [process_line] by the kind of the line. *)
Lemma process_line_classify (st : state) (line : str) :
  process_line C did st line =
  match classify (in_references st) (strip line) with
  | KReferences =>
      st' <- flush C did (commit_part st) ;; ret (set_in_references true st')
  | KSection =>
      st' <- flush C did (commit_part (set_in_references false st)) ;;
      ret (set_current_part [] (set_section (strip line) st'))
  | KSubsection =>
      st' <- flush C did (commit_part (set_in_references false st)) ;;
      ret (set_current_part [] (set_subsection (strip line) st'))
  | KPlain => ret (set_current_part (current_part st ++ [line]) st)
  | KDiscard => ret st
  end.
Proof.
  unfold process_line, classify, numbered_header, open_heading.
  destruct (in_references st) eqn:Er.
  - destruct (_is_appendix_header (strip line)); [|reflexivity].
    destruct (re_match section_header (strip line)) as [m|]; [|reflexivity].
    destruct (length (split_ws (strip line)) <=? 15); [|reflexivity].
    destruct (str_in (py ".") (group 1 m)); reflexivity.
  - replace (set_in_references false st) with st
      by (rewrite <- Er; symmetry; apply set_in_references_same).
    destruct (_is_standalone_references_header (strip line)); [reflexivity|].
    destruct (re_match section_header (strip line)) as [m|]; [|reflexivity].
    destruct (length (split_ws (strip line)) <=? 15); [|reflexivity].
    destruct (_is_references_or_bibliography (strip (group 2 m)));
      [reflexivity|].
    destruct (str_in (py ".") (group 1 m)); reflexivity.
Qed.

(** *** Termination with collaborators that answer *)

Lemma foldM_total {A B : Type} (f : A -> B -> M (exn C) A) :
  (forall a x t, exists a' t', f a x t = inr (a', t')) ->
  forall l a t, exists a' t', foldM f l a t = inr (a', t').
Proof.
  intros Hf l. induction l as [|x l IH]; intros a t; simpl.
  - exists a, t. reflexivity.
  - unfold bind. destruct (Hf a x t) as [a1 [t1 ->]]. apply IH.
Qed.

Lemma usage_line_total (text : str) (t : trace) :
  reliable C ->
  exists u t', _extract_section_usage_line C text t = inr (u, t').
Proof.
  intros [Hchat _]. unfold _extract_section_usage_line.
  destruct (is_empty text || is_empty (strip text)).
  - exists [], t. reflexivity.
  - unfold bind, chat.
    destruct (Hchat t usage_system_prompt
                (py "Section text:" ++ [LF] ++ firstn 8000 text)) as [r ->].
    eexists. eexists. reflexivity.
Qed.

Lemma flush_total (st : state) (t : trace) :
  reliable C -> exists st' t', flush C did st t = inr (st', t').
Proof.
  intros HC. unfold flush.
  destruct (section_content st) as [|x l]; [exists st, t; reflexivity|].
  destruct (is_empty (strip (join [SP] (x :: l))));
    [exists st, t; reflexivity|].
  unfold bind.
  destruct (usage_line_total (strip (join [SP] (x :: l))) t HC)
    as [u [t' ->]].
  eexists. eexists. reflexivity.
Qed.

Lemma process_line_total (st : state) (line : str) (t : trace) :
  reliable C -> exists st' t', process_line C did st line t = inr (st', t').
Proof.
  intros HC. rewrite process_line_classify.
  destruct (classify (in_references st) (strip line));
    try (eexists; eexists; reflexivity); unfold bind.
  - destruct (flush_total (commit_part st) t HC) as [s1 [t1 ->]].
    eexists. eexists. reflexivity.
  - destruct (flush_total (commit_part (set_in_references false st)) t HC)
      as [s1 [t1 ->]].
    eexists. eexists. reflexivity.
  - destruct (flush_total (commit_part (set_in_references false st)) t HC)
      as [s1 [t1 ->]].
    eexists. eexists. reflexivity.
Qed.

Lemma process_block_total (st : state) (block : str) (t : trace) :
  reliable C -> exists st' t', process_block C did st block t = inr (st', t').
Proof.
  intros HC. unfold process_block, bind.
  destruct (foldM_total (process_line C did)
              (fun a x t0 => process_line_total a x t0 HC)
              (split block [LF]) (set_current_part [] st) t) as [s1 [t1 ->]].
  eexists. eexists. reflexivity.
Qed.

Lemma condense_total (sentences : list str) (t : trace) :
  reliable C ->
  exists sm t', _condense_sentences_to_summary C sentences t = inr (sm, t').
Proof.
  intros [Hchat _]. unfold _condense_sentences_to_summary.
  destruct sentences as [|s0 ss]; [exists [], t; reflexivity|].
  unfold bind, chat.
  destruct (Hchat t condense_system_prompt
              (py "Section sentences:" ++
               [LF] ++ join [LF] (map (fun s => py "- " ++ s) (s0 :: ss))))
    as [r ->].
  eexists. eexists. reflexivity.
Qed.

Lemma embed_text_total (text : str) (t : trace) :
  reliable C -> exists e t', _embed_text C text t = inr (e, t').
Proof.
  intros [_ Hemb]. unfold _embed_text.
  destruct (is_empty text || is_empty (strip text));
    [exists None, t; reflexivity|].
  unfold bind, embed. destruct (Hemb t [strip text]) as [r ->].
  eexists. eexists. reflexivity.
Qed.

(** With collaborators that answer, a document that has a page is processed
    to the end. *)
Lemma process_document_total (ttl : str) (pages : list str) (t : trace) :
  reliable C -> pages <> [] ->
  exists d cs t', process_document C did ttl pages t = inr ((d, cs), t').
Proof.
  intros HC Hp. unfold process_document.
  destruct pages as [|p0 ps]; [congruence|].
  unfold process_blocks.
  destruct (foldM_total (process_block C did)
              (fun a x t0 => process_block_total a x t0 HC)
              (blocks_of (p0 :: ps)) (init_state C) t) as [s1 [t1 H1]].
  assert (Hfin : exists s2 t2,
             (if negb (in_references s1) then flush C did s1 else ret s1) t1
             = inr (s2, t2)).
  { destruct (negb (in_references s1)).
    - apply flush_total. exact HC.
    - exists s1, t1. reflexivity. }
  destruct Hfin as [s2 [t2 H2]].
  destruct (condense_total (section_sentences s2) t2 HC) as [sm [t3 H3]].
  destruct (embed_text_total sm t3 HC) as [em [t4 H4]].
  exists (mkDocument did did ttl sm em), (chunks_out s2), t4.
  unfold bind. rewrite H1, H2, H3, H4. reflexivity.
Qed.

End Segmenter.

(** ** Summary aggregation *)

(** C9. On an empty list of fact sentences the aggregator returns the
    empty summary without any call, the empty summary is not sent to the
    embedder, and the document gets the empty summary and no embedding:
    the trace of calls is unchanged, whatever the collaborators do. *)
Theorem empty_facts_no_summary_no_embedding (C : collaborators)
  (did ttl : str) (pages : list str) (t : trace) :
  _condense_sentences_to_summary C [] t = inr ([], t)
  /\ _embed_text C [] t = inr (None, t)
  /\ match process_blocks C did (blocks_of pages) (init_state C) t with
     | inr (st, t1) =>
         section_sentences st = [] -> pages <> [] ->
         process_document C did ttl pages t =
         inr ((mkDocument did did ttl [] None, chunks_out st), t1)
     | inl _ => True
     end.
Proof.
  split; [reflexivity|]. split; [reflexivity|].
  destruct (process_blocks C did (blocks_of pages) (init_state C) t)
    as [e|[st t1]] eqn:E; [exact I|].
  intros Hs Hp. unfold process_document.
  destruct pages as [|p0 rest]; [congruence|].
  unfold bind at 1. rewrite E. rewrite Hs. reflexivity.
Qed.

(** ** References before numbered headers *)

Section ReferencesPrecedence.

Variable C : collaborators.
Variable did : str.

(** Inside the references neither test runs: a line that is not an appendix
    header is skipped, whatever it looks like. *)
Lemma references_state_discards (st : seg_state (vec C)) (line : str)
  (t : trace) :
  in_references st = true ->
  _is_appendix_header (strip line) = false ->
  process_line C did st line t = inr (st, t).
Proof. intros Hr Ha. unfold process_line. rewrite Hr, Ha. reflexivity. Qed.

(** The test of the title is the substring condition, on the lowercase
    title. *)
Lemma references_or_bibliography_iff (title : str) :
  _is_references_or_bibliography title = true <-> mentions_references title.
Proof.
  unfold _is_references_or_bibliography, mentions_references.
  rewrite orb_true_iff, !str_in_iff. split.
  - intros [[l [r H]]|[l [r H]]]; exists l, r; auto.
  - intros [l [r [H|H]]]; [left | right]; exists l, r; exact H.
Qed.

(** C4. A line that is a numbered header and whose title contains
    references or bibliography. Outside the references it is handled as a
    references header, whatever its number: the pending text is flushed, the
    state becomes the references state, and the section and subsection labels
    stay as they were. Inside the references it is skipped and changes
    nothing, unless it is an appendix header: then the state leaves the
    references and the line opens a subsection when its number is dotted and
    a section otherwise. *)
Theorem references_header_precedes_numbered
  (st : seg_state (vec C)) (line number title : str) (t : trace) :
  numbered_header (strip line) = Some (number, title) ->
  mentions_references title ->
  (in_references st = false ->
   classify (in_references st) (strip line) = KReferences
   /\ process_line C did st line t =
      (st' <- flush C did (commit_part st) ;;
       ret (set_in_references true st')) t
   /\ forall st' t',
        process_line C did st line t = inr (st', t') ->
        in_references st' = true
        /\ current_section st' = current_section st
        /\ current_subsection st' = current_subsection st)
  /\ (in_references st = true ->
      _is_appendix_header (strip line) = false ->
      process_line C did st line t = inr (st, t))
  /\ (in_references st = true ->
      _is_appendix_header (strip line) = true ->
      forall st' t',
        process_line C did st line t = inr (st', t') ->
        in_references st' = false
        /\ if str_in (py ".") number
           then current_section st' = current_section st
                /\ current_subsection st' = Some (strip line)
           else current_section st' = Some (strip line)
                /\ current_subsection st' = None).
Proof.
  intros Hn Ht. apply references_or_bibliography_iff in Ht.
  split; [|split].
  - intros Hr.
    assert (Hk : classify (in_references st) (strip line) = KReferences).
    { rewrite Hr. unfold classify. rewrite Hn, Ht.
      destruct (_is_standalone_references_header (strip line)); reflexivity. }
    split; [exact Hk|].
    rewrite process_line_classify, Hk.
    split; [reflexivity|].
    intros st' t' H. apply bind_inr in H. destruct H as [s1 [t1 [Hf H]]].
    inversion H; subst. simpl.
    apply flush_inr in Hf. destruct Hf as [Hs [Hb _]].
    destruct (commit_part_labels C st) as [Hs' [Hb' _]].
    split; [reflexivity|]. split; congruence.
  - intros Hr Ha. apply references_state_discards; assumption.
  - intros Hr Ha st' t' H.
    rewrite process_line_classify, Hr in H.
    unfold classify in H. rewrite Ha, Hn in H.
    destruct (str_in (py ".") number);
      apply bind_inr in H; destruct H as [s1 [t1 [Hf H]]];
      injection H as <- <-;
      apply flush_inr in Hf; destruct Hf as [Hs [Hb [Hi _]]];
      destruct (commit_part_labels C (set_in_references false st))
        as [Hs' [Hb' [Hi' _]]];
      cbn [in_references current_section current_subsection
           set_current_part set_section set_subsection];
      (split; [rewrite Hi, Hi'; reflexivity|]).
    + split; [rewrite Hs, Hs'; reflexivity | reflexivity].
    + split; reflexivity.
Qed.

End ReferencesPrecedence.

(** C4 (counterexample). Inside the references, the line 7 Appendix
    References is a numbered header whose title contains references, and it
    is not handled as a references header: the state leaves the references
    and the line becomes the section. *)
Lemma numbered_references_title_opens_section :
  numbered_header (strip (py "7 Appendix References"))
  = Some (py "7", py "Appendix References")
  /\ _is_references_or_bibliography (py "Appendix References") = true
  /\ lower (py "Appendix References")
     = py "appendix " ++ py "references" ++ []
  /\ process_line Samples.demo (py "2005.11401v4")
       (set_in_references true (init_state Samples.demo))
       (py "7 Appendix References") []
     = inr (mkState [] (Some (py "7 Appendix References")) None [] [] false [],
            []).
Proof. vm_compute. repeat split. Qed.

(** ** Failure of the fact-sentence collaborator *)

Section FactFailure.

Variable C : collaborators.
Variable did : str.

(** With a language model that fails on every request, a flush can only
    return when it had nothing to send. *)
Lemma flush_failing (st st' : seg_state (vec C)) (t t' : trace) :
  (forall t s u, exists e, chat_completions_create C t s u = inl e) ->
  flush C did st t = inr (st', t') -> st' = st /\ t' = t.
Proof.
  intros Hfail. unfold flush.
  destruct (section_content st) as [|x l] eqn:Ec.
  - intros H. inversion H. auto.
  - set (combined := strip (join [SP] (x :: l))).
    destruct (is_empty combined) eqn:Ee.
    + intros H. inversion H. auto.
    + intros H. exfalso. apply bind_inr in H. destruct H as [u [t1 [H _]]].
      assert (Hc : combined <> []) by (apply is_empty_false; exact Ee).
      assert (Hs : strip combined <> []).
      { unfold combined. rewrite strip_strip. exact Hc. }
      rewrite usage_line_call in H by assumption.
      destruct (Hfail t usage_system_prompt (usage_request combined)) as [e He].
      rewrite He in H. discriminate.
Qed.

Lemma process_line_failing (st st' : seg_state (vec C)) (line : str)
  (t t' : trace) :
  (forall t s u, exists e, chat_completions_create C t s u = inl e) ->
  process_line C did st line t = inr (st', t') ->
  chunks_out st' = chunks_out st
  /\ section_sentences st' = section_sentences st /\ t' = t.
Proof.
  intros Hfail. rewrite process_line_classify.
  destruct (classify (in_references st) (strip line)); intros H;
    try (apply bind_inr in H; destruct H as [s1 [t1 [Hf H]]];
         apply (flush_failing _ _ _ _ Hfail) in Hf; destruct Hf as [-> ->];
         inversion H; subst; simpl;
         unfold commit_part; destruct (current_part _); simpl; auto);
    inversion H; subst; simpl; auto.
Qed.

(** C1 (amended). A raised failure of the fact-sentence collaborator is not
    absorbed. A flush of non-blank text returns the failure itself and
    emits nothing; only a reply that is absent or blank is taken as no fact
    for this section, and then the flush emits every accepted chunk under the
    current labels, leaves the fact list as it was and empties the buffer.
    With a collaborator that fails on every request, a document either ends
    with an error or has emitted no chunk, recorded no fact and made no
    call. Once a block has ended with an error, the document ends with that
    error whatever the blocks that remain. *)
Theorem fact_failure_aborts_flush :
  (forall (st : seg_state (vec C)) (t : trace),
      let combined := strip (join [SP] (section_content st)) in
      section_content st <> [] -> combined <> [] ->
      match chat_completions_create C t usage_system_prompt
              (usage_request combined) with
      | inl e => flush C did st t = inl (External e)
      | inr r =>
          strip (or_empty r) = [] ->
          flush C did st t =
          inr (set_chunks_sentences st
                 (chunks_out st ++ emitted C did st combined)
                 (section_sentences st),
               t ++ [ChatCompletion usage_system_prompt
                       (usage_request combined)])
      end)
  /\ (forall (ttl : str) (pages : list str) (t : trace),
        (forall t s u, exists e, chat_completions_create C t s u = inl e) ->
        match process_document C did ttl pages t with
        | inl _ => True
        | inr ((d, cs), t') => cs = [] /\ document_summary d = [] /\ t' = t
        end)
  /\ (forall (ttl : str) (pages : list str) (done rest : list str)
             (t : trace) (e : error (exn C)),
        pages <> [] ->
        blocks_of pages = done ++ rest ->
        foldM (process_block C did) done (init_state C) t = inl e ->
        process_document C did ttl pages t = inl e).
Proof.
  split; [|split].
  - intros st t combined Hne Hc.
    assert (Hs : strip combined <> []).
    { unfold combined. rewrite strip_strip. exact Hc. }
    unfold flush. destruct (section_content st) as [|x l] eqn:Ec; [congruence|].
    fold combined. apply is_empty_false in Hc. rewrite Hc.
    apply is_empty_false in Hc.
    unfold bind. rewrite usage_line_call by assumption.
    destruct (chat_completions_create C t usage_system_prompt
                (usage_request combined)) as [e|r]; [reflexivity|].
    intros Hr. cbv zeta. rewrite Hr. reflexivity.
  - intros ttl pages t Hfail.
    destruct (process_document C did ttl pages t) as [e|[[d cs] t']] eqn:E;
      [exact I|].
    unfold process_document in E.
    destruct pages as [|p0 rest]; [discriminate|].
    apply bind_inr in E. destruct E as [st [t1 [Hb E]]].
    assert (Hinv : chunks_out st = [] /\ section_sentences st = [] /\ t1 = t).
    { unfold process_blocks in Hb.
      apply bind_inr in Hb. destruct Hb as [s1 [t2 [Hb Hfin]]].
      assert (H1 : chunks_out s1 = [] /\ section_sentences s1 = [] /\ t2 = t).
      { refine (foldM_inv C (process_block C did)
                  (fun _ s t' =>
                     chunks_out s = [] /\ section_sentences s = [] /\ t' = t)
                  _ (blocks_of (p0 :: rest)) [] (init_state C) t s1 t2 _ Hb);
          [|simpl; auto].
        intros _ a block ta a' ta' [Ha1 [Ha2 ->]] Hblk.
        unfold process_block in Hblk.
        apply bind_inr in Hblk. destruct Hblk as [s2 [t3 [Hl Hend]]].
        assert (H2 : chunks_out s2 = [] /\ section_sentences s2 = [] /\ t3 = t).
        { refine (foldM_inv C (process_line C did)
                    (fun _ s t' =>
                       chunks_out s = [] /\ section_sentences s = []
                       /\ t' = t)
                    _ (split block [LF]) [] (set_current_part [] a) t s2 t3
                    _ Hl); [|simpl; auto].
          intros _ b ln tb b' tb' [Hb1 [Hb2 ->]] Hln.
          apply (process_line_failing _ _ _ _ _ Hfail) in Hln.
          destruct Hln as [-> [-> ->]]. auto. }
        destruct H2 as [H21 [H22 ->]].
        inversion Hend; subst.
        destruct (negb (in_references s2)); [|auto].
        unfold commit_part. destruct (current_part s2); simpl; auto. }
      destruct H1 as [H11 [H12 ->]].
      destruct (negb (in_references s1)).
      - apply (flush_failing _ _ _ _ Hfail) in Hfin.
        destruct Hfin as [-> ->]. auto.
      - inversion Hfin; subst. auto. }
    destruct Hinv as [Hc [Hs ->]].
    rewrite Hs in E. simpl in E. inversion E; subst. auto.
  - intros ttl pages done rest t e Hp Hb Hfail.
    unfold process_document. destruct pages as [|p0 ps]; [congruence|].
    apply bind_inl. unfold process_blocks. apply bind_inl.
    rewrite Hb, foldM_app. apply bind_inl. exact Hfail.
Qed.

End FactFailure.

(** C1 (counterexample). With a language model that fails, a one-page
    document whose only section holds a chunk that the classifier accepts ends
    with the failure: no document and no chunk are returned. *)
Lemma fact_failure_loses_accepted_chunk :
  _is_proper_chunk_text Samples.prose1 = true
  /\ blocks_of [Samples.page_plain] = [Samples.prose1]
  /\ process_document Samples.failing (py "2005.11401v4") (py "A Title")
       [Samples.page_plain] [] = inl (External 503).
Proof. vm_compute. repeat split. Qed.

(** ** Appendix after references on one page *)

Section StalePart.

Variable C : collaborators.
Variable did : str.

(** A line that opens a heading leaves [current_part] empty. *)
Lemma heading_resets_current_part (st st' : seg_state (vec C)) (line : str)
  (t t' : trace) :
  classify (in_references st) (strip line) = KSection
  \/ classify (in_references st) (strip line) = KSubsection ->
  process_line C did st line t = inr (st', t') ->
  current_part st' = [].
Proof.
  intros Hk H. rewrite process_line_classify in H.
  destruct Hk as [Hk|Hk]; rewrite Hk in H;
    apply bind_inr in H; destruct H as [s1 [t1 [_ H]]];
    inversion H; reflexivity.
Qed.

(** A line that enters the references state flushes the buffer and leaves
    [current_part] as it was. *)
Lemma references_entry_keeps_current_part (st st' : seg_state (vec C))
  (line : str) (t t' : trace) :
  classify (in_references st) (strip line) = KReferences ->
  process_line C did st line t = inr (st', t') ->
  in_references st' = true /\ current_part st' = current_part st.
Proof.
  intros Hk H. rewrite process_line_classify, Hk in H.
  apply bind_inr in H. destruct H as [s1 [t1 [Hf H]]].
  inversion H; subst. simpl. split; [reflexivity|].
  apply flush_inr in Hf. destruct Hf as [_ [_ [_ [Hp _]]]].
  destruct (commit_part_labels C st) as [_ [_ [_ [_ Hc]]]].
  congruence.
Qed.

(** Leaving the references state at an appendix header appends what
    [current_part] holds and flushes it. *)
Lemma appendix_exit_flushes_current_part (st : seg_state (vec C))
  (line : str) (t : trace) :
  in_references st = true ->
  _is_appendix_header (strip line) = true ->
  section_content st = [] ->
  current_part st <> [] ->
  exists st1,
    section_content st1 = [join [LF] (current_part st)]
    /\ match flush C did st1 t with
       | inl e => process_line C did st line t = inl e
       | inr (st2, t2) =>
           exists st', process_line C did st line t = inr (st', t2)
                       /\ chunks_out st' = chunks_out st2
       end.
Proof.
  intros Hr Ha Hs Hp.
  exists (commit_part (set_in_references false st)). split.
  - unfold commit_part. simpl. destruct (current_part st); [congruence|].
    simpl. rewrite Hs. reflexivity.
  - unfold process_line. rewrite Hr, Ha. unfold bind.
    destruct (flush C did (commit_part (set_in_references false st)) t)
      as [e|[st2 t2]]; [reflexivity|].
    eexists. split; [reflexivity|].
    destruct (re_match section_header (strip line)) as [m|]; [|reflexivity].
    destruct (length (split_ws (strip line)) <=? 15); [|reflexivity].
    unfold open_heading. destruct (str_in (py ".") (group 1 m)); reflexivity.
Qed.

End StalePart.

(** C2 (behaviour of the code). When the references header and the appendix
    header stand in one block, the text before the references header is still
    in [current_part] at the appendix header: it is appended and flushed
    again, so its chunk is emitted twice and a second fact sentence is
    requested for it. *)
Lemma appendix_after_references_reemits :
  exists d cs t,
    process_document Samples.demo (py "2005.11401v4") (py "A Title")
      [Samples.page_refs_appendix] [] = inr ((d, cs), t)
    /\ map (fun c => (content c, section c)) cs =
       [(Samples.prose1, Some (py "Abstract"));
        (Samples.prose1, Some (py "Abstract"));
        (Samples.prose2, Some (py "Appendix A"))]
    /\ filter (fun c => match c with
                        | ChatCompletion _ u =>
                            str_eqb u (usage_request Samples.prose1)
                        | Embeddings _ => false
                        end) t
       = [ChatCompletion usage_system_prompt (usage_request Samples.prose1);
          ChatCompletion usage_system_prompt (usage_request Samples.prose1)].
Proof.
  eexists. eexists. eexists.
  split; [vm_compute; reflexivity|].
  split; vm_compute; reflexivity.
Qed.


(** ** Section and subsection labels of the chunks *)

Section Labels.

Variable C : collaborators.
Variable did : str.

Local Abbreviation state := (seg_state (vec C)).

Lemma flag_after_snoc (hist : list str) (line : str) :
  flag_after (hist ++ [line]) = flag_step (flag_after hist) line.
Proof. unfold flag_after. rewrite fold_left_app. reflexivity. Qed.

Lemma no_section_in_nil (pre : list str) : no_section_in pre [].
Proof. intros p1 l p2 H. destruct p1; discriminate. Qed.

Lemma no_section_in_snoc (pre post : list str) (line : str) :
  no_section_in pre post ->
  ~ headed_as KSection (pre ++ post) line ->
  no_section_in pre (post ++ [line]).
Proof.
  intros Hn Hl p1 l p2 E.
  destruct (exists_last (l := l :: p2)) as [q [z Eq]]; [discriminate|].
  rewrite Eq in E.
  destruct q as [|l' q].
  - simpl in Eq. inversion Eq; subst.
    apply app_inj_tail in E. destruct E as [-> ->]. exact Hl.
  - simpl in Eq. inversion Eq; subst.
    change (post ++ [line] = p1 ++ (l' :: q) ++ [z]) in E.
    rewrite app_assoc in E. apply app_inj_tail in E. destruct E as [-> ->].
    apply (Hn p1 l' q). reflexivity.
Qed.

Lemma section_justified_snoc (hist : list str) (sec : option str)
  (line : str) :
  section_justified hist sec ->
  ~ headed_as KSection hist line ->
  section_justified (hist ++ [line]) sec.
Proof.
  intros [[Hs Hn]|[pre [l [post [Eh [Hs [Hk Hn]]]]]]] Hl.
  - left. split; [exact Hs|]. apply no_section_in_snoc; assumption.
  - right. exists pre, l, (post ++ [line]). subst hist.
    split; [rewrite <- app_assoc; reflexivity|].
    split; [exact Hs|]. split; [exact Hk|].
    apply no_section_in_snoc; [exact Hn|].
    rewrite <- app_assoc. exact Hl.
Qed.

Lemma subsection_justified_snoc (hist : list str) (sub : option str)
  (line : str) :
  subsection_justified hist sub ->
  ~ headed_as KSection hist line ->
  subsection_justified (hist ++ [line]) sub.
Proof.
  destruct sub as [s|]; [|auto]. simpl.
  intros [pre [l [post [Eh [Hs [Hk [Hd Hn]]]]]]] Hl.
  exists pre, l, (post ++ [line]). subst hist.
  split; [rewrite <- app_assoc; reflexivity|].
  split; [exact Hs|]. split; [exact Hk|]. split; [exact Hd|].
  apply no_section_in_snoc; [exact Hn|].
  rewrite <- app_assoc. exact Hl.
Qed.

Lemma section_justified_some (hist : list str) (sec : option str) :
  section_justified hist sec -> sec <> None.
Proof.
  intros [[-> _]|[pre [l [post [_ [-> _]]]]]]; discriminate.
Qed.

Lemma chunk_justified_app (hist more : list str) (c : RAGChunk (vec C))
  (read : list str) :
  chunk_justified hist c read -> chunk_justified (hist ++ more) c read.
Proof.
  intros [Hs [[rest E] [H1 H2]]]. split; [exact Hs|].
  split; [|auto]. exists (rest ++ more). subst hist.
  rewrite app_assoc. reflexivity.
Qed.

(** A line of kind subsection is a numbered header with a dotted number. *)
Lemma classify_subsection (b : bool) (ls : str) :
  classify b ls = KSubsection ->
  exists number title,
    numbered_header ls = Some (number, title)
    /\ str_in (py ".") number = true.
Proof.
  unfold classify.
  destruct b.
  - destruct (_is_appendix_header ls); [|discriminate].
    destruct (numbered_header ls) as [[number title]|]; [|discriminate].
    destruct (str_in (py ".") number) eqn:E; [|discriminate].
    intros _. exists number, title. auto.
  - destruct (_is_standalone_references_header ls); [discriminate|].
    destruct (numbered_header ls) as [[number title]|]; [|discriminate].
    destruct (_is_references_or_bibliography title); [discriminate|].
    destruct (str_in (py ".") number) eqn:E; [|discriminate].
    intros _. exists number, title. auto.
Qed.

(** *** The traced run and the run of the program *)

Lemma foldM_erase {B : Type}
  (ft : traced (vec C) -> B -> M (exn C) (traced (vec C)))
  (f : state -> B -> M (exn C) state) :
  (forall s x t, erase (ft s x t) = f (seg s) x t) ->
  forall l s t, erase (foldM ft l s t) = foldM f l (seg s) t.
Proof.
  intros Hstep l. induction l as [|x l IH]; intros s t; [reflexivity|].
  cbn [foldM]. unfold bind. rewrite <- (Hstep s x t).
  destruct (ft s x t) as [e|[s1 t1]]; [reflexivity|]. apply IH.
Qed.

Lemma process_line_erase (s : traced (vec C)) (line : str) (t : trace) :
  erase (process_line_traced C did s line t) = process_line C did (seg s) line t.
Proof.
  unfold process_line_traced, bind.
  destruct (process_line C did (seg s) line t) as [e|[st' t']]; reflexivity.
Qed.

Lemma process_block_erase (s : traced (vec C)) (block : str) (t : trace) :
  erase (process_block_traced C did s block t)
  = process_block C did (seg s) block t.
Proof.
  unfold process_block_traced, process_block, bind.
  pose proof (foldM_erase (process_line_traced C did) (process_line C did)
                process_line_erase (split block [LF])
                (mkTraced (set_current_part [] (seg s)) (lines_read s)
                   (flushed_after s)) t) as E.
  cbn [seg] in E. rewrite <- E.
  destruct (foldM (process_line_traced C did) (split block [LF]) _ t)
    as [e|[s1 t1]]; reflexivity.
Qed.

(** The traced run returns what the run of the program returns. *)
Lemma process_blocks_erase (blocks : list str) (s : traced (vec C))
  (t : trace) :
  erase (process_blocks_traced C did blocks s t)
  = process_blocks C did blocks (seg s) t.
Proof.
  unfold process_blocks_traced, process_blocks, bind.
  rewrite <- (foldM_erase (process_block_traced C did) (process_block C did)
                process_block_erase blocks s t).
  destruct (foldM (process_block_traced C did) blocks s t) as [e|[s1 t1]];
    [reflexivity|].
  cbn [erase]. destruct (negb (in_references (seg s1))); [|reflexivity].
  destruct (flush C did (seg s1) t1) as [e|[st' t']]; reflexivity.
Qed.

Lemma process_blocks_traced_inr (blocks : list str) (s : traced (vec C))
  (t t' : trace) (st' : state) :
  process_blocks C did blocks (seg s) t = inr (st', t') ->
  exists s', process_blocks_traced C did blocks s t = inr (s', t')
             /\ seg s' = st'.
Proof.
  intros H. rewrite <- process_blocks_erase in H.
  destruct (process_blocks_traced C did blocks s t) as [e|[s' t1]];
    [discriminate|].
  injection H as <- <-. exists s'. split; reflexivity.
Qed.

(** *** The invariant *)

Lemma labels_inv_init : labels_inv (mkTraced (init_state C) [] []).
Proof.
  split; [reflexivity|]. split.
  - left. split; [reflexivity | apply no_section_in_nil].
  - split; [exact I | constructor].
Qed.

Lemma stamp_same (read : list str) (a a' b b' : state)
  (stamps : list (list str)) :
  chunks_out a' = chunks_out a -> chunks_out b' = chunks_out b ->
  stamp read a' b' stamps = stamp read a b stamps.
Proof. unfold stamp. intros -> ->. reflexivity. Qed.

Lemma stamp_none (read : list str) (a b : state) (stamps : list (list str)) :
  chunks_out b = chunks_out a -> stamp read a b stamps = stamps.
Proof.
  unfold stamp. intros ->. rewrite Nat.sub_diag. apply app_nil_r.
Qed.

(** A flush keeps the labels justified: the chunks it emits carry the
    labels of the state, which the lines read so far justify, and are
    stamped with these lines. *)
Lemma labels_ok_flush (hist : list str) (st st' : state)
  (stamps : list (list str)) (t t' : trace) :
  labels_ok hist st stamps ->
  flush C did st t = inr (st', t') ->
  labels_ok hist st' (stamp hist st st' stamps)
  /\ in_references st' = in_references st.
Proof.
  intros [Hs [Hb Hc]] H.
  apply flush_inr in H.
  destruct H as [Es [Eb [Er [_ [combined Ec]]]]].
  split; [|exact Er].
  unfold labels_ok, stamp. rewrite Es, Eb, Ec.
  split; [exact Hs|]. split; [exact Hb|].
  rewrite length_app, Nat.add_comm, Nat.add_sub.
  apply Forall2_app; [exact Hc|].
  unfold emitted. rewrite length_map.
  induction (filter _ (_chunk_section C combined)) as [|x l IH];
    [constructor|].
  cbn [map length repeat]. constructor; [|exact IH].
  split; cbn [section subsection].
  - eapply section_justified_some. exact Hs.
  - split; [exists []; rewrite app_nil_r; reflexivity|]. auto.
Qed.

Lemma chunks_justified_snoc (hist : list str) (line : str)
  (cs : list (RAGChunk (vec C))) (stamps : list (list str)) :
  Forall2 (chunk_justified hist) cs stamps ->
  Forall2 (chunk_justified (hist ++ [line])) cs stamps.
Proof.
  intros H. induction H as [|c r cs rs Hc _ IH]; constructor; [|exact IH].
  apply chunk_justified_app. exact Hc.
Qed.

(** Labels that stay as they were remain justified after a line that does
    not open a section. *)
Lemma labels_ok_keep (hist : list str) (line : str) (st st' : state)
  (stamps : list (list str)) :
  labels_ok hist st stamps ->
  ~ headed_as KSection hist line ->
  current_section st' = current_section st ->
  current_subsection st' = current_subsection st ->
  chunks_out st' = chunks_out st ->
  labels_ok (hist ++ [line]) st' stamps.
Proof.
  intros [Hs [Hb Hc]] Hn Es Eb Ec. unfold labels_ok. rewrite Es, Eb, Ec.
  split; [apply section_justified_snoc; assumption|].
  split; [apply subsection_justified_snoc; assumption|].
  apply chunks_justified_snoc. exact Hc.
Qed.

Lemma labels_ok_state (hist : list str) (st st' : state)
  (stamps : list (list str)) :
  labels_ok hist st stamps ->
  current_section st' = current_section st ->
  current_subsection st' = current_subsection st ->
  chunks_out st' = chunks_out st ->
  labels_ok hist st' stamps.
Proof.
  intros [Hs [Hb Hc]] Es Eb Ec. unfold labels_ok. rewrite Es, Eb, Ec. auto.
Qed.

Lemma labels_inv_line (s s' : traced (vec C)) (line : str) (t t' : trace) :
  labels_inv s ->
  process_line_traced C did s line t = inr (s', t') ->
  labels_inv s' /\ lines_read s' = lines_read s ++ [line].
Proof.
  intros [Hflag Hok] H. unfold process_line_traced in H.
  apply bind_inr in H. destruct H as [st' [t1 [H E]]].
  injection E as <- <-. cbn [lines_read]. split; [|reflexivity].
  destruct s as [st hist stamps]. cbn [seg lines_read flushed_after] in *.
  rewrite process_line_classify in H.
  assert (Hk : headed_as (classify (in_references st) (strip line)) hist line).
  { unfold headed_as. rewrite Hflag. reflexivity. }
  unfold labels_inv. cbn [seg lines_read flushed_after].
  rewrite flag_after_snoc. unfold flag_step.
  rewrite <- Hflag.
  destruct (classify (in_references st) (strip line)) eqn:Ek.
  - (* references *)
    apply bind_inr in H. destruct H as [s1 [t2 [Hf H]]].
    injection H as <- <-.
    apply (labels_ok_flush hist _ _ stamps) in Hf.
    2: { apply (labels_ok_state hist st); [exact Hok | | |];
         apply commit_part_labels. }
    destruct Hf as [Hok1 _].
    split; [reflexivity|].
    rewrite (stamp_same hist (commit_part st) st s1
               (set_in_references true s1))
      by (try reflexivity; symmetry; apply commit_part_labels).
    apply (labels_ok_keep hist line s1); auto.
    unfold headed_as in *. congruence.
  - (* section *)
    apply bind_inr in H. destruct H as [s1 [t2 [Hf H]]].
    injection H as <- <-.
    apply (labels_ok_flush hist _ _ stamps) in Hf.
    2: { apply (labels_ok_state hist st); [exact Hok | | |];
         apply (commit_part_labels C (set_in_references false st)). }
    destruct Hf as [[Hs [Hb Hc]] Er].
    split.
    + cbn [in_references set_current_part set_section set_subsection].
      rewrite Er.
      destruct (commit_part_labels C (set_in_references false st))
        as [_ [_ [-> _]]]. reflexivity.
    + unfold labels_ok. cbn [current_section current_subsection chunks_out
                               set_current_part set_section].
      split; [|split; [exact I|]].
      * right. exists hist, line, [].
        split; [reflexivity|]. split; [reflexivity|].
        split; [exact Hk | apply no_section_in_nil].
      * apply chunks_justified_snoc.
        rewrite (stamp_same hist (commit_part (set_in_references false st))
                   st s1 (set_current_part [] (set_section (strip line) s1)))
          by (try reflexivity; symmetry;
              apply (commit_part_labels C (set_in_references false st))).
        exact Hc.
  - (* subsection *)
    apply bind_inr in H. destruct H as [s1 [t2 [Hf H]]].
    injection H as <- <-.
    apply (labels_ok_flush hist _ _ stamps) in Hf.
    2: { apply (labels_ok_state hist st); [exact Hok | | |];
         apply (commit_part_labels C (set_in_references false st)). }
    destruct Hf as [[Hs [Hb Hc]] Er].
    assert (Hns : ~ headed_as KSection hist line)
      by (unfold headed_as in *; congruence).
    split.
    + cbn [in_references set_current_part set_section set_subsection].
      rewrite Er.
      destruct (commit_part_labels C (set_in_references false st))
        as [_ [_ [-> _]]]. reflexivity.
    + unfold labels_ok. cbn [current_section current_subsection chunks_out
                               set_current_part set_subsection].
      split; [apply section_justified_snoc; assumption|].
      split.
      * exists hist, line, [].
        split; [reflexivity|]. split; [reflexivity|].
        split; [exact Hk|].
        split; [eapply classify_subsection; exact Ek
               | apply no_section_in_nil].
      * apply chunks_justified_snoc.
        rewrite (stamp_same hist (commit_part (set_in_references false st))
                   st s1 (set_current_part [] (set_subsection (strip line) s1)))
          by (try reflexivity; symmetry;
              apply (commit_part_labels C (set_in_references false st))).
        exact Hc.
  - (* plain *)
    injection H as <- <-. split; [reflexivity|].
    rewrite stamp_none by reflexivity.
    apply (labels_ok_keep hist line st); auto.
    unfold headed_as in *. congruence.
  - (* discarded *)
    injection H as <- <-. split; [reflexivity|].
    rewrite stamp_none by reflexivity.
    apply (labels_ok_keep hist line st); auto.
    unfold headed_as in *. congruence.
Qed.

Lemma labels_inv_block (s s' : traced (vec C)) (block : str) (t t' : trace) :
  labels_inv s ->
  process_block_traced C did s block t = inr (s', t') ->
  labels_inv s' /\ lines_read s' = lines_read s ++ split block [LF].
Proof.
  intros Hinv H. unfold process_block_traced in H.
  apply bind_inr in H. destruct H as [s1 [t1 [Hl H]]].
  assert (H1 : labels_inv s1 /\ lines_read s1 = lines_read s ++ split block [LF]).
  { refine (foldM_inv C (process_line_traced C did)
              (fun h x _ => labels_inv x /\ lines_read x = lines_read s ++ h)
              _ (split block [LF]) []
              (mkTraced (set_current_part [] (seg s)) (lines_read s)
                 (flushed_after s)) t s1 t1 _ Hl).
    - intros h a x ta a' ta' [Ha Ea] Hx.
      destruct (labels_inv_line a a' x ta ta' Ha Hx) as [Ha' Ea'].
      split; [exact Ha'|]. rewrite Ea', Ea, app_assoc. reflexivity.
    - split; [|cbn; rewrite app_nil_r; reflexivity].
      destruct Hinv as [Hf Hok]. split; [exact Hf|exact Hok]. }
  injection H as <- <-. cbn [lines_read]. split; [|apply H1].
  destruct H1 as [[Hf Hok] _].
  destruct (negb (in_references (seg s1))).
  - split; cbn [seg lines_read flushed_after].
    + destruct (commit_part_labels C (seg s1)) as [_ [_ [-> _]]]. exact Hf.
    + apply (labels_ok_state _ (seg s1)); [exact Hok | | |];
        apply commit_part_labels.
  - split; [exact Hf | exact Hok].
Qed.

Lemma labels_inv_blocks (blocks : list str) (s : traced (vec C))
  (t t' : trace) :
  process_blocks_traced C did blocks (mkTraced (init_state C) [] []) t
  = inr (s, t') ->
  lines_read s = concat (map (fun block => split block [LF]) blocks)
  /\ labels_ok (lines_read s) (seg s) (flushed_after s).
Proof.
  intros H. unfold process_blocks_traced in H.
  apply bind_inr in H. destruct H as [s1 [t1 [Hb H]]].
  assert (H1 : labels_inv s1
               /\ lines_read s1
                  = concat (map (fun block => split block [LF]) blocks)).
  { refine (foldM_inv C (process_block_traced C did)
              (fun h x _ =>
                 labels_inv x
                 /\ lines_read x
                    = concat (map (fun block => split block [LF]) h))
              _ blocks [] (mkTraced (init_state C) [] []) t s1 t1 _ Hb).
    - intros h a x ta a' ta' [Ha Ea] Hx.
      destruct (labels_inv_block a a' x ta ta' Ha Hx) as [Ha' Ea'].
      split; [exact Ha'|].
      rewrite Ea', Ea, map_app, concat_app. cbn [map concat].
      rewrite app_nil_r. reflexivity.
    - split; [apply labels_inv_init | reflexivity]. }
  destruct H1 as [[_ Hok] Er].
  destruct (negb (in_references (seg s1))).
  - apply bind_inr in H. destruct H as [st' [t2 [Hf H]]].
    injection H as <- <-. cbn [seg lines_read flushed_after].
    split; [exact Er|].
    eapply labels_ok_flush; eassumption.
  - injection H as <- <-. split; [exact Er | exact Hok].
Qed.

(** A step appends chunks to those emitted before, which it leaves as they
    are, and stamps each chunk that it appends with the lines read before
    the step. *)
Lemma process_line_appends (s s' : traced (vec C)) (line : str)
  (t t' : trace) :
  process_line_traced C did s line t = inr (s', t') ->
  exists new,
    chunks_out (seg s') = chunks_out (seg s) ++ new
    /\ flushed_after s'
       = flushed_after s ++ repeat (lines_read s) (length new).
Proof.
  intros H. unfold process_line_traced in H.
  apply bind_inr in H. destruct H as [st' [t1 [H E]]].
  injection E as <- <-. cbn [seg flushed_after].
  assert (Hnew : exists new, chunks_out st' = chunks_out (seg s) ++ new).
  { rewrite process_line_classify in H.
    destruct (classify (in_references (seg s)) (strip line)).
    - apply bind_inr in H. destruct H as [s1 [t2 [Hf H]]].
      injection H as <- <-. apply flush_inr in Hf.
      destruct Hf as [_ [_ [_ [_ [combined Hc]]]]].
      destruct (commit_part_labels C (seg s)) as [_ [_ [_ [E _]]]].
      rewrite E in Hc. eexists. exact Hc.
    - apply bind_inr in H. destruct H as [s1 [t2 [Hf H]]].
      injection H as <- <-. apply flush_inr in Hf.
      destruct Hf as [_ [_ [_ [_ [combined Hc]]]]].
      destruct (commit_part_labels C (set_in_references false (seg s)))
        as [_ [_ [_ [E _]]]].
      rewrite E in Hc. eexists. exact Hc.
    - apply bind_inr in H. destruct H as [s1 [t2 [Hf H]]].
      injection H as <- <-. apply flush_inr in Hf.
      destruct Hf as [_ [_ [_ [_ [combined Hc]]]]].
      destruct (commit_part_labels C (set_in_references false (seg s)))
        as [_ [_ [_ [E _]]]].
      rewrite E in Hc. eexists. exact Hc.
    - injection H as <- <-. exists []. rewrite app_nil_r. reflexivity.
    - injection H as <- <-. exists []. rewrite app_nil_r. reflexivity. }
  destruct Hnew as [new Hn]. exists new. split; [exact Hn|].
  unfold stamp. rewrite Hn, length_app, Nat.add_comm, Nat.add_sub.
  reflexivity.
Qed.

(** C6. Every chunk of a processed document has a section label and is
    justified by the lines read before its own flush: run with the lines
    read so far and the lines read before the flush of each chunk as two more
    variables, the loop returns what the program returns; each line read is
    added to the lines read, the chunks emitted before it stay as they are
    and those that it makes the loop emit are stamped with the lines read
    before it; and for each chunk the lines read before its flush are a
    prefix of the lines of the document; its section label is the sentinel Abstract when no line among
    them opened a section, and otherwise the most recent line among them
    that opened a section; its subsection label is absent unless a numbered
    header with a dotted number stands among them after that line. With
    collaborators that answer, every document that has a page is processed
    to the end and yields such chunks. A line that opens a section clears
    the subsection. *)
Theorem chunk_labels_justified :
  (forall (blocks : list str) (s : traced (vec C)) (t : trace),
      erase (process_blocks_traced C did blocks s t)
      = process_blocks C did blocks (seg s) t)
  /\ (forall (s s' : traced (vec C)) (line : str) (t t' : trace),
        process_line_traced C did s line t = inr (s', t') ->
        lines_read s' = lines_read s ++ [line]
        /\ exists new,
             chunks_out (seg s') = chunks_out (seg s) ++ new
             /\ flushed_after s'
                = flushed_after s ++ repeat (lines_read s) (length new))
  /\ (forall (ttl : str) (pages : list str) (t t' : trace)
             (d : Document (vec C)) (cs : list (RAGChunk (vec C))),
        process_document C did ttl pages t = inr ((d, cs), t') ->
        exists s t1,
          process_blocks_traced C did (blocks_of pages)
            (mkTraced (init_state C) [] []) t = inr (s, t1)
          /\ chunks_out (seg s) = cs
          /\ lines_read s = doc_lines pages
          /\ Forall2 (chunk_justified (doc_lines pages)) cs (flushed_after s))
  /\ (forall (ttl : str) (pages : list str) (t : trace),
        reliable C -> pages <> [] ->
        exists d cs t' s t1,
          process_document C did ttl pages t = inr ((d, cs), t')
          /\ process_blocks_traced C did (blocks_of pages)
               (mkTraced (init_state C) [] []) t = inr (s, t1)
          /\ chunks_out (seg s) = cs
          /\ Forall2 (chunk_justified (doc_lines pages)) cs (flushed_after s))
  /\ current_section (init_state C) = Some (py "Abstract")
  /\ current_subsection (init_state C) = None
  /\ (forall (st st' : state) (line : str) (t t' : trace),
        classify (in_references st) (strip line) = KSection ->
        process_line C did st line t = inr (st', t') ->
        current_section st' = Some (strip line)
        /\ current_subsection st' = None).
Proof.
  assert (Hmain : forall (ttl : str) (pages : list str) (t t' : trace)
                         (d : Document (vec C)) (cs : list (RAGChunk (vec C))),
             process_document C did ttl pages t = inr ((d, cs), t') ->
             exists s t1,
               process_blocks_traced C did (blocks_of pages)
                 (mkTraced (init_state C) [] []) t = inr (s, t1)
               /\ chunks_out (seg s) = cs
               /\ lines_read s = doc_lines pages
               /\ Forall2 (chunk_justified (doc_lines pages)) cs
                    (flushed_after s)).
  { intros ttl pages t t' d cs H. unfold process_document in H.
    destruct pages as [|p0 rest]; [discriminate|].
    apply bind_inr in H. destruct H as [st [t1 [Hb H]]].
    apply bind_inr in H. destruct H as [sm [t2 [_ H]]].
    apply bind_inr in H. destruct H as [em [t3 [_ H]]].
    injection H as _ <-.
    destruct (process_blocks_traced_inr (blocks_of (p0 :: rest))
                (mkTraced (init_state C) [] []) t t1 st Hb) as [s [Hs Es]].
    exists s, t1. split; [exact Hs|]. split; [rewrite Es; reflexivity|].
    apply labels_inv_blocks in Hs. destruct Hs as [Er [_ [_ Hc]]].
    split; [exact Er|].
    unfold doc_lines. rewrite <- Er, <- Es. exact Hc. }
  split; [exact process_blocks_erase|].
  split.
  { intros s s' line t t' H. split; [|eapply process_line_appends; exact H].
    unfold process_line_traced in H.
    apply bind_inr in H. destruct H as [st1 [t1 [_ H]]].
    injection H as <- <-. reflexivity. }
  split; [exact Hmain|].
  split; [|split; [reflexivity|split; [reflexivity|]]].
  - intros ttl pages t HC Hp.
    destruct (process_document_total C did ttl pages t HC Hp)
      as [d [cs [t' H]]].
    destruct (Hmain ttl pages t t' d cs H) as [s [t1 [Hs [Es [_ Hc]]]]].
    exists d, cs, t', s, t1. auto.
  - intros st st' line t t' Hk H. rewrite process_line_classify, Hk in H.
    apply bind_inr in H. destruct H as [s1 [t1 [_ H]]].
    inversion H; subst. simpl. auto.
Qed.

End Labels.

(** ** The matcher finds a match exactly when one exists *)

Section Matcher.

Lemma lang_star_nil (g : bool) (r : regex) (s' : str) :
  lang (Star g r) [] s' -> s' = [].
Proof.
  intros H. inversion H; subst; [reflexivity|].
  simpl in *. lia.
Qed.

(** For a continuation that succeeds exactly on the remainders in [K]. *)
Lemma star_iter_lang (r : regex) (g : bool)
  (IH : forall (k : cont) (K : str -> Prop),
      (forall s c, k s c <> None <-> K s) ->
      forall s c, exec r k s c <> None <-> exists s', lang r s s' /\ K s')
  (k : cont) (K : str -> Prop) :
  (forall s c, k s c <> None <-> K s) ->
  forall fuel s c,
    length s <= fuel ->
    (star_iter (exec r) g k fuel s c <> None
     <-> exists s', lang (Star g r) s s' /\ K s').
Proof.
  intros HK fuel. induction fuel as [|fuel IHf]; intros s c Hlen.
  - assert (s = []) by (destruct s; [reflexivity | simpl in Hlen; lia]).
    subst s. simpl.
    assert (E : (if g
                 then k [] c
                 else match k [] c with Some c' => Some c' | None => None end)
                <> None <-> K []).
    { rewrite <- (HK [] c). destruct g; [tauto|].
      destruct (k [] c); split; congruence. }
    rewrite E. split.
    + intros H. exists []. split; [constructor | exact H].
    + intros [s' [Hl Hs']]. apply lang_star_nil in Hl. subst. exact Hs'.
  - simpl.
    set (k1 := fun (s' : str) (c' : captures) =>
                 if length s' <? length s
                 then star_iter (exec r) g k fuel s' c'
                 else None).
    assert (Hk1 : forall s1 c1,
               k1 s1 c1 <> None
               <-> (length s1 < length s
                    /\ exists s', lang (Star g r) s1 s' /\ K s')).
    { intros s1 c1. unfold k1.
      destruct (length s1 <? length s) eqn:E.
      - apply Nat.ltb_lt in E. rewrite IHf by lia. tauto.
      - apply Nat.ltb_ge in E. split; [congruence | intros [H _]; lia]. }
    pose proof (IH k1 _ Hk1 s c) as Hm.
    assert (E : (if g
                 then match exec r k1 s c with
                      | Some c' => Some c'
                      | None => k s c
                      end
                 else match k s c with
                      | Some c' => Some c'
                      | None => exec r k1 s c
                      end) <> None
                <-> (exec r k1 s c <> None \/ k s c <> None)).
    { destruct g; destruct (exec r k1 s c); destruct (k s c);
        split; intros H; try congruence; try (left; congruence);
        try (right; congruence); destruct H; congruence. }
    rewrite E, Hm, HK. split.
    + intros [[s1 [Hl [Hlt [s' [Hs Hs']]]]]|H].
      * exists s'. split; [|exact Hs'].
        eapply lang_star_more; eassumption.
      * exists s. split; [constructor | exact H].
    + intros [s' [Hl Hs']]. inversion Hl; subst.
      * right. exact Hs'.
      * left. exists s1. split; [assumption|]. split; [assumption|].
        exists s'. split; assumption.
Qed.

Theorem exec_lang (r : regex) :
  forall (k : cont) (K : str -> Prop),
    (forall s c, k s c <> None <-> K s) ->
    forall s c, exec r k s c <> None <-> exists s', lang r s s' /\ K s'.
Proof.
  induction r as [|p|r1 IH1 r2 IH2|r1 IH1 r2 IH2|g r IH|i r IH|];
    intros k K HK s c; simpl.
  - rewrite HK. split.
    + intros H. exists s. split; [constructor | exact H].
    + intros [s' [Hl H]]. inversion Hl; subst. exact H.
  - destruct s as [|a s].
    + split; [congruence | intros [s' [Hl _]]; inversion Hl].
    + destruct (p a) eqn:E.
      * rewrite HK. split.
        -- intros H. exists s. split; [constructor; exact E | exact H].
        -- intros [s' [Hl H]]. inversion Hl; subst. exact H.
      * split; [congruence|].
        intros [s' [Hl _]]. inversion Hl; subst. congruence.
  - rewrite (IH1 (exec r2 k) (fun s1 => exists s', lang r2 s1 s' /\ K s')).
    + split.
      * intros [s1 [H1 [s2 [H2 H]]]]. exists s2. split; [|exact H].
        econstructor; eassumption.
      * intros [s2 [Hl H]]. inversion Hl; subst.
        exists s1. split; [assumption|]. exists s2. split; assumption.
    + intros s1 c1. apply IH2. exact HK.
  - assert (E : match exec r1 k s c with
                | Some c' => Some c'
                | None => exec r2 k s c
                end <> None
                <-> (exec r1 k s c <> None \/ exec r2 k s c <> None)).
    { destruct (exec r1 k s c); destruct (exec r2 k s c); split; intros H;
        try congruence; try (left; congruence); try (right; congruence);
        destruct H; congruence. }
    rewrite E, (IH1 k K HK), (IH2 k K HK). split.
    + intros [[s' [Hl H]]|[s' [Hl H]]]; exists s'; split; auto.
      * apply lang_alt_l; exact Hl.
      * apply lang_alt_r; exact Hl.
    + intros [s' [Hl H]]. inversion Hl; subst; [left | right];
        exists s'; split; assumption.
  - apply star_iter_lang; [exact IH | exact HK | lia].
  - rewrite (IH _ K).
    + split; intros [s' [Hl H]]; exists s'; split; auto.
      * constructor; exact Hl.
      * inversion Hl; subst; assumption.
    + intros s1 c1. apply HK.
  - destruct s as [|a [|b s]].
    + rewrite HK. split.
      * intros H. exists []. split; [constructor | exact H].
      * intros [s' [Hl H]]. inversion Hl; subst. exact H.
    + destruct (Ascii.eqb a LF) eqn:E.
      * apply Ascii.eqb_eq in E. subst a. rewrite HK. split.
        -- intros H. exists [LF]. split; [constructor | exact H].
        -- intros [s' [Hl H]]. inversion Hl; subst. exact H.
      * split; [congruence|]. intros [s' [Hl _]]. inversion Hl; subst.
        rewrite Ascii.eqb_refl in E. discriminate.
    + split; [congruence|]. intros [s' [Hl _]]. inversion Hl.
Qed.

(** [re.match] succeeds exactly when the pattern matches a prefix. *)
Corollary matches_lang (r : regex) (s : str) :
  matches r s = true <-> exists s', lang r s s'.
Proof.
  unfold matches, re_match.
  assert (HK : forall (s1 : str) (c1 : captures),
             (fun (_ : str) (c : captures) => Some c) s1 c1 <> None <-> True).
  { intros s1 c1. split; [trivial | discriminate]. }
  pose proof (exec_lang r _ _ HK s []) as H.
  destruct (exec r (fun _ c => Some c) s []) as [c|].
  - split; [|reflexivity]. intros _.
    destruct H as [H _]. destruct H as [s' [Hl _]]; [discriminate|].
    exists s'. exact Hl.
  - split; [discriminate|]. intros [s' Hl].
    destruct H as [_ H]. exfalso. apply H; [|reflexivity].
    exists s'. split; [exact Hl | exact I].
Qed.

End Matcher.

(** ** Matches of the patterns of the program *)

Section Patterns.

Lemma lang_seq_iff (r1 r2 : regex) (s s2 : str) :
  lang (Seq r1 r2) s s2 <-> exists s1, lang r1 s s1 /\ lang r2 s1 s2.
Proof.
  split.
  - intros H. inversion H; subst. eauto.
  - intros [s1 [H1 H2]]. econstructor; eassumption.
Qed.

Lemma lang_alt_iff (r1 r2 : regex) (s s1 : str) :
  lang (Alt r1 r2) s s1 <-> lang r1 s s1 \/ lang r2 s s1.
Proof.
  split.
  - intros H. inversion H; subst; auto.
  - intros [H|H]; [apply lang_alt_l | apply lang_alt_r]; exact H.
Qed.

Lemma lang_group_iff (i : nat) (r : regex) (s s1 : str) :
  lang (Group i r) s s1 <-> lang r s s1.
Proof.
  split; [intros H; inversion H; subst; assumption | apply lang_group].
Qed.

Lemma lang_cls_iff (p : ascii -> bool) (s s1 : str) :
  lang (Cls p) s s1 <-> exists a, p a = true /\ s = a :: s1.
Proof.
  split.
  - intros H. inversion H; subst. eauto.
  - intros [a [Ha ->]]. constructor. exact Ha.
Qed.

Lemma lang_eps_iff (s s1 : str) : lang Eps s s1 <-> s = s1.
Proof.
  split; [intros H; inversion H; reflexivity | intros ->; constructor].
Qed.

Lemma lang_eol_iff (s s1 : str) :
  lang Eol s s1 <-> s = s1 /\ (s = [] \/ s = [LF]).
Proof.
  split.
  - intros H. inversion H; subst; auto.
  - intros [<- [->| ->]]; constructor.
Qed.

Lemma recognizes_cls (p : ascii -> bool) :
  recognizes (Cls p) (fun w => exists a, p a = true /\ w = [a]).
Proof.
  intros s s1. rewrite lang_cls_iff. split.
  - intros [a [Ha ->]]. exists [a]. split; [eauto | reflexivity].
  - intros [w [[a [Ha ->]] ->]]. exists a. auto.
Qed.

Lemma recognizes_seq (r1 r2 : regex) (W1 W2 : str -> Prop) :
  recognizes r1 W1 -> recognizes r2 W2 ->
  recognizes (Seq r1 r2)
    (fun w => exists w1 w2, W1 w1 /\ W2 w2 /\ w = w1 ++ w2).
Proof.
  intros H1 H2 s s2. rewrite lang_seq_iff. split.
  - intros [s1 [Ha Hb]]. apply H1 in Ha. apply H2 in Hb.
    destruct Ha as [w1 [Hw1 ->]]. destruct Hb as [w2 [Hw2 ->]].
    exists (w1 ++ w2). split; [|rewrite app_assoc; reflexivity].
    exists w1, w2. auto.
  - intros [w [[w1 [w2 [Hw1 [Hw2 ->]]]] ->]].
    exists (w2 ++ s2). split.
    + apply H1. exists w1. split; [exact Hw1|]. rewrite app_assoc. reflexivity.
    + apply H2. exists w2. auto.
Qed.

Lemma recognizes_alt (r1 r2 : regex) (W1 W2 : str -> Prop) :
  recognizes r1 W1 -> recognizes r2 W2 ->
  recognizes (Alt r1 r2) (fun w => W1 w \/ W2 w).
Proof.
  intros H1 H2 s s1. rewrite lang_alt_iff, (H1 s s1), (H2 s s1). split.
  - intros [[w [Hw E]]|[w [Hw E]]]; exists w; auto.
  - intros [w [[Hw|Hw] E]]; [left | right]; exists w; auto.
Qed.

Lemma recognizes_group (i : nat) (r : regex) (W : str -> Prop) :
  recognizes r W -> recognizes (Group i r) W.
Proof. intros H s s1. rewrite lang_group_iff. apply H. Qed.

Lemma recognizes_star (g : bool) (r : regex) (W : str -> Prop) :
  recognizes r W ->
  recognizes (Star g r)
    (fun w => exists ws,
         Forall (fun x => W x /\ x <> []) ws /\ w = concat ws).
Proof.
  intros H s s2. split.
  - intros Hl. remember (Star g r) as r0 eqn:Er.
    induction Hl; try discriminate.
    + exists []. split; [|reflexivity]. exists []. split; [constructor|reflexivity].
    + inversion Er; subst g0 r0. clear IHHl1.
      specialize (IHHl2 eq_refl).
      destruct IHHl2 as [w2 [[ws [Hws ->]] ->]].
      apply H in Hl1. destruct Hl1 as [w [Hw ->]].
      exists (w ++ concat ws). split; [|rewrite app_assoc; reflexivity].
      exists (w :: ws). split; [|reflexivity].
      constructor; [|exact Hws]. split; [exact Hw|].
      intros ->. simpl in *. lia.
  - intros [w [[ws [Hws ->]] ->]].
    induction Hws as [|x ws [Hx Hne] Hws IH]; simpl.
    + constructor.
    + rewrite <- app_assoc.
      apply lang_star_more with (s1 := concat ws ++ s2).
      * apply H. exists x. auto.
      * rewrite !length_app. destruct x; [congruence|]. simpl. lia.
      * exact IH.
Qed.

(** One or more characters of a class. *)
Lemma recognizes_plus_cls (p : ascii -> bool) :
  recognizes (plus (Cls p))
    (fun w => w <> [] /\ Forall (fun c => p c = true) w).
Proof.
  intros s s1. unfold plus.
  rewrite (recognizes_seq _ _ _ _ (recognizes_cls p)
             (recognizes_star true _ _ (recognizes_cls p)) s s1).
  split.
  - intros [w [[w1 [w2 [[a [Ha ->]] [[ws [Hws ->]] ->]]]] ->]].
    exists ([a] ++ concat ws). split; [|reflexivity].
    split; [discriminate|]. constructor; [exact Ha|].
    clear - Hws. induction Hws as [|x ws [[b [Hb ->]] _] _ IH]; simpl;
      [constructor | constructor; assumption].
  - intros [w [[Hne Hall] ->]].
    destruct w as [|a w]; [congruence|].
    inversion Hall; subst.
    exists (a :: w). split; [|reflexivity].
    exists [a], w. split; [eauto|]. split; [|reflexivity].
    exists (map (fun c => [c]) w). split.
    + clear - H2. induction H2 as [|c w Hc _ IH]; simpl; constructor; auto.
      split; [eauto | discriminate].
    + clear. induction w as [|c w IH]; simpl; [reflexivity|].
      rewrite <- IH. reflexivity.
Qed.

(** Zero or more characters of a class. *)
Lemma recognizes_star_cls (g : bool) (p : ascii -> bool) :
  recognizes (Star g (Cls p)) (Forall (fun c => p c = true)).
Proof.
  intros s s1.
  rewrite (recognizes_star g _ _ (recognizes_cls p) s s1).
  split.
  - intros [w [[ws [Hws ->]] ->]]. exists (concat ws). split; [|reflexivity].
    clear - Hws. induction Hws as [|x ws [[b [Hb ->]] _] _ IH]; simpl;
      [constructor | constructor; assumption].
  - intros [w [Hall ->]]. exists w. split; [|reflexivity].
    exists (map (fun c => [c]) w). split.
    + clear - Hall. induction Hall as [|c w Hc _ IH]; simpl; constructor; auto.
      split; [eauto | discriminate].
    + clear. induction w as [|c w IH]; simpl; [reflexivity|].
      rewrite <- IH. reflexivity.
Qed.

Lemma recognizes_lit (x : str) : recognizes (lit x) (fun w => w = x).
Proof.
  induction x as [|a x IH]; intros s s1; simpl.
  - rewrite lang_eps_iff. split.
    + intros ->. exists []. auto.
    + intros [w [-> ->]]. reflexivity.
  - unfold chr_.
    rewrite (recognizes_seq _ _ _ _ (recognizes_cls _) IH s s1). split.
    + intros [w [[w1 [w2 [[b [Hb ->]] [-> ->]]]] ->]].
      apply Ascii.eqb_eq in Hb. subst b. exists (a :: x). auto.
    + intros [w [-> ->]]. exists (a :: x). split; [|reflexivity].
      exists [a], x. split; [|auto].
      exists a. split; [apply Ascii.eqb_refl | reflexivity].
Qed.

Lemma recognizes_lit_i (x : str) :
  recognizes (lit_i x) (fun w => lower w = x).
Proof.
  induction x as [|a x IH]; intros s s1; simpl.
  - rewrite lang_eps_iff. split.
    + intros ->. exists []. auto.
    + intros [w [Hw ->]]. destruct w; [reflexivity | discriminate].
  - rewrite (recognizes_seq _ _ _ _ (recognizes_cls _) IH s s1). split.
    + intros [w [[w1 [w2 [[b [Hb ->]] [Hw2 ->]]]] ->]].
      apply Ascii.eqb_eq in Hb. exists (b :: w2). split; [|reflexivity].
      unfold lower in *. simpl. rewrite Hb, Hw2. reflexivity.
    + intros [w [Hw ->]]. destruct w as [|b w]; [discriminate|].
      unfold lower in *. simpl in Hw. inversion Hw; subst.
      exists (b :: w). split; [|reflexivity].
      exists [b], w. split; [|auto].
      exists b. split; [apply Ascii.eqb_refl | reflexivity].
Qed.

End Patterns.

(** ** Standalone references headers *)

Section ReferencesHeader.

Lemma recognizes_dotted_tail :
  recognizes (Star true (Group 1 (Seq (chr_ ".") (plus digit))))
    (fun w => exists ds,
         Forall digits1 ds /\ w = concat (map (fun x => py "." ++ x) ds)).
Proof.
  intros s s1.
  rewrite (recognizes_star true _ _
             (recognizes_group 1 _ _
                (recognizes_seq _ _ _ _ (recognizes_cls (Ascii.eqb "."))
                   (recognizes_plus_cls isdecimal))) s s1).
  split.
  - intros [w [[ws [Hws ->]] ->]]. exists (concat ws). split; [|reflexivity].
    clear - Hws. induction Hws as [|x ws [Hx _] _ IH].
    + exists []. split; [constructor | reflexivity].
    + destruct IH as [ds [Hds E]].
      destruct Hx as [w1 [w2 [[a [Ha ->]] [[Hne Hd] ->]]]].
      apply Ascii.eqb_eq in Ha. subst a.
      exists (w2 :: ds). split; [constructor; [split|]; assumption|].
      simpl. rewrite E. reflexivity.
  - intros [w [[ds [Hds ->]] ->]].
    exists (concat (map (fun x => py "." ++ x) ds)). split; [|reflexivity].
    exists (map (fun x => py "." ++ x) ds). split; [|reflexivity].
    clear - Hds. induction Hds as [|d ds [Hne Hd] _ IH]; simpl; constructor;
      [|exact IH].
    split; [|discriminate].
    exists ["."%char], d. split; [|split; [split; assumption | reflexivity]].
    exists "."%char. split; reflexivity.
Qed.

Lemma lang_space_or_end (rest : str) :
  (exists s1, lang (Group 3 (Alt ws Eol)) rest s1)
  <-> (rest = [] \/ exists a r, rest = a :: r /\ isspace a = true).
Proof.
  split.
  - intros [s1 H]. rewrite lang_group_iff, lang_alt_iff in H.
    destruct H as [H|H].
    + unfold ws in H. apply lang_cls_iff in H. destruct H as [a [Ha ->]].
      right. exists a, s1. auto.
    + apply lang_eol_iff in H. destruct H as [_ [->| ->]]; [left; reflexivity|].
      right. exists LF, []. split; reflexivity.
  - intros [->|[a [r [-> Ha]]]].
    + exists []. apply lang_group, lang_alt_r. constructor.
    + exists r. apply lang_group, lang_alt_l. constructor. exact Ha.
Qed.

(** The numbered pattern matches exactly the texts that start with a dotted
    number, spaces and one of the two keywords followed by a space or by the
    end. *)
Lemma numbered_references_iff (t : str) :
  matches numbered_references t = true <-> numbered_references_spec t.
Proof.
  rewrite matches_lang. unfold numbered_references, numbered_references_spec.
  split.
  - intros [s5 H].
    apply lang_seq_iff in H. destruct H as [s1 [HA H]].
    apply lang_seq_iff in H. destruct H as [s2 [HB H]].
    apply lang_seq_iff in H. destruct H as [s3 [HC H]].
    apply lang_seq_iff in H. destruct H as [s4 [HD HE]].
    apply (recognizes_plus_cls isdecimal) in HA.
    destruct HA as [d [Hd ->]].
    apply recognizes_dotted_tail in HB. destruct HB as [w [[ds [Hds ->]] ->]].
    apply (recognizes_plus_cls isspace) in HC. destruct HC as [sp [[Hne Hsp] ->]].
    apply (recognizes_group 2 _ _
             (recognizes_alt _ _ _ _ (recognizes_lit (py "references"))
                (recognizes_lit (py "bibliography")))) in HD.
    destruct HD as [kw [Hkw ->]].
    exists (d ++ concat (map (fun x => py "." ++ x) ds)), sp, kw, s4.
    split; [rewrite <- !app_assoc; reflexivity|].
    split; [exists d, ds; auto|].
    split; [exact Hne|]. split; [exact Hsp|]. split; [exact Hkw|].
    apply lang_space_or_end. exists s5. exact HE.
  - intros [num [sp [kw [rest [-> [[d [ds [-> [Hd Hds]]]] [Hne [Hsp [Hkw Hr]]]]]]]]].
    apply lang_space_or_end in Hr. destruct Hr as [s5 HE].
    exists s5.
    apply lang_seq_iff.
    exists (concat (map (fun x => py "." ++ x) ds) ++ sp ++ kw ++ rest).
    split.
    { apply (recognizes_plus_cls isdecimal). exists d.
      split; [exact Hd | rewrite <- app_assoc; reflexivity]. }
    apply lang_seq_iff. exists (sp ++ kw ++ rest). split.
    { apply recognizes_dotted_tail. eexists. split; [|reflexivity].
      exists ds. auto. }
    apply lang_seq_iff. exists (kw ++ rest). split.
    { apply (recognizes_plus_cls isspace). exists sp. auto. }
    apply lang_seq_iff. exists rest. split; [|exact HE].
    apply (recognizes_group 2 _ _
             (recognizes_alt _ _ _ _ (recognizes_lit (py "references"))
                (recognizes_lit (py "bibliography")))).
    exists kw. auto.
Qed.

Lemma numbered_references_nonempty (t : str) :
  numbered_references_spec t -> t <> [].
Proof.
  intros [num [sp [kw [rest [-> [[d [ds [-> [[Hd _] _]]]] _]]]]]].
  destruct d; [congruence | discriminate].
Qed.

(** C5. A line is taken for a standalone references header exactly when,
    trimmed, it has at most 10 tokens and its lowercase form is references or
    bibliography, or starts with a dotted number, spaces and one of these
    words followed by a space or the end, or it has at most 4 tokens and its
    lowercase form starts with one of these words and a space. The title
    Learning to Retrieve References is not taken for one. *)
Theorem is_standalone_references_header_spec :
  (forall line : str,
      _is_standalone_references_header line = true
      <-> standalone_references_header_spec line)
  /\ _is_standalone_references_header (py "Learning to Retrieve References")
     = false.
Proof.
  split; [|vm_compute; reflexivity].
  intros line.
  unfold _is_standalone_references_header, standalone_references_header_spec.
  set (s := strip line). cbv zeta.
  destruct (is_empty s) eqn:Ee.
  - apply is_empty_true in Ee. cbn [orb]. rewrite Ee.
    split; [discriminate|].
    intros [_ [H|[H|[H|[_ [r [H|H]]]]]]]; try discriminate.
    apply numbered_references_nonempty in H. exfalso. apply H. reflexivity.
  - cbn [orb].
    destruct (10 <? length (split_ws s)) eqn:E10.
    + apply Nat.ltb_lt in E10. split; [discriminate|]. intros [H _]. lia.
    + apply Nat.ltb_ge in E10.
      destruct (str_eqb (lower s) (py "references")) eqn:E1.
      { apply str_eqb_eq in E1. cbn [orb]. split; auto. }
      destruct (str_eqb (lower s) (py "bibliography")) eqn:E2.
      { apply str_eqb_eq in E2. cbn [orb]. split; auto. }
      cbn [orb].
      assert (N1 : lower s <> py "references").
      { intros H. apply str_eqb_eq in H. congruence. }
      assert (N2 : lower s <> py "bibliography").
      { intros H. apply str_eqb_eq in H. congruence. }
      destruct (matches numbered_references (lower s)) eqn:E3.
      { apply numbered_references_iff in E3. split; auto. }
      assert (N3 : ~ numbered_references_spec (lower s)).
      { intros H. apply numbered_references_iff in H. congruence. }
      destruct ((length (split_ws s) <=? 4)
                && (startswith (lower s) (py "references ")
                    || startswith (lower s) (py "bibliography "))) eqn:E4.
      * split; [intros _ | reflexivity].
        apply andb_true_iff in E4. destruct E4 as [E4 E5].
        apply Nat.leb_le in E4. apply orb_true_iff in E5.
        split; [exact E10|]. right. right. right. split; [exact E4|].
        destruct E5 as [E5|E5]; apply startswith_iff in E5;
          destruct E5 as [r E5]; exists r; auto.
      * split; [discriminate|].
        intros [_ [H|[H|[H|[H4 [r H]]]]]]; try contradiction.
        exfalso.
        apply andb_false_iff in E4. destruct E4 as [E4|E4].
        -- apply Nat.leb_gt in E4. lia.
        -- apply orb_false_iff in E4. destruct E4 as [E4 E5].
           destruct H as [H|H].
           ++ assert (X : startswith (lower s) (py "references ") = true)
                by (apply startswith_iff; exists r; exact H).
              congruence.
           ++ assert (X : startswith (lower s) (py "bibliography ") = true)
                by (apply startswith_iff; exists r; exact H).
              congruence.
Qed.

End ReferencesHeader.

(** ** The first page *)

Section FirstPage.

Lemma space_not_upper (c : ascii) : isspace c = true -> isupper_c c = false.
Proof.
  destruct c as [[|] [|] [|] [|] [|] [|] [|] [|]]; vm_compute;
    congruence.
Qed.

Lemma lower_c_space (c : ascii) :
  isspace c = true -> isspace (lower_c c) = true.
Proof.
  intros H. unfold lower_c. rewrite (space_not_upper c H). exact H.
Qed.

Lemma lstrip_spaces_app (w y : str) :
  all_space w -> lstrip (w ++ y) = lstrip y.
Proof.
  induction 1 as [|c w Hc _ IH]; simpl; [reflexivity|].
  rewrite Hc. exact IH.
Qed.

Lemma lstrip_all_space (w : str) : all_space w -> lstrip w = [].
Proof.
  intros H. rewrite <- (app_nil_r w). rewrite lstrip_spaces_app by exact H.
  reflexivity.
Qed.

Lemma all_space_rev (w : str) : all_space w -> all_space (rev w).
Proof. apply Forall_rev. Qed.

Lemma rstrip_app_spaces (y w : str) :
  all_space w -> rstrip (y ++ w) = rstrip y.
Proof.
  intros H. unfold rstrip. rewrite rev_app_distr.
  rewrite lstrip_spaces_app by (apply all_space_rev; exact H). reflexivity.
Qed.

Lemma lstrip_length (s : str) : length (lstrip s) <= length s.
Proof.
  induction s as [|a s IH]; simpl; [lia|].
  destruct (isspace a); simpl; lia.
Qed.

(** A text fixed by [lstrip] is empty or starts with a character that is
    not a space. *)
Lemma lstrip_fixed_head (c : ascii) (y : str) :
  lstrip (c :: y) = c :: y -> isspace c = false.
Proof.
  simpl. destruct (isspace c); [|reflexivity].
  intros H. pose proof (lstrip_length y) as L. rewrite H in L.
  simpl in L. lia.
Qed.

Lemma strip_around (w1 y w2 : str) :
  all_space w1 -> all_space w2 -> lstrip y = y -> rstrip y = y ->
  strip (w1 ++ y ++ w2) = y.
Proof.
  intros H1 H2 Hl Hr. unfold strip.
  rewrite lstrip_spaces_app by exact H1.
  destruct y as [|c y].
  - simpl. rewrite lstrip_all_space by exact H2. reflexivity.
  - pose proof (lstrip_fixed_head c y Hl) as Hc.
    simpl. rewrite Hc.
    change (rstrip ((c :: y) ++ w2) = c :: y).
    rewrite rstrip_app_spaces by exact H2. exact Hr.
Qed.

Lemma lstrip_decompose (x : str) :
  exists w, all_space w /\ x = w ++ lstrip x.
Proof.
  induction x as [|c x [w [Hw E]]]; simpl.
  - exists []. split; [constructor | reflexivity].
  - destruct (isspace c) eqn:Ec.
    + exists (c :: w). split; [constructor; assumption|].
      simpl. rewrite <- E. reflexivity.
    + exists []. split; [constructor | reflexivity].
Qed.

Lemma rstrip_decompose (x : str) :
  exists w, all_space w /\ x = rstrip x ++ w.
Proof.
  destruct (lstrip_decompose (rev x)) as [w [Hw E]].
  exists (rev w). split; [apply all_space_rev; exact Hw|].
  unfold rstrip. rewrite <- rev_app_distr, <- E, rev_involutive.
  reflexivity.
Qed.

Lemma strip_decompose (x : str) :
  exists w1 w2, all_space w1 /\ all_space w2 /\ x = w1 ++ strip x ++ w2.
Proof.
  destruct (lstrip_decompose x) as [w1 [H1 E1]].
  destruct (rstrip_decompose (lstrip x)) as [w2 [H2 E2]].
  exists w1, w2. split; [exact H1|]. split; [exact H2|].
  unfold strip. rewrite <- E2. exact E1.
Qed.

Lemma lstrip_strip (x : str) : lstrip (strip x) = strip x.
Proof. unfold strip. apply lstrip_rstrip_fixed, lstrip_idem. Qed.

Lemma rstrip_strip (x : str) : rstrip (strip x) = strip x.
Proof. unfold strip. apply rstrip_idem. Qed.

Lemma lstrip_no_space (y : str) :
  Forall (fun c => isspace c = false) y -> lstrip y = y.
Proof. destruct 1 as [|c y Hc _]; simpl; [|rewrite Hc]; reflexivity. Qed.

Lemma rstrip_no_space (y : str) :
  Forall (fun c => isspace c = false) y -> rstrip y = y.
Proof.
  intros H. unfold rstrip.
  rewrite lstrip_no_space by (apply Forall_rev; exact H).
  apply rev_involutive.
Qed.

(** A text whose lowercase form has no space has none itself. *)
Lemma lower_no_space (y : str) :
  Forall (fun c => isspace c = false) (lower y) ->
  Forall (fun c => isspace c = false) y.
Proof.
  unfold lower. induction y as [|c y IH]; simpl; intros H; [constructor|].
  inversion H; subst. constructor; [|auto].
  destruct (isspace c) eqn:E; [|reflexivity].
  apply lower_c_space in E. congruence.
Qed.

(** The pattern of the abstract line matches exactly the lines that read
    abstract, in any case, between optional spaces. *)
Lemma abstract_line_iff (x : str) :
  matches abstract_line x = true <-> lower (strip x) = py "abstract".
Proof.
  rewrite matches_lang. unfold abstract_line. split.
  - intros [s4 H].
    apply lang_seq_iff in H. destruct H as [s1 [HA H]].
    apply lang_seq_iff in H. destruct H as [s2 [HB H]].
    apply lang_seq_iff in H. destruct H as [s3 [HC HE]].
    apply (recognizes_star_cls true isspace) in HA.
    destruct HA as [w1 [Hw1 ->]].
    apply recognizes_lit_i in HB. destruct HB as [y [Hy ->]].
    apply (recognizes_star_cls true isspace) in HC.
    destruct HC as [w2 [Hw2 ->]].
    apply lang_eol_iff in HE. destruct HE as [_ HE].
    assert (Hn : Forall (fun c => isspace c = false) y).
    { apply lower_no_space. rewrite Hy. repeat constructor. }
    assert (Hs : all_space (w2 ++ s3)).
    { apply Forall_app. split; [exact Hw2|].
      destruct HE as [->| ->]; repeat constructor. }
    rewrite (strip_around w1 y (w2 ++ s3)); auto.
    + apply lstrip_no_space. exact Hn.
    + apply rstrip_no_space. exact Hn.
  - intros H.
    destruct (strip_decompose x) as [w1 [w2 [H1 [H2 E]]]].
    exists []. rewrite E.
    apply lang_seq_iff. exists (strip x ++ w2). split.
    { apply (recognizes_star_cls true isspace). exists w1. auto. }
    apply lang_seq_iff. exists w2. split.
    { apply recognizes_lit_i. exists (strip x). auto. }
    apply lang_seq_iff. exists []. split.
    { apply (recognizes_star_cls true isspace). exists w2.
      split; [exact H2 | rewrite app_nil_r; reflexivity]. }
    constructor.
Qed.

Lemma abstract_heading_iff (l : str) :
  matches abstract_line (strip l) = true <-> is_abstract_heading l.
Proof.
  rewrite abstract_line_iff, strip_strip. unfold is_abstract_heading.
  reflexivity.
Qed.

(** Splitting at a one-character separator and joining again. *)
Lemma split_aux_nonempty (sep : str) (skip : nat) (cur s : str) :
  split_aux sep skip cur s <> [].
Proof.
  revert skip cur. induction s as [|a s IH]; intros skip cur; simpl.
  - discriminate.
  - destruct skip; [|apply IH].
    destruct (startswith (a :: s) sep); [discriminate | apply IH].
Qed.

Lemma join_cons (sep x : str) (l : list str) :
  l <> [] -> join sep (x :: l) = x ++ sep ++ join sep l.
Proof. destruct l; [congruence | reflexivity]. Qed.

Lemma join_split_aux (c : ascii) (s cur : str) :
  join [c] (split_aux [c] 0 cur s) = rev cur ++ s.
Proof.
  revert cur. induction s as [|a s IH]; intros cur; simpl.
  - rewrite app_nil_r. reflexivity.
  - rewrite andb_true_r. destruct (Ascii.eqb c a) eqn:E.
    + apply Ascii.eqb_eq in E. subst a.
      rewrite join_cons by apply split_aux_nonempty.
      rewrite IH. reflexivity.
    + rewrite IH. simpl. rewrite <- app_assoc. reflexivity.
Qed.

Lemma join_split (c : ascii) (s : str) : join [c] (split s [c]) = s.
Proof. unfold split. apply join_split_aux. Qed.

(** The scan for the first abstract line. *)
Lemma abstract_start_first (pre post : list str) (l : str) (i : nat) :
  Forall (fun x => ~ is_abstract_heading x) pre ->
  is_abstract_heading l ->
  abstract_start i (pre ++ l :: post) = Some (i + length pre + 1).
Proof.
  intros Hpre Hl. revert i.
  induction Hpre as [|x pre Hx _ IH]; intros i; simpl.
  - apply abstract_heading_iff in Hl. rewrite Hl. f_equal. lia.
  - destruct (matches abstract_line (strip x)) eqn:E.
    + apply abstract_heading_iff in E. contradiction.
    + rewrite IH. f_equal. lia.
Qed.

Lemma abstract_start_none (lines : list str) (i : nat) :
  (forall l, In l lines -> ~ is_abstract_heading l) ->
  abstract_start i lines = None.
Proof.
  revert i. induction lines as [|x lines IH]; intros i H; simpl;
    [reflexivity|].
  destruct (matches abstract_line (strip x)) eqn:E.
  - apply abstract_heading_iff in E. exfalso. apply (H x); [left|]; auto.
  - apply IH. intros l Hl. apply H. right. exact Hl.
Qed.

(** C8. The lines of the first-page text are its pieces between line
    feeds. If one of them reads Abstract as a whole line (any case, spaces
    around allowed), the opening content is what follows the first such line,
    trimmed: that line and the lines before it are dropped. If none does, the
    opening content is the first-page text as it is. *)
Theorem first_page_from_abstract_spec (first_page_text : str) :
  join [LF] (split first_page_text [LF]) = first_page_text
  /\ (forall (pre post : list str) (l : str),
        split first_page_text [LF] = pre ++ l :: post ->
        is_abstract_heading l ->
        Forall (fun x => ~ is_abstract_heading x) pre ->
        first_page_from_abstract first_page_text = strip (join [LF] post))
  /\ ((forall l, In l (split first_page_text [LF]) -> ~ is_abstract_heading l)
      -> first_page_from_abstract first_page_text = first_page_text).
Proof.
  split; [apply join_split|]. split.
  - intros pre post l E Hl Hpre. unfold first_page_from_abstract.
    rewrite E, (abstract_start_first pre post l 0 Hpre Hl).
    replace (0 + length pre + 1) with (length (pre ++ [l]))
      by (rewrite length_app; simpl; lia).
    replace (pre ++ l :: post) with ((pre ++ [l]) ++ post)
      by (rewrite <- app_assoc; reflexivity).
    rewrite skipn_app, skipn_all, Nat.sub_diag. reflexivity.
  - intros H. unfold first_page_from_abstract.
    rewrite (abstract_start_none _ 0 H). reflexivity.
Qed.

End FirstPage.

(** ** Appending to an accepted window *)

Section Monotonicity.

Lemma space_not_digit (c : ascii) : isspace c = true -> isdigit c = false.
Proof.
  destruct c as [[|] [|] [|] [|] [|] [|] [|] [|]]; vm_compute;
    congruence.
Qed.

Lemma alpha_cased (c : ascii) :
  isalpha c = true -> islower_c c = true \/ isupper_c c = true.
Proof.
  destruct c as [[|] [|] [|] [|] [|] [|] [|] [|]]; vm_compute; auto.
Qed.

Lemma filter_digits_spaces (m : str) :
  all_space m -> filter isdigit m = [].
Proof.
  induction 1 as [|c m Hc _ IH]; simpl; [reflexivity|].
  rewrite (space_not_digit c Hc). exact IH.
Qed.

(** Words of a text cut at a space. *)
Lemma split_ws_aux_space (a b cur : str) (c : ascii) :
  isspace c = true ->
  split_ws_aux cur (a ++ c :: b) = split_ws_aux cur a ++ split_ws_aux [] b.
Proof.
  intros Hc. revert cur. induction a as [|x a IH]; intros cur; simpl.
  - rewrite Hc. destruct cur; reflexivity.
  - destruct (isspace x).
    + destruct cur; simpl; rewrite IH; reflexivity.
    + apply IH.
Qed.

Lemma split_ws_spaces_app (m b : str) :
  all_space m -> split_ws (m ++ b) = split_ws b.
Proof.
  unfold split_ws. induction 1 as [|c m Hc _ IH]; simpl; [reflexivity|].
  rewrite Hc. exact IH.
Qed.

Lemma split_ws_app (a m b : str) :
  m <> [] -> all_space m ->
  split_ws (a ++ m ++ b) = split_ws a ++ split_ws b.
Proof.
  intros Hne Hm. destruct m as [|c m]; [congruence|].
  inversion Hm; subst.
  unfold split_ws. simpl. rewrite split_ws_aux_space by assumption.
  f_equal. apply split_ws_spaces_app. assumption.
Qed.

(** The characters of a word are characters of the text. *)
Lemma split_ws_aux_chars (s cur w : str) (c : ascii) :
  In w (split_ws_aux cur s) -> In c w -> In c cur \/ In c s.
Proof.
  revert cur. induction s as [|x s IH]; intros cur; simpl.
  - destruct cur as [|y cur]; [intros []|].
    intros [<-|[]] Hc. left. apply in_rev. exact Hc.
  - destruct (isspace x).
    + destruct cur as [|y cur].
      * intros Hw Hc. destruct (IH [] Hw Hc) as [[]|H]. right. right. exact H.
      * intros [<-|Hw] Hc.
        -- left. apply in_rev. exact Hc.
        -- destruct (IH [] Hw Hc) as [[]|H]. right. right. exact H.
    + intros Hw Hc. destruct (IH (x :: cur) Hw Hc) as [[<-|H]|H]; auto.
Qed.

Lemma split_ws_chars (s w : str) (c : ascii) :
  In w (split_ws s) -> In c w -> In c s.
Proof.
  intros Hw Hc. destruct (split_ws_aux_chars s [] w c Hw Hc) as [[]|H].
  exact H.
Qed.

(** An accepted text has an alphabetic, hence cased, character. *)
Lemma accepted_has_cased (t : str) :
  prose_accepts t ->
  exists c, In c t /\ (islower_c c = true \/ isupper_c c = true).
Proof.
  intros [_ Hw _ _ Ha _ _ _]. unfold fraction_ge in Ha.
  destruct (filter (existsb isalpha) (split_ws t)) as [|w l] eqn:E.
  - simpl in Ha. lia.
  - assert (Hin : In w (filter (existsb isalpha) (split_ws t)))
      by (rewrite E; left; reflexivity).
    apply filter_In in Hin. destruct Hin as [Hw' Hal].
    apply existsb_exists in Hal. destruct Hal as [c [Hc Hal]].
    exists c. split; [eapply split_ws_chars; eassumption|].
    apply alpha_cased. exact Hal.
Qed.

Lemma lstrip_fixed_app (y r : str) :
  y <> [] -> lstrip y = y -> lstrip (y ++ r) = y ++ r.
Proof.
  intros Hne H. destruct y as [|c y]; [congruence|].
  pose proof (lstrip_fixed_head c y H) as Hc. simpl. rewrite Hc. reflexivity.
Qed.

Lemma rstrip_fixed_app (r y : str) :
  y <> [] -> rstrip y = y -> rstrip (r ++ y) = r ++ y.
Proof.
  intros Hne H. unfold rstrip in *. rewrite rev_app_distr.
  assert (Hr : lstrip (rev y) = rev y).
  { rewrite <- (rev_involutive (lstrip (rev y))), H. reflexivity. }
  rewrite lstrip_fixed_app; [|intros E; apply Hne|exact Hr].
  - rewrite rev_app_distr, !rev_involutive. reflexivity.
  - rewrite <- (rev_involutive y), E. reflexivity.
Qed.

(** The trimmed form of two non-blank texts joined by spaces. *)
Lemma strip_join (w sep v : str) :
  strip w <> [] -> strip v <> [] -> all_space sep ->
  exists mid,
    all_space mid /\ length sep <= length mid
    /\ strip (w ++ sep ++ v) = strip w ++ mid ++ strip v.
Proof.
  intros Hw Hv Hs.
  destruct (strip_decompose w) as [a1 [a2 [Ha1 [Ha2 Ew]]]].
  destruct (strip_decompose v) as [b1 [b2 [Hb1 [Hb2 Ev]]]].
  exists (a2 ++ sep ++ b1).
  split; [repeat (apply Forall_app; split); assumption|].
  split; [rewrite !length_app; lia|].
  rewrite Ew at 1. rewrite Ev at 1.
  replace ((a1 ++ strip w ++ a2) ++ sep ++ b1 ++ strip v ++ b2)
    with (a1 ++ (strip w ++ (a2 ++ sep ++ b1) ++ strip v) ++ b2)
    by (rewrite <- !app_assoc; reflexivity).
  apply strip_around; try assumption.
  - apply lstrip_fixed_app; [exact Hw | apply lstrip_strip].
  - rewrite app_assoc.
    apply rstrip_fixed_app; [exact Hv | apply rstrip_strip].
Qed.

Lemma prose_accepts_nonempty (t : str) : prose_accepts t -> t <> [].
Proof. intros [H _ _ _ _ _ _ _] ->. simpl in H. lia. Qed.

Lemma list_sum_app_len (a b : list str) :
  list_sum (map (@length ascii) (a ++ b))
  = list_sum (map (@length ascii) a) + list_sum (map (@length ascii) b).
Proof. rewrite map_app, list_sum_app. reflexivity. Qed.

(** Two accepted texts joined by spaces are accepted as soon as the
    distinct-word fraction of the result is large enough. *)
Lemma accepts_join (sw mid sv : str) :
  prose_accepts sw -> prose_accepts sv ->
  mid <> [] -> all_space mid ->
  fraction_ge (distinct_lower (split_ws (sw ++ mid ++ sv)))
    (length (split_ws (sw ++ mid ++ sv))) 30 ->
  prose_accepts (sw ++ mid ++ sv).
Proof.
  intros A B Hne Hm Hu.
  pose proof (accepted_has_cased sw A) as [c [Hc Hcased]].
  destruct A as [A1 A2 A3 A4 A5 _ A7 A8].
  destruct B as [B1 B2 B3 B4 B5 _ B7 _].
  unfold fraction_le, fraction_ge in *.
  assert (Ews : split_ws (sw ++ mid ++ sv) = split_ws sw ++ split_ws sv)
    by (apply split_ws_app; assumption).
  constructor; unfold fraction_le, fraction_ge; rewrite ?Ews in *;
    rewrite ?filter_app, ?length_app, ?list_sum_app_len.
  - lia.
  - lia.
  - rewrite (filter_digits_spaces mid Hm). simpl. lia.
  - rewrite !Nat.mul_add_distr_l. apply Nat.add_le_mono; assumption.
  - rewrite !Nat.mul_add_distr_l. apply Nat.add_le_mono; assumption.
  - rewrite length_app in Hu. exact Hu.
  - destruct A7 as [[x [Hx Hin]]|A7].
    + left. exists x. split; [exact Hx|]. apply in_or_app. left. exact Hin.
    + destruct B7 as [[x [Hx Hin]]|B7].
      * left. exists x. split; [exact Hx|].
        apply in_or_app. right. apply in_or_app. right. exact Hin.
      * right. rewrite !Nat.mul_add_distr_l.
        apply Nat.add_le_mono; assumption.
  - intros [[Hlow _] Hlen]. apply A8. split.
    + split.
      * intros x Hx. apply Hlow. apply in_or_app. left. exact Hx.
      * exists c. split; [exact Hc|].
        destruct Hcased as [Hl|Hu']; [|exact Hu'].
        rewrite Hlow in Hl; [discriminate|]. apply in_or_app. left. exact Hc.
    + eapply Nat.le_lt_trans; [|exact Hlen]. apply Nat.le_add_r.
Qed.

(** C7 (amended). Appending to an accepted window, after at least one
    space, a text that the classifier accepts as well keeps the window
    accepted provided the fraction of distinct lowercase word-forms of the
    result is still at least 0.30; and a text of fewer than 5 words, such as
    an accepted window truncated below 5 words, is rejected. *)
Theorem classifier_append_and_truncate :
  (forall w sep v : str,
      _is_proper_chunk_text w = true ->
      _is_proper_chunk_text v = true ->
      sep <> [] -> all_space sep ->
      fraction_ge (distinct_lower (split_ws (strip (w ++ sep ++ v))))
        (length (split_ws (strip (w ++ sep ++ v)))) 30 ->
      _is_proper_chunk_text (w ++ sep ++ v) = true)
  /\ (forall u : str,
        length (split_ws (strip u)) < 5 -> _is_proper_chunk_text u = false).
Proof.
  split.
  - intros w sep v Hw Hv Hne Hs Hu.
    apply proper_iff_accepts in Hw. apply proper_iff_accepts in Hv.
    apply proper_iff_accepts.
    destruct (strip_join w sep v) as [mid [Hm [Hl E]]];
      [apply prose_accepts_nonempty; exact Hw
      |apply prose_accepts_nonempty; exact Hv
      |exact Hs|].
    rewrite E in *.
    apply accepts_join; try assumption.
    destruct sep; [congruence|]. destruct mid; [simpl in Hl; lia|discriminate].
  - intros u Hu.
    destruct (_is_proper_chunk_text u) eqn:E; [|reflexivity].
    apply proper_iff_accepts in E. destruct E as [_ E _ _ _ _ _ _]. lia.
Qed.

(** C7 (counterexample). An accepted sentence followed by two more copies
    of itself, which form an accepted text too, is rejected: 7 distinct
    word-forms among 24 words. *)
Lemma classifier_not_monotone :
  let w := py "The model was trained on the large corpus." in
  let v := w ++ [SP] ++ w in
  _is_proper_chunk_text w = true
  /\ _is_proper_chunk_text v = true
  /\ _is_proper_chunk_text (w ++ [SP] ++ v) = false.
Proof. vm_compute. repeat split. Qed.

End Monotonicity.

(** ** Runs on the sample documents *)

Section Runs.


Import Samples.

(** C1, on the samples: the flush of an accepted text fails with the failure
    of the language model; with a blank reply it emits the chunk and records no
    fact; a blank document goes through with a failing language model; and
    a document whose first block fails at a header ends with that failure. *)
Lemma fact_failure_aborts_flush_witness :
  flush Samples.failing did (buffered Samples.failing) []
  = inl (External 503)
  /\ flush Samples.silent did (buffered Samples.silent) []
     = inr (mkState
              [mkRAGChunk did Samples.prose1 None (Some (py "Abstract")) None]
              (Some (py "Abstract")) None [] [] false [],
            [ChatCompletion usage_system_prompt
               (usage_request Samples.prose1)])
  /\ process_document Samples.failing did ttl [[]] []
     = inr ((mkDocument did did ttl [] None, []), [])
  /\ process_document Samples.failing did ttl [Samples.page_sections] []
     = inl (External 503).
Proof.
  split; [|split; [|split]].
  - apply (proj1 (fact_failure_aborts_flush Samples.failing did)
             (buffered Samples.failing) []); vm_compute; discriminate.
  - apply (proj1 (fact_failure_aborts_flush Samples.silent did)
             (buffered Samples.silent) []);
      vm_compute; try discriminate; reflexivity.
  - pose proof (proj1 (proj2 (fact_failure_aborts_flush Samples.failing did))
                  ttl [[]] []
                  (fun _ _ _ => ex_intro _ 503 eq_refl)) as H.
    destruct (process_document Samples.failing did ttl [[]] [])
      as [e|[[d cs] t]] eqn:E; [vm_compute in E; discriminate|].
    destruct H as [-> [Hs ->]].
    vm_compute in E. inversion E. reflexivity.
  - apply (proj2 (proj2 (fact_failure_aborts_flush Samples.failing did))
             ttl [Samples.page_sections]
             (blocks_of [Samples.page_sections]) [] []).
    + discriminate.
    + rewrite app_nil_r. reflexivity.
    + vm_compute. reflexivity.
Defined.

(** C4, on the sample line 6 References: outside the references it enters
    them, inside the references it is skipped. *)
Lemma references_header_precedes_numbered_witness :
  numbered_header (strip (py "6 References")) = Some (py "6", py "References")
  /\ mentions_references (py "References")
  /\ classify false (strip (py "6 References")) = KReferences
  /\ process_line Samples.demo did (init_state Samples.demo)
       (py "6 References") []
     = inr (set_in_references true (init_state Samples.demo), [])
  /\ process_line Samples.demo did
       (set_in_references true (init_state Samples.demo))
       (py "6 References") []
     = inr (set_in_references true (init_state Samples.demo), []).
Proof.
  assert (H1 : numbered_header (strip (py "6 References"))
               = Some (py "6", py "References"))
    by (vm_compute; reflexivity).
  assert (H2 : mentions_references (py "References"))
    by (exists [], []; left; vm_compute; reflexivity).
  destruct (references_header_precedes_numbered Samples.demo did
              (init_state Samples.demo) (py "6 References")
              (py "6") (py "References") [] H1 H2)
    as [Hout _].
  destruct (Hout eq_refl) as [Hk [Hp _]].
  destruct (references_header_precedes_numbered Samples.demo did
              (set_in_references true (init_state Samples.demo))
              (py "6 References") (py "6") (py "References") [] H1 H2)
    as [_ [Hin _]].
  split; [exact H1|]. split; [exact H2|]. split; [exact Hk|].
  split; [rewrite Hp; reflexivity|].
  apply Hin; [reflexivity | vm_compute; reflexivity].
Defined.

(** C6, on the sample with sections and a subsection: the four chunks, their
    labels, and the number of lines read before the flush of each. *)
Lemma chunk_labels_justified_witness :
  exists d cs t s t1,
    process_document Samples.demo did ttl [Samples.page_sections] []
    = inr ((d, cs), t)
    /\ map (fun c => (section c, subsection c)) cs
       = [(Some (py "Abstract"), None);
          (Some (py "1 Introduction"), None);
          (Some (py "1 Introduction"), Some (py "1.1 Background"));
          (Some (py "2 Method"), None)]
    /\ process_blocks_traced Samples.demo did
         (blocks_of [Samples.page_sections])
         (mkTraced (init_state Samples.demo) [] []) [] = inr (s, t1)
    /\ chunks_out (seg s) = cs
    /\ map (@length str) (flushed_after s) = [1; 3; 5; 7]
    /\ Forall2 (chunk_justified (doc_lines [Samples.page_sections])) cs
         (flushed_after s).
Proof.
  destruct (process_document Samples.demo did ttl [Samples.page_sections] [])
    as [e|[[d cs] t]] eqn:E; [vm_compute in E; discriminate|].
  destruct (proj1 (proj2 (proj2 (chunk_labels_justified Samples.demo did)))
              ttl [Samples.page_sections] [] t d cs E)
    as [s [t1 [Hs [Es [_ Hc]]]]].
  exists d, cs, t, s, t1. split; [reflexivity|]. split.
  - vm_compute in E. inversion E. reflexivity.
  - split; [exact Hs|]. split; [exact Es|]. split; [|exact Hc].
    vm_compute in Hs. inversion Hs. reflexivity.
Defined.

(** C7, on the samples: two different accepted sentences joined by a space,
    and a window cut to three words. *)
Lemma classifier_append_and_truncate_witness :
  _is_proper_chunk_text (Samples.prose1 ++ [SP] ++ Samples.prose2) = true
  /\ _is_proper_chunk_text (py "The method achieves") = false.
Proof.
  split.
  - apply (proj1 classifier_append_and_truncate).
    + vm_compute; reflexivity.
    + vm_compute; reflexivity.
    + discriminate.
    + repeat constructor.
    + unfold fraction_ge. apply Nat.leb_le. vm_compute. reflexivity.
  - apply (proj2 classifier_append_and_truncate).
    apply Nat.ltb_lt. vm_compute. reflexivity.
Defined.

(** C8, on a first page with a title line before the abstract line, and on
    one without an abstract line. *)
Lemma first_page_from_abstract_spec_witness :
  first_page_from_abstract
    (Samples.lines_text ["A Title"; " ABSTRACT "; "Body text."]%string)
  = py "Body text."
  /\ first_page_from_abstract
       (Samples.lines_text ["A Title"; "Body text."]%string)
     = Samples.lines_text ["A Title"; "Body text."]%string.
Proof.
  split.
  - apply (proj1 (proj2 (first_page_from_abstract_spec _))
             [py "A Title"] [py "Body text."] (py " ABSTRACT ")).
    + vm_compute; reflexivity.
    + vm_compute; reflexivity.
    + constructor; [|constructor]. vm_compute. discriminate.
  - apply (proj2 (proj2 (first_page_from_abstract_spec _))).
    intros l Hl. vm_compute in Hl.
    destruct Hl as [<-|[<-|[]]]; vm_compute; discriminate.
Defined.

(** C9, on the sample page with a language model that replies with blank
    text: one chunk, no fact, hence no summary call and no embedding call. *)
Lemma empty_facts_no_summary_no_embedding_witness :
  process_document Samples.silent did ttl [Samples.page_plain] []
  = inr ((mkDocument did did ttl [] None,
          [mkRAGChunk did Samples.prose1 None (Some (py "Abstract")) None]),
         [ChatCompletion usage_system_prompt (usage_request Samples.prose1)]).
Proof.
  pose proof (proj2 (proj2 (empty_facts_no_summary_no_embedding
                              Samples.silent did ttl [Samples.page_plain] [])))
    as H.
  destruct (process_blocks Samples.silent did
              (blocks_of [Samples.page_plain]) (init_state Samples.silent) [])
    as [e|[st t1]] eqn:E; [vm_compute in E; discriminate|].
  rewrite H.
  - vm_compute in E. inversion E. reflexivity.
  - vm_compute in E. inversion E. reflexivity.
  - discriminate.
Defined.

End Runs.

(** * Further properties *)

(** ** The identifier of a document *)

Section ArxivId.

Lemma rfind_from_shift (c : ascii) (s : str) (i : nat) (last : option nat) :
  rfind_from c s i last =
  match rfind_from c s 0 None with
  | Some k => Some (i + k)
  | None => last
  end.
Proof.
  revert i last. induction s as [|a s IH]; intros i last; simpl.
  - reflexivity.
  - rewrite (IH (S i)), (IH 1).
    destruct (rfind_from c s 0 None) as [k|].
    + f_equal. lia.
    + destruct (Ascii.eqb a c); [f_equal; lia | reflexivity].
Qed.

(** [rfind] by the first character. *)
Lemma rfind_cons (c a : ascii) (s : str) :
  rfind c (a :: s) =
  match rfind c s with
  | Some k => Some (S k)
  | None => if Ascii.eqb a c then Some 0 else None
  end.
Proof.
  unfold rfind. simpl. rewrite rfind_from_shift.
  destruct (rfind_from c s 0 None); reflexivity.
Qed.

Lemma rfind_absent (c : ascii) (s : str) : ~ In c s -> rfind c s = None.
Proof.
  induction s as [|a s IH]; intros H; [reflexivity|].
  rewrite rfind_cons, IH by (intros X; apply H; right; exact X).
  destruct (Ascii.eqb a c) eqn:E; [|reflexivity].
  apply Ascii.eqb_eq in E. exfalso. apply H. left. exact E.
Qed.

Lemma rfind_last (c : ascii) (a b : str) :
  ~ In c b -> rfind c (a ++ c :: b) = Some (length a).
Proof.
  intros H. induction a as [|x a IH]; simpl.
  - rewrite rfind_cons, (rfind_absent c b H), Ascii.eqb_refl. reflexivity.
  - rewrite rfind_cons, IH. reflexivity.
Qed.

(** What [rfind] finds is the last occurrence. *)
Lemma rfind_spec (c : ascii) (s : str) :
  match rfind c s with
  | Some i => exists a b, s = a ++ c :: b /\ length a = i /\ ~ In c b
  | None => ~ In c s
  end.
Proof.
  induction s as [|x s IH]; [intros []|].
  rewrite rfind_cons. destruct (rfind c s) as [k|].
  - destruct IH as [a [b [-> [<- Hb]]]].
    exists (x :: a), b. auto.
  - destruct (Ascii.eqb x c) eqn:E.
    + apply Ascii.eqb_eq in E. subst x. exists [], s. auto.
    + apply Ascii.eqb_neq in E. intros [H|H]; [congruence | contradiction].
Qed.

Lemma basename_spec (p : str) :
  ~ In "/"%char (basename p)
  /\ exists dir, p = dir ++ basename p
                 /\ (dir = [] \/ exists d, dir = d ++ ["/"%char]).
Proof.
  unfold basename, after_sep.
  pose proof (rfind_spec "/" p) as H.
  destruct (rfind "/" p) as [i|].
  - destruct H as [a [b [-> [<- Hb]]]].
    assert (E : skipn (length a + 1) (a ++ "/"%char :: b) = b).
    { replace (a ++ "/"%char :: b) with ((a ++ ["/"%char]) ++ b)
        by (rewrite <- app_assoc; reflexivity).
      replace (length a + 1) with (length (a ++ ["/"%char]))
        by (rewrite length_app; reflexivity).
      rewrite skipn_app, skipn_all, Nat.sub_diag. reflexivity. }
    rewrite E. split; [exact Hb|].
    exists (a ++ ["/"%char]). split; [rewrite <- app_assoc; reflexivity|].
    right. exists a. reflexivity.
  - simpl. split; [exact H|]. exists []. auto.
Qed.

Lemma firstn_app_exact {A : Type} (a b : list A) :
  firstn (length a) (a ++ b) = a.
Proof.
  rewrite firstn_app, Nat.sub_diag, firstn_all. simpl. apply app_nil_r.
Qed.

Lemma skipn_app_exact {A : Type} (a b : list A) :
  skipn (length a) (a ++ b) = b.
Proof. rewrite skipn_app, skipn_all, Nat.sub_diag. reflexivity. Qed.

(** The two parts of [splitext] make up the path, and the second is empty
    or one extension. *)
Lemma splitext_spec (p : str) :
  fst (splitext p) ++ snd (splitext p) = p
  /\ (snd (splitext p) = []
      \/ exists e, snd (splitext p) = "."%char :: e /\ ~ In "."%char e).
Proof.
  unfold splitext.
  pose proof (rfind_spec "." p) as H.
  destruct (rfind "." p) as [i|]; [|simpl; rewrite app_nil_r; auto].
  destruct ((after_sep p <=? i) && _) eqn:E;
    [|simpl; rewrite app_nil_r; auto].
  simpl. split; [apply firstn_skipn|].
  right. destruct H as [a [b [-> [<- Hb]]]].
  exists b. rewrite skipn_app_exact. auto.
Qed.

(** X1. The identifier of a path is the name of the file without its last
    extension: for a directory, a stem that holds a character other than a
    dot and no slash, and an extension with no dot and no slash, the
    identifier of directory/stem.extension is the stem; so it is when the
    path has no directory. *)
Theorem arxiv_id_of_file (dir stem ext : str) :
  ~ In "/"%char stem -> ~ In "/"%char ext -> ~ In "."%char ext ->
  (exists c, In c stem /\ c <> "."%char) ->
  _arxiv_id_from_path (dir ++ ["/"%char] ++ stem ++ ["."%char] ++ ext) = stem
  /\ _arxiv_id_from_path (stem ++ ["."%char] ++ ext) = stem.
Proof.
  intros Hs He Hd [c [Hc Hn]].
  assert (Hb : ~ In "/"%char (stem ++ ["."%char] ++ ext)).
  { intros H. apply in_app_or in H. destruct H as [H|H]; [auto|].
    apply in_app_or in H. destruct H as [[H|[]]|H]; [discriminate | auto]. }
  assert (Hid : fst (splitext (stem ++ ["."%char] ++ ext)) = stem).
  { unfold splitext. simpl app.
    rewrite (rfind_last "." stem ext Hd).
    unfold after_sep.
    rewrite (rfind_absent "/" (stem ++ "."%char :: ext) Hb).
    simpl. rewrite Nat.sub_0_r, firstn_app_exact.
    assert (Hx : existsb (fun ch => negb (Ascii.eqb ch ".")) stem = true).
    { apply existsb_exists. exists c. split; [exact Hc|].
      apply negb_true_iff, Ascii.eqb_neq. exact Hn. }
    rewrite Hx. simpl. rewrite ?firstn_app_exact. reflexivity. }
  unfold _arxiv_id_from_path. split.
  - unfold basename, after_sep. simpl app.
    rewrite (rfind_last "/" dir (stem ++ "."%char :: ext) Hb).
    replace (dir ++ "/"%char :: stem ++ "."%char :: ext)
      with ((dir ++ ["/"%char]) ++ stem ++ "."%char :: ext)
      by (rewrite <- app_assoc; reflexivity).
    replace (length dir + 1) with (length (dir ++ ["/"%char]))
      by (rewrite length_app; reflexivity).
    rewrite skipn_app_exact. exact Hid.
  - unfold basename, after_sep.
    rewrite (rfind_absent "/" _ Hb). simpl skipn. exact Hid.
Qed.

(** X2. The identifier never holds a slash, and the name of the file is the
    identifier followed by nothing or by one extension, a dot and characters
    other than a dot: a path without a dot in its file name keeps the whole
    name. *)
Theorem arxiv_id_shape (doc_path : str) :
  ~ In "/"%char (_arxiv_id_from_path doc_path)
  /\ exists ext,
       basename doc_path = _arxiv_id_from_path doc_path ++ ext
       /\ (ext = [] \/ exists e, ext = "."%char :: e /\ ~ In "."%char e)
  /\ (~ In "."%char (basename doc_path) ->
      _arxiv_id_from_path doc_path = basename doc_path).
Proof.
  unfold _arxiv_id_from_path.
  destruct (basename_spec doc_path) as [Hb _].
  destruct (splitext_spec (basename doc_path)) as [Hj He].
  split.
  - intros H. apply Hb. rewrite <- Hj. apply in_or_app. left. exact H.
  - exists (snd (splitext (basename doc_path))).
    split; [symmetry; exact Hj|]. split; [exact He|].
    intros Hn. unfold splitext.
    rewrite (rfind_absent "." _ Hn). reflexivity.
Qed.

End ArxivId.

(** ** Title and abstract of the first page *)

Section TitleAbstract.

Lemma lstrip_nil_iff (s : str) : lstrip s = [] <-> all_space s.
Proof.
  split.
  - intros H. destruct (lstrip_decompose s) as [w [Hw E]].
    rewrite H, app_nil_r in E. subst. exact Hw.
  - apply lstrip_all_space.
Qed.

Lemma strip_nil_iff (s : str) : strip s = [] <-> all_space s.
Proof.
  split.
  - intros H. destruct (strip_decompose s) as [w1 [w2 [H1 [H2 E]]]].
    rewrite H in E. simpl in E. rewrite E. apply Forall_app. auto.
  - intros H. unfold strip. rewrite (lstrip_all_space s H). reflexivity.
Qed.

Lemma in_strip (c : ascii) (s : str) : In c (strip s) -> In c s.
Proof.
  intros H. destruct (strip_decompose s) as [w1 [w2 [_ [_ E]]]].
  rewrite E. apply in_or_app. right. apply in_or_app. left. exact H.
Qed.

(** The pieces of a text between occurrences of a character do not hold
    it. *)
Lemma split_aux_no_sep (c : ascii) (s cur : str) :
  ~ In c cur ->
  Forall (fun l => ~ In c l) (split_aux [c] 0 cur s).
Proof.
  revert cur. induction s as [|a s IH]; intros cur Hc; simpl.
  - constructor; [|constructor]. intros H. apply in_rev in H. auto.
  - rewrite andb_true_r. destruct (Ascii.eqb c a) eqn:E.
    + constructor; [intros H; apply in_rev in H; auto|].
      apply IH. intros [].
    + apply IH. intros [H|H]; [|auto].
      apply Ascii.eqb_neq in E. congruence.
Qed.

Lemma split_no_sep (c : ascii) (s : str) :
  Forall (fun l => ~ In c l) (split s [c]).
Proof. apply split_aux_no_sep. intros []. Qed.

Lemma join_all_space (sep : str) (ls : list str) :
  all_space sep -> Forall all_space ls -> all_space (join sep ls).
Proof.
  intros Hs H. induction H as [|x l Hx Hl IH]; [constructor|].
  destruct l as [|y l]; [exact Hx|].
  change (all_space (x ++ sep ++ join sep (y :: l))).
  repeat (apply Forall_app; split); assumption.
Qed.

Lemma join_chars (sep : str) (ls : list str) (c : ascii) :
  In c (join sep ls) -> In c sep \/ exists l, In l ls /\ In c l.
Proof.
  induction ls as [|x l IH]; [intros []|].
  destruct l as [|y l].
  - intros H. right. exists x. split; [left; reflexivity | exact H].
  - intros H. change (In c (x ++ sep ++ join sep (y :: l))) in H.
    apply in_app_or in H. destruct H as [H|H].
    + right. exists x. split; [left; reflexivity | exact H].
    + apply in_app_or in H. destruct H as [H|H]; [left; exact H|].
      destruct (IH H) as [H'|[z [Hz Hc]]]; [left; exact H'|].
      right. exists z. split; [right; exact Hz | exact Hc].
Qed.

(** The lines that the function reads: not empty, trimmed, without a line
    feed. *)
Lemma first_page_lines_shape (text : str) :
  Forall (fun l => l <> [] /\ one_trimmed_line l) (first_page_lines text).
Proof.
  unfold first_page_lines. apply Forall_forall. intros l Hl.
  apply in_map_iff in Hl. destruct Hl as [x [<- Hx]].
  apply filter_In in Hx. destruct Hx as [Hx Hne].
  apply negb_true_iff, is_empty_false in Hne.
  split; [exact Hne|]. split; [apply strip_strip|].
  intros H. apply in_strip in H.
  pose proof (split_no_sep LF text) as Hs.
  rewrite Forall_forall in Hs. exact (Hs x Hx H).
Qed.

(** A text that is not blank has a line that is not blank. *)
Lemma first_page_lines_nonempty (text : str) :
  strip text <> [] -> first_page_lines text <> [].
Proof.
  intros Hne Hl. apply Hne. apply strip_nil_iff.
  rewrite <- (join_split LF text).
  apply join_all_space; [repeat constructor|].
  apply Forall_forall. intros l Hin.
  apply strip_nil_iff.
  destruct (strip l) eqn:E; [reflexivity|].
  exfalso. unfold first_page_lines in Hl.
  assert (Hf : In l (filter (fun ln => negb (is_empty (strip ln)))
                       (split text [LF]))).
  { apply filter_In. split; [exact Hin|]. rewrite E. reflexivity. }
  destruct (filter _ (split text [LF])); [contradiction | discriminate].
Qed.

Lemma title_parts_prefix (lines : list str) :
  exists rest, lines = title_parts lines ++ rest.
Proof.
  induction lines as [|l lines [rest IH]]; cbn [title_parts abstract_lines abstract_after app]; [exists []; reflexivity|].
  destruct (matches abstract_line l); [eexists; reflexivity|].
  destruct (_looks_like_author_line l); [eexists; reflexivity|].
  exists rest. cbn [title_parts abstract_lines abstract_after app]. f_equal. exact IH.
Qed.

Lemma abstract_lines_incl (lines : list str) :
  incl (abstract_lines lines) lines.
Proof.
  induction lines as [|l lines IH]; cbn [abstract_lines]; [apply incl_refl|].
  destruct (matches numbered_start l); [apply incl_nil_l|].
  destruct (matches abstract_stop l); [apply incl_nil_l|].
  destruct (startswith (lower (strip l)) (py "arxiv:")); [apply incl_nil_l|].
  apply incl_cons; [left; reflexivity|]. apply incl_tl. exact IH.
Qed.

Lemma abstract_after_incl (lines : list str) :
  incl (abstract_after lines) lines.
Proof.
  induction lines as [|l lines IH]; cbn [title_parts abstract_lines abstract_after app]; [apply incl_refl|].
  destruct (matches abstract_line l).
  - apply incl_tl. apply abstract_lines_incl.
  - apply incl_tl. exact IH.
Qed.

(** Joining lines without a line feed by a space and trimming gives one
    trimmed line. *)
Lemma joined_one_line (ls : list str) :
  Forall (fun l => ~ In LF l) ls -> one_trimmed_line (strip (join [SP] ls)).
Proof.
  intros H. split; [apply strip_strip|].
  intros Hin. apply in_strip in Hin. apply join_chars in Hin.
  destruct Hin as [[Hin|[]]|[l [Hl Hc]]]; [discriminate|].
  rewrite Forall_forall in H. exact (H l Hl Hc).
Qed.

(** X3. A blank first page gives an empty title and an empty abstract. A
    page that is not blank gives a title that is not empty; title and
    abstract are each one trimmed line, without a line feed. *)
Theorem title_and_abstract_shape (page0 : str) :
  (strip page0 = [] ->
   _extract_title_and_abstract_from_pdf page0 = ([], []))
  /\ (strip page0 <> [] ->
      fst (_extract_title_and_abstract_from_pdf page0) <> []
      /\ one_trimmed_line (fst (_extract_title_and_abstract_from_pdf page0))
      /\ one_trimmed_line (snd (_extract_title_and_abstract_from_pdf page0))).
Proof.
  unfold _extract_title_and_abstract_from_pdf. split.
  - intros ->. reflexivity.
  - intros Hne. apply is_empty_false in Hne. rewrite Hne.
    apply is_empty_false in Hne.
    pose proof (first_page_lines_shape (strip page0)) as Hshape.
    pose proof (first_page_lines_nonempty (strip page0)) as Hl.
    rewrite strip_strip in Hl. specialize (Hl Hne).
    destruct (first_page_lines (strip page0)) as [|first rest] eqn:El;
      [congruence|].
    cbn [fst snd].
    assert (Hnolf : Forall (fun l => ~ In LF l) (first :: rest)).
    { eapply Forall_impl; [|exact Hshape]. intros l [_ [_ H]]. exact H. }
    split; [|split].
    + destruct (title_parts (first :: rest)) as [|p ps] eqn:Et.
      * inversion Hshape as [|? ? [H _] _]; subst. exact H.
      * intros H. apply strip_nil_iff in H.
        destruct (title_parts_prefix (first :: rest)) as [r Er].
        rewrite Et in Er. cbn [app] in Er. inversion Er; subst p.
        inversion Hshape as [|? ? [Hf [Hs _]] _]; subst.
        assert (Hsp : all_space first).
        { destruct ps as [|q ps].
          - exact H.
          - change (all_space (first ++ [SP] ++ join [SP] (q :: ps))) in H.
            apply Forall_app in H. destruct H as [H _]. exact H. }
        apply strip_nil_iff in Hsp. congruence.
    + destruct (title_parts (first :: rest)) as [|p ps] eqn:Et.
      * inversion Hshape as [|? ? [_ H] _]; subst. exact H.
      * apply joined_one_line.
        destruct (title_parts_prefix (first :: rest)) as [r Er].
        rewrite Et in Er. rewrite Er in Hnolf.
        apply Forall_app in Hnolf. destruct Hnolf as [H _]. exact H.
    + apply joined_one_line.
      apply Forall_forall. intros l Hin.
      apply abstract_after_incl in Hin.
      rewrite Forall_forall in Hnolf. exact (Hnolf l Hin).
Qed.

Lemma title_parts_stop (pre rest : list str) (b : str) :
  Forall (fun l => ~ stops_title l) pre -> stops_title b ->
  title_parts (pre ++ b :: rest) = pre.
Proof.
  intros Hpre Hb. induction Hpre as [|l pre Hl _ IH]; cbn [title_parts abstract_lines abstract_after app].
  - destruct (matches abstract_line b) eqn:E; [reflexivity|].
    destruct Hb as [Hb|Hb].
    + apply abstract_line_iff in Hb. congruence.
    + rewrite Hb. reflexivity.
  - destruct (matches abstract_line l) eqn:E.
    + exfalso. apply Hl. left. apply abstract_line_iff. exact E.
    + destruct (_looks_like_author_line l) eqn:Ea.
      * exfalso. apply Hl. right. exact Ea.
      * rewrite IH. reflexivity.
Qed.

Lemma title_parts_all (lines : list str) :
  Forall (fun l => ~ stops_title l) lines -> title_parts lines = lines.
Proof.
  induction 1 as [|l lines Hl _ IH]; cbn [title_parts abstract_lines abstract_after app]; [reflexivity|].
  destruct (matches abstract_line l) eqn:E.
  - exfalso. apply Hl. left. apply abstract_line_iff. exact E.
  - destruct (_looks_like_author_line l) eqn:Ea.
    + exfalso. apply Hl. right. exact Ea.
    + rewrite IH. reflexivity.
Qed.

Lemma extract_by_lines (page0 : str) :
  first_page_lines (strip page0) <> [] ->
  _extract_title_and_abstract_from_pdf page0 =
  (match title_parts (first_page_lines (strip page0)) with
   | [] => hd [] (first_page_lines (strip page0))
   | _ :: _ => strip (join [SP] (title_parts (first_page_lines (strip page0))))
   end,
   strip (join [SP] (abstract_after (first_page_lines (strip page0))))).
Proof.
  intros H. unfold _extract_title_and_abstract_from_pdf.
  destruct (is_empty (strip page0)) eqn:E.
  - apply is_empty_true in E. rewrite E in H. exfalso. apply H. reflexivity.
  - destruct (first_page_lines (strip page0)); [congruence | reflexivity].
Qed.

(** X4. The title is made of the lines before the first line that is the
    abstract line or looks like an author line, joined by spaces; when the
    very first line is such a line, the title is that line itself (a page
    that starts with the abstract line is titled by it); when no line is, the
    title is the whole page in one line. *)
Theorem title_of_first_page (page0 : str) :
  (forall first rest,
      first_page_lines (strip page0) = first :: rest ->
      stops_title first ->
      fst (_extract_title_and_abstract_from_pdf page0) = first)
  /\ (forall pre b rest,
        first_page_lines (strip page0) = pre ++ b :: rest ->
        pre <> [] ->
        Forall (fun l => ~ stops_title l) pre -> stops_title b ->
        fst (_extract_title_and_abstract_from_pdf page0)
        = strip (join [SP] pre))
  /\ (first_page_lines (strip page0) <> [] ->
      Forall (fun l => ~ stops_title l) (first_page_lines (strip page0)) ->
      fst (_extract_title_and_abstract_from_pdf page0)
      = strip (join [SP] (first_page_lines (strip page0)))).
Proof.
  split; [|split].
  - intros first rest E Hs.
    rewrite extract_by_lines by (rewrite E; discriminate).
    rewrite E.
    pose proof (title_parts_stop [] rest first (Forall_nil _) Hs) as Ht.
    cbn [app] in Ht. rewrite Ht. reflexivity.
  - intros pre b rest E Hne Hpre Hb.
    rewrite extract_by_lines by (rewrite E; destruct pre; discriminate).
    rewrite E, (title_parts_stop pre rest b Hpre Hb).
    destruct pre; [congruence | reflexivity].
  - intros Hne Hall.
    rewrite extract_by_lines by exact Hne.
    rewrite (title_parts_all _ Hall).
    destruct (first_page_lines (strip page0)); [congruence | reflexivity].
Qed.





End TitleAbstract.
(** ** Sanitizer, classifier, batch embedding *)

Section Composition.

Lemma sanitize_some (x : str) :
  _sanitize_text_for_db (Some x) = Some (filter db_keeps x).
Proof. reflexivity. Qed.

(** X6. The sanitizer applied to a text that it has produced changes
    nothing, and the sanitized concatenation of two texts is the
    concatenation of the sanitized texts: sanitizing the parts of a row or
    the whole gives the same characters. *)
Theorem sanitize_idempotent_and_additive (x y : str) :
  (forall x', _sanitize_text_for_db (Some x) = Some x' ->
              _sanitize_text_for_db (Some x') = Some x')
  /\ (exists x' y',
         _sanitize_text_for_db (Some x) = Some x'
         /\ _sanitize_text_for_db (Some y) = Some y'
         /\ _sanitize_text_for_db (Some (x ++ y)) = Some (x' ++ y')).
Proof.
  split.
  - intros x' H. rewrite sanitize_some in H. inversion H; subst x'.
    rewrite sanitize_some. f_equal. clear H.
    induction x as [|c x IH]; [reflexivity|].
    cbn [filter]. destruct (db_keeps c) eqn:E; [|exact IH].
    cbn [filter]. rewrite E, IH. reflexivity.
  - exists (filter db_keeps x), (filter db_keeps y).
    rewrite !sanitize_some, filter_app. auto.
Qed.


(** X7. A text that the classifier accepts holds a letter: a run of numbers,
    punctuation or blanks is never a chunk. *)
Theorem accepted_text_has_letter (content : str) :
  _is_proper_chunk_text content = true ->
  exists c, In c content /\ isalpha c = true.
Proof.
  intros H. apply proper_iff_accepts in H.
  destruct (accepted_has_cased _ H) as [c [Hin Hc]].
  exists c. split; [apply in_strip; exact Hin|].
  unfold islower_c, isupper_c, isalpha, between in *.
  repeat rewrite ?orb_true_iff, ?andb_true_iff, ?Nat.leb_le, ?Nat.eqb_eq in *.
  lia.
Qed.

End Composition.
(** ** Batch embedding of the chunks *)

Section BatchEmbedding.

Variable C : collaborators.

Lemma assign_embeddings_length (chunks : list (RAGChunk (vec C)))
  (vs : list (vec C)) :
  length (assign_embeddings chunks vs) = length chunks.
Proof.
  revert vs. induction chunks as [|c cs IH]; intros [|v vs]; try reflexivity.
  cbn [assign_embeddings length]. rewrite IH. reflexivity.
Qed.

Lemma assign_embeddings_map {A : Type} (f : RAGChunk (vec C) -> A)
  (chunks : list (RAGChunk (vec C))) (vs : list (vec C)) :
  (forall c v, f (set_embedding c v) = f c) ->
  map f (assign_embeddings chunks vs) = map f chunks.
Proof.
  intros Hf. revert vs.
  induction chunks as [|c cs IH]; intros [|v vs]; try reflexivity.
  cbn [assign_embeddings map]. rewrite Hf, IH. reflexivity.
Qed.

Lemma assign_embeddings_nth (chunks : list (RAGChunk (vec C)))
  (vs : list (vec C)) (i : nat) :
  nth_error (assign_embeddings chunks vs) i =
  match nth_error chunks i, nth_error vs i with
  | Some c, Some v => Some (set_embedding c v)
  | Some c, None => Some c
  | None, _ => None
  end.
Proof.
  revert vs i. induction chunks as [|c cs IH]; intros vs i.
  - destruct vs, i; reflexivity.
  - destruct vs as [|v vs].
    + cbn [assign_embeddings]. destruct (nth_error (c :: cs) i) eqn:E.
      * destruct i; reflexivity.
      * reflexivity.
    + destruct i as [|i]; [reflexivity|]. cbn [assign_embeddings nth_error].
      apply IH.
Qed.

Lemma assign_embeddings_Forall (P : RAGChunk (vec C) -> Prop)
  (chunks : list (RAGChunk (vec C))) (vs : list (vec C)) :
  (forall c v, P c -> P (set_embedding c v)) ->
  Forall P chunks -> Forall P (assign_embeddings chunks vs).
Proof.
  intros HP H. revert vs.
  induction H as [|c cs Hc Hcs IH]; intros [|v vs]; cbn [assign_embeddings];
    constructor; auto.
Qed.

Lemma embed_chunks_eq (document : Document (vec C))
  (chunks : list (RAGChunk (vec C))) (t : trace) :
  chunks <> [] ->
  embed_chunks C document chunks t =
  match embeddings_create C t (map content chunks) with
  | inl e => inl (External e)
  | inr vs =>
      inr (assign_embeddings chunks vs, t ++ [Embeddings (map content chunks)])
  end.
Proof.
  intros H. destruct chunks as [|c cs]; [congruence|].
  unfold embed_chunks, bind, embed.
  destruct (embeddings_create C t (map content (c :: cs))); reflexivity.
Qed.

Lemma embed_chunks_inr (document : Document (vec C))
  (chunks result : list (RAGChunk (vec C))) (t t' : trace) :
  embed_chunks C document chunks t = inr (result, t') ->
  exists vs,
    result = assign_embeddings chunks vs
    /\ t' = t ++ match chunks with
                 | [] => []
                 | _ :: _ => [Embeddings (map content chunks)]
                 end.
Proof.
  intros H. destruct chunks as [|c cs].
  - injection H as <- <-. exists []. rewrite app_nil_r. split; reflexivity.
  - rewrite embed_chunks_eq in H by discriminate.
    destruct (embeddings_create C t (map content (c :: cs))) as [e|vs];
      [discriminate|].
    injection H as <- <-. exists vs. split; reflexivity.
Qed.

(** X8. The batch embedding returns the chunks it was given, in their order,
    with their document, text and labels; it makes one request, for the
    texts of all chunks in order, and none when there is no chunk. *)
Theorem embed_chunks_keeps_chunks (document : Document (vec C))
  (chunks result : list (RAGChunk (vec C))) (t t' : trace) :
  embed_chunks C document chunks t = inr (result, t') ->
  length result = length chunks
  /\ map chunk_doc_id result = map chunk_doc_id chunks
  /\ map content result = map content chunks
  /\ map section result = map section chunks
  /\ map subsection result = map subsection chunks
  /\ t' = t ++ match chunks with
               | [] => []
               | _ :: _ => [Embeddings (map content chunks)]
               end.
Proof.
  intros H. apply embed_chunks_inr in H. destruct H as [vs [-> ->]].
  split; [apply assign_embeddings_length|].
  repeat split; apply assign_embeddings_map; intros; reflexivity.
Qed.

(** X9. The vectors of the reply are given to the chunks by position. A
    reply with fewer vectors than chunks is not an error: the chunks beyond
    the last vector are returned as they were given, and a reply with more
    vectors than chunks has its surplus dropped. *)
Theorem embed_chunks_by_position (document : Document (vec C))
  (chunks result : list (RAGChunk (vec C))) (t t' : trace) :
  embed_chunks C document chunks t = inr (result, t') ->
  chunks <> [] ->
  exists vs,
    embeddings_create C t (map content chunks) = inr vs
    /\ (forall i c v,
          nth_error chunks i = Some c -> nth_error vs i = Some v ->
          nth_error result i = Some (set_embedding c v))
    /\ (forall i, length vs <= i -> nth_error result i = nth_error chunks i)
    /\ (length chunks <= length vs ->
        Forall (fun c => embedding c <> None) result).
Proof.
  intros H Hne. rewrite embed_chunks_eq in H by exact Hne.
  destruct (embeddings_create C t (map content chunks)) as [e|vs];
    [discriminate|].
  injection H as Hr Ht. subst result t'. exists vs. split; [reflexivity|].
  split; [|split].
  - intros i c v Hc Hv. rewrite assign_embeddings_nth, Hc, Hv. reflexivity.
  - intros i Hi. rewrite assign_embeddings_nth.
    apply nth_error_None in Hi. rewrite Hi.
    destruct (nth_error chunks i); reflexivity.
  - intros Hlen. apply Forall_forall. intros c Hin.
    apply In_nth_error in Hin. destruct Hin as [i Hi].
    rewrite assign_embeddings_nth in Hi.
    destruct (nth_error chunks i) as [c0|] eqn:Ec; [|discriminate].
    destruct (nth_error vs i) as [v|] eqn:Ev.
    + inversion Hi; subst. discriminate.
    + exfalso. apply nth_error_None in Ev.
      assert (i < length chunks) by (apply nth_error_Some; congruence).
      lia.
Qed.

End BatchEmbedding.
(** ** What a processed document holds, and the calls made for it *)

Section Processed.

Variable C : collaborators.
Variable did : str.

Local Abbreviation state := (seg_state (vec C)).

(** A flush that returns either did nothing, or asked for the fact sentence
    of the trimmed text, emitted its chunks and emptied the buffer. *)
Lemma flush_cases (st st' : state) (t t' : trace) :
  flush C did st t = inr (st', t') ->
  (st' = st /\ t' = t)
  \/ exists combined u,
       combined = strip (join [SP] (section_content st))
       /\ combined <> []
       /\ t' = t ++ [ChatCompletion usage_system_prompt (usage_request combined)]
       /\ st' = set_chunks_sentences st
                  (chunks_out st ++ emitted C did st combined)
                  (if is_empty u then section_sentences st
                   else section_sentences st ++ [u]).
Proof.
  unfold flush.
  destruct (section_content st) as [|x l] eqn:Ec.
  - intros H. injection H as <- <-. left. split; reflexivity.
  - set (combined := strip (join [SP] (x :: l))).
    destruct (is_empty combined) eqn:Ee.
    + intros H. injection H as <- <-. left. split; reflexivity.
    + intros H. right. apply is_empty_false in Ee.
      apply bind_inr in H. destruct H as [u [t1 [Hu H]]].
      rewrite usage_line_call in Hu;
        [|exact Ee | unfold combined; rewrite strip_strip; exact Ee].
      destruct (chat_completions_create C t usage_system_prompt
                  (usage_request combined)) as [e|r]; [discriminate|].
      injection Hu as Hu Ht. injection H as Hs Ht'.
      exists combined, u. subst t1 t' st'.
      split; [reflexivity|]. split; [exact Ee|]. split; reflexivity.
Qed.

Lemma emitted_fresh (st : state) (combined : str) :
  Forall (fresh_chunk did) (emitted C did st combined).
Proof.
  unfold emitted. apply Forall_forall. intros c Hin.
  apply in_map_iff in Hin. destruct Hin as [x [<- Hx]].
  apply filter_In in Hx. destruct Hx as [_ Hx].
  apply andb_true_iff in Hx. destruct Hx as [_ Hx].
  split; [reflexivity|]. split; [reflexivity | exact Hx].
Qed.

Lemma calls_inv_same (t0 : trace) (st st' : state) (t : trace) :
  calls_inv C did t0 st t ->
  chunks_out st' = chunks_out st ->
  section_sentences st' = section_sentences st ->
  calls_inv C did t0 st' t.
Proof.
  intros [calls [Ht [Hu [Hc Hn]]]] Ec Es. exists calls.
  rewrite Ec, Es. auto.
Qed.

Lemma commit_part_sentences (st : state) :
  section_sentences (commit_part st) = section_sentences st
  /\ chunks_out (commit_part st) = chunks_out st.
Proof. unfold commit_part. destruct (current_part st); split; reflexivity. Qed.

Lemma calls_inv_flush (t0 : trace) (st st' : state) (t t' : trace) :
  calls_inv C did t0 st t ->
  flush C did st t = inr (st', t') ->
  calls_inv C did t0 st' t'.
Proof.
  intros Hinv H. apply flush_cases in H.
  destruct H as [[-> ->]|[combined [u [Ec [Hne [-> ->]]]]]]; [exact Hinv|].
  destruct Hinv as [calls [-> [Hu [Hc Hn]]]].
  exists (calls ++ [ChatCompletion usage_system_prompt (usage_request combined)]).
  split; [rewrite app_assoc; reflexivity|].
  split; [|split].
  - apply Forall_app. split; [exact Hu|]. constructor; [|constructor].
    exists combined. split; [exact Hne|]. split; [|reflexivity].
    rewrite Ec. apply strip_strip.
  - cbn [set_chunks_sentences chunks_out]. apply Forall_app.
    split; [exact Hc | apply emitted_fresh].
  - intros E. apply app_eq_nil in E. destruct E as [_ E]. discriminate.
Qed.

Lemma calls_inv_line (t0 : trace) (st st' : state) (line : str)
  (t t' : trace) :
  calls_inv C did t0 st t ->
  process_line C did st line t = inr (st', t') ->
  calls_inv C did t0 st' t'.
Proof.
  intros Hinv H. rewrite process_line_classify in H.
  destruct (classify (in_references st) (strip line)).
  - apply bind_inr in H. destruct H as [s1 [t1 [Hf H]]].
    injection H as <- <-.
    apply (calls_inv_same t0 s1); [|reflexivity|reflexivity].
    eapply calls_inv_flush; [|exact Hf].
    apply (calls_inv_same t0 st); [exact Hinv | |];
      apply commit_part_sentences.
  - apply bind_inr in H. destruct H as [s1 [t1 [Hf H]]].
    injection H as <- <-.
    apply (calls_inv_same t0 s1); [|reflexivity|reflexivity].
    eapply calls_inv_flush; [|exact Hf].
    apply (calls_inv_same t0 st); [exact Hinv | |].
    + destruct (commit_part_sentences (set_in_references false st))
        as [_ ->]. reflexivity.
    + destruct (commit_part_sentences (set_in_references false st))
        as [-> _]. reflexivity.
  - apply bind_inr in H. destruct H as [s1 [t1 [Hf H]]].
    injection H as <- <-.
    apply (calls_inv_same t0 s1); [|reflexivity|reflexivity].
    eapply calls_inv_flush; [|exact Hf].
    apply (calls_inv_same t0 st); [exact Hinv | |].
    + destruct (commit_part_sentences (set_in_references false st))
        as [_ ->]. reflexivity.
    + destruct (commit_part_sentences (set_in_references false st))
        as [-> _]. reflexivity.
  - injection H as <- <-.
    apply (calls_inv_same t0 st); [exact Hinv | reflexivity | reflexivity].
  - injection H as <- <-. exact Hinv.
Qed.

Lemma calls_inv_block (t0 : trace) (st st' : state) (block : str)
  (t t' : trace) :
  calls_inv C did t0 st t ->
  process_block C did st block t = inr (st', t') ->
  calls_inv C did t0 st' t'.
Proof.
  intros Hinv H. unfold process_block in H.
  apply bind_inr in H. destruct H as [s1 [t1 [Hl H]]].
  assert (H1 : calls_inv C did t0 s1 t1).
  { refine (foldM_inv C (process_line C did)
              (fun _ s tr => calls_inv C did t0 s tr)
              _ (split block [LF]) [] (set_current_part [] st) t s1 t1 _ Hl).
    - intros h a x ta a' ta' Ha Hx. eapply calls_inv_line; eassumption.
    - apply (calls_inv_same t0 st); [exact Hinv | reflexivity | reflexivity]. }
  injection H as <- <-.
  destruct (negb (in_references s1)); [|exact H1].
  apply (calls_inv_same t0 s1); [exact H1 | |]; apply commit_part_sentences.
Qed.

Lemma calls_inv_blocks (blocks : list str) (st : state) (t t' : trace) :
  process_blocks C did blocks (init_state C) t = inr (st, t') ->
  calls_inv C did t st t'.
Proof.
  intros H. unfold process_blocks in H.
  apply bind_inr in H. destruct H as [s1 [t1 [Hb H]]].
  assert (H1 : calls_inv C did t s1 t1).
  { refine (foldM_inv C (process_block C did)
              (fun _ s tr => calls_inv C did t s tr)
              _ blocks [] (init_state C) t s1 t1 _ Hb).
    - intros h a x ta a' ta' Ha Hx. eapply calls_inv_block; eassumption.
    - exists []. rewrite app_nil_r. split; [reflexivity|].
      split; [constructor|]. split; [constructor|]. intros _.
      split; reflexivity. }
  destruct (negb (in_references s1)).
  - eapply calls_inv_flush; eassumption.
  - injection H as <- <-. exact H1.
Qed.

(** The summary request and what it returns. *)
Lemma condense_cases (sentences : list str) (sm : str) (t t' : trace) :
  _condense_sentences_to_summary C sentences t = inr (sm, t') ->
  strip sm = sm
  /\ ((sentences = [] /\ sm = [] /\ t' = t)
      \/ (sentences <> []
          /\ exists request,
               t' = t ++ [ChatCompletion condense_system_prompt request])).
Proof.
  unfold _condense_sentences_to_summary.
  destruct sentences as [|s0 ss].
  - intros H. injection H as <- <-. split; [reflexivity|]. left. auto.
  - intros H. apply bind_inr in H. destruct H as [r [t1 [Hc H]]].
    injection H as <- <-. split; [apply strip_strip|]. right.
    split; [discriminate|].
    unfold chat in Hc.
    destruct (chat_completions_create C t condense_system_prompt _) as [e|r'];
      [discriminate|].
    injection Hc as _ <-. eexists. reflexivity.
Qed.

Lemma embed_text_cases (text : str) (e : option (vec C)) (t t' : trace) :
  _embed_text C text t = inr (e, t') ->
  (strip text = [] /\ e = None /\ t' = t)
  \/ (strip text <> [] /\ t' = t ++ [Embeddings [strip text]]).
Proof.
  unfold _embed_text.
  destruct (is_empty text || is_empty (strip text)) eqn:E.
  - intros H. injection H as <- <-. left.
    split; [|split; reflexivity].
    apply orb_true_iff in E. destruct E as [E|E]; apply is_empty_true in E.
    + subst text. reflexivity.
    + exact E.
  - intros H. right. apply orb_false_iff in E. destruct E as [_ E].
    apply is_empty_false in E. split; [exact E|].
    apply bind_inr in H. destruct H as [data [t1 [He H]]].
    injection H as _ <-. unfold embed in He.
    destruct (embeddings_create C t [strip text]); [discriminate|].
    injection He as _ <-. reflexivity.
Qed.

Lemma process_document_fresh (ttl : str) (pages : list str)
  (d : Document (vec C)) (cs : list (RAGChunk (vec C))) (t t' : trace) :
  process_document C did ttl pages t = inr ((d, cs), t') ->
  doc_id d = did /\ arxiv_id d = did /\ Forall (fresh_chunk did) cs.
Proof.
  intros H. unfold process_document in H.
  destruct pages as [|p0 rest]; [discriminate|].
  apply bind_inr in H. destruct H as [st [t1 [Hb H]]].
  apply bind_inr in H. destruct H as [sm [t2 [Hs H]]].
  apply bind_inr in H. destruct H as [em [t3 [He H]]].
  injection H as <- <- <-.
  apply calls_inv_blocks in Hb. destruct Hb as [calls [_ [_ [Hc _]]]].
  repeat split; auto.
Qed.

(** X10. The document that [process_document] returns carries the
    identifier twice and the title it was given; its summary is trimmed, and
    an empty summary has no embedding. Every chunk returned belongs to the
    document, has no embedding yet, and has a text that the classifier
    accepts. *)
Theorem process_document_result (ttl : str) (pages : list str)
  (d : Document (vec C)) (cs : list (RAGChunk (vec C))) (t t' : trace) :
  process_document C did ttl pages t = inr ((d, cs), t') ->
  doc_id d = did /\ arxiv_id d = did /\ title d = ttl
  /\ strip (document_summary d) = document_summary d
  /\ (document_summary d = [] -> document_summary_embedding d = None)
  /\ Forall (fresh_chunk did) cs.
Proof.
  intros H. unfold process_document in H.
  destruct pages as [|p0 rest]; [discriminate|].
  apply bind_inr in H. destruct H as [st [t1 [Hb H]]].
  apply bind_inr in H. destruct H as [sm [t2 [Hs H]]].
  apply bind_inr in H. destruct H as [em [t3 [He H]]].
  injection H as <- <- <-. cbn.
  apply condense_cases in Hs. destruct Hs as [Hsm _].
  apply calls_inv_blocks in Hb. destruct Hb as [calls [_ [_ [Hc _]]]].
  repeat split; auto.
  intros E. subst sm. apply embed_text_cases in He.
  destruct He as [[_ [-> _]]|[Hne _]]; [reflexivity|].
  exfalso. apply Hne. reflexivity.
Qed.

(** X11. The calls that [process_document] makes, in their order: the
    requests for fact sentences, each for a trimmed and non-empty text; then
    at most one request for the summary; then at most one request for the
    embedding of the summary alone. Without a fact request there is no chunk,
    no summary request and no embedding request; without a summary request
    the summary is empty and is not embedded; the chunks are not embedded
    here. *)
Theorem process_document_calls (ttl : str) (pages : list str)
  (d : Document (vec C)) (cs : list (RAGChunk (vec C))) (t t' : trace) :
  process_document C did ttl pages t = inr ((d, cs), t') ->
  exists usage condense emb,
    t' = t ++ usage ++ condense ++ emb
    /\ Forall usage_call usage
    /\ (condense = []
        \/ exists request,
             condense = [ChatCompletion condense_system_prompt request])
    /\ (emb = [] \/ emb = [Embeddings [document_summary d]])
    /\ (usage = [] -> cs = [] /\ condense = [])
    /\ (condense = [] -> document_summary d = [] /\ emb = [])
    /\ (emb = [] -> document_summary_embedding d = None).
Proof.
  intros H. unfold process_document in H.
  destruct pages as [|p0 rest]; [discriminate|].
  apply bind_inr in H. destruct H as [st [t1 [Hb H]]].
  apply bind_inr in H. destruct H as [sm [t2 [Hs H]]].
  apply bind_inr in H. destruct H as [em [t3 [He H]]].
  injection H as <- <- <-. cbn [document_summary document_summary_embedding].
  apply calls_inv_blocks in Hb. destruct Hb as [usage [-> [Hu [_ Hn]]]].
  apply condense_cases in Hs. destruct Hs as [Hsm Hs].
  apply embed_text_cases in He. rewrite Hsm in He.
  exists usage.
  destruct Hs as [[Es [-> ->]]|[Hne [request ->]]].
  - exists [], [].
    destruct He as [[_ [-> ->]]|[Hne _]]; [|exfalso; apply Hne; reflexivity].
    rewrite !app_nil_r. split; [reflexivity|].
    split; [exact Hu|]. split; [left; reflexivity|].
    split; [left; reflexivity|].
    split; [|split; [split; reflexivity | reflexivity]].
    intros E. split; [apply Hn; exact E | reflexivity].
  - exists [ChatCompletion condense_system_prompt request].
    destruct He as [[E [-> ->]]|[Hne' ->]].
    + exists []. rewrite app_nil_r.
      split; [rewrite <- ?app_assoc; reflexivity|].
      split; [exact Hu|]. split; [right; eexists; reflexivity|].
      split; [left; reflexivity|].
      split; [|split; [discriminate | reflexivity]].
      intros E'. destruct (Hn E') as [E1 _]. contradiction.
    + exists [Embeddings [sm]].
      split; [rewrite <- ?app_assoc; reflexivity|].
      split; [exact Hu|]. split; [right; eexists; reflexivity|].
      split; [right; reflexivity|].
      split; [|split; discriminate].
      intros E'. destruct (Hn E') as [E1 _]. contradiction.
Qed.

End Processed.
(** ** Edge behaviour of the segmentation *)

Section Edges.

Variable C : collaborators.
Variable did : str.

Local Abbreviation state := (seg_state (vec C)).

Lemma blocks_of_blank (pages : list str) :
  Forall all_space pages -> blocks_of pages = [].
Proof.
  intros H. unfold blocks_of.
  assert (H0 : strip (hd [] pages) = []).
  { apply strip_nil_iff. destruct H; [constructor | assumption]. }
  rewrite H0.
  assert (Hr : strip (join [LF; LF] (map strip (tl pages))) = []).
  { apply strip_nil_iff. apply join_all_space; [repeat constructor|].
    apply Forall_forall. intros l Hl. apply in_map_iff in Hl.
    destruct Hl as [x [<- Hx]].
    assert (Hs : strip x = []).
    { apply strip_nil_iff. rewrite Forall_forall in H. apply H.
      destruct pages; [contradiction | right; exact Hx]. }
    rewrite Hs. constructor. }
  rewrite Hr. reflexivity.
Qed.

(** X12. A document without a page ends with the index error of the
    first-page access. A document whose pages are all blank is processed
    without any call: it has no chunk, an empty summary and no embedding. *)
Theorem blank_document (ttl : str) (pages : list str) (t : trace) :
  process_document C did ttl [] t = inl IndexError
  /\ (pages <> [] -> Forall all_space pages ->
      process_document C did ttl pages t
      = inr ((mkDocument did did ttl [] None, []), t)).
Proof.
  split; [reflexivity|].
  intros Hne Hb. unfold process_document.
  destruct pages as [|p0 rest]; [congruence|].
  rewrite (blocks_of_blank _ Hb). reflexivity.
Qed.

Lemma foldM_fixed {A B : Type} (f : A -> B -> M (exn C) A) (l : list B)
  (a : A) (t : trace) :
  Forall (fun x => f a x t = inr (a, t)) l -> foldM f l a t = inr (a, t).
Proof.
  induction 1 as [|x l Hx _ IH]; [reflexivity|].
  cbn [foldM]. unfold bind. rewrite Hx. exact IH.
Qed.

(** X13. Inside the references, a block without an appendix header is
    dropped as a whole: no call is made, nothing is buffered or emitted, and
    the state is the one before the block, with the lines of the block
    forgotten. *)
Theorem references_block_discarded (st : state) (block : str) (t : trace) :
  in_references st = true ->
  Forall (fun line => _is_appendix_header (strip line) = false)
    (split block [LF]) ->
  process_block C did st block t = inr (set_current_part [] st, t).
Proof.
  intros Hr Hl. unfold process_block, bind.
  rewrite (foldM_fixed (process_line C did) (split block [LF])
             (set_current_part [] st) t).
  - cbn [set_current_part in_references]. rewrite Hr. reflexivity.
  - eapply Forall_impl; [|exact Hl]. intros line Hline.
    apply references_state_discards; [exact Hr | exact Hline].
Qed.

(** X14. A flush that has returned leaves nothing to flush: a second flush
    right after it makes no call and changes nothing. *)
Theorem flush_twice (st st' : state) (t t' : trace) :
  flush C did st t = inr (st', t') ->
  flush C did st' t' = inr (st', t').
Proof.
  intros H. destruct (flush_cases C did _ _ _ _ H)
    as [[-> ->]|[combined [u [_ [_ [_ ->]]]]]].
  - exact H.
  - reflexivity.
Qed.

End Edges.
(** ** The store and the loop over the documents *)

Section Batch.

Variable E : environment.

Lemma alpha_kept (c : ascii) : isalpha c = true -> db_keeps c = true.
Proof.
  intros H. unfold db_keeps.
  assert (Ho : 65 <= ord c).
  { unfold isalpha, between in H.
    repeat rewrite ?orb_true_iff, ?andb_true_iff, ?Nat.leb_le, ?Nat.eqb_eq in H.
    lia. }
  apply andb_true_iff. split.
  - apply negb_true_iff. apply Ascii.eqb_neq. intros ->.
    vm_compute in Ho. lia.
  - apply orb_true_iff. left. apply Nat.leb_le. lia.
Qed.

Lemma sanitized_clean (x : str) : db_clean (sanitized_or_empty x).
Proof.
  unfold sanitized_or_empty. rewrite sanitize_some. cbn [or_empty].
  eapply purged_clean. apply sanitize_purged.
Qed.

Lemma sanitized_opt_clean (x : option str) :
  db_clean_opt (_sanitize_text_for_db x).
Proof.
  destruct x as [x|]; [|exact I]. rewrite sanitize_some. cbn [db_clean_opt].
  eapply purged_clean. apply sanitize_purged.
Qed.

(** The row of a chunk that the classifier accepts. *)
Lemma chunk_row_of_ok (id : str) (c : RAGChunk (vec (env_collaborators E))) :
  chunk_doc_id c = id ->
  _is_proper_chunk_text (content c) = true ->
  chunk_row_ok id (chunk_row_of c).
Proof.
  intros Hid Hp. unfold chunk_row_ok, chunk_row_of.
  cbn [crow_doc_id crow_content crow_section crow_subsection].
  split; [exact Hid|]. split; [|split; [apply sanitized_clean|split;
    apply sanitized_opt_clean]].
  apply proper_iff_accepts in Hp.
  destruct (accepted_has_cased _ Hp) as [a [Hin Ha]].
  apply in_strip in Hin.
  assert (Hk : db_keeps a = true).
  { apply alpha_kept.
    unfold islower_c, isupper_c, isalpha, between in *.
    repeat rewrite ?orb_true_iff, ?andb_true_iff, ?Nat.leb_le,
      ?Nat.eqb_eq in *.
    lia. }
  unfold sanitized_or_empty. rewrite sanitize_some. cbn [or_empty].
  intros En.
  assert (Hf : In a (filter db_keeps (content c)))
    by (apply filter_In; split; assumption).
  rewrite En in Hf. exact Hf.
Qed.


Lemma store_document_cases (d : Document (vec (env_collaborators E)))
  (log : list (request (vec (env_collaborators E)))) :
  (exists e, store_document (env_storage E) d log = (inl e, log))
  \/ store_document (env_storage E) d log
     = (inr tt, log ++ [Upsert (py "documents") (document_row_of d)
                          (py "doc_id")]).
Proof.
  unfold store_document, send.
  destruct (execute (env_storage E) log _) as [e|];
    [left; exists e; reflexivity | right; reflexivity].
Qed.

Lemma store_chunks_cases (cs : list (RAGChunk (vec (env_collaborators E))))
  (log : list (request (vec (env_collaborators E)))) :
  match cs with
  | [] => store_chunks (env_storage E) cs log = (inr tt, log)
  | first :: _ =>
      (exists e, store_chunks (env_storage E) cs log = (inl e, log))
      \/ (exists e,
             store_chunks (env_storage E) cs log
             = (inl e,
                log ++ [DeleteEq (py "chunks") (py "doc_id")
                          (chunk_doc_id first)]))
      \/ store_chunks (env_storage E) cs log
         = (inr tt,
            log ++ [DeleteEq (py "chunks") (py "doc_id") (chunk_doc_id first);
                    Insert (py "chunks") (map chunk_row_of cs)])
  end.
Proof.
  destruct cs as [|first rest]; [reflexivity|].
  unfold store_chunks, db_bind, send.
  destruct (execute (env_storage E) log _) as [e|];
    [left; exists e; reflexivity|].
  destruct (execute (env_storage E) (log ++ _) _) as [e|].
  - right. left. exists e. reflexivity.
  - right. right. rewrite <- app_assoc. reflexivity.
Qed.

(** What one iteration of the loop does, step by step. *)
Lemma process_and_store_doc_inv (doc_path : str) (w w' : world E)
  (r : batch_error E + unit) :
  process_and_store_doc E doc_path w = (r, w') ->
  (snd w' = snd w
   /\ exists e, r = inl e
      /\ match e with StoreFailed _ => False | _ => True end)
  \/ exists d cs cs' t1 t2,
       process_document (env_collaborators E) (_arxiv_id_from_path doc_path)
         (fst (_extract_title_and_abstract_from_pdf
                 (hd [] match extract_pages E doc_path with
                        | inr pages => pages
                        | inl _ => []
                        end)))
         match extract_pages E doc_path with
         | inr pages => pages
         | inl _ => []
         end (fst w)
       = inr ((d, cs), t1)
       /\ embed_chunks (env_collaborators E) d cs t1 = inr (cs', t2)
       /\ exists r1 log1,
            store_document (env_storage E) d (snd w) = (r1, log1)
            /\ match r1 with
               | inl e => r = inl (StoreFailed e) /\ snd w' = log1
               | inr _ =>
                   exists r2 log2,
                     store_chunks (env_storage E) cs' log1 = (r2, log2)
                     /\ snd w' = log2
                     /\ r = match r2 with
                            | inl e => inl (StoreFailed e)
                            | inr _ => inr tt
                            end
               end.
Proof.
  unfold process_and_store_doc, process_document_at, batch_bind,
    read_document, lift_calls, lift_store.
  destruct (extract_pages E doc_path) as [e|pages].
  { intros H. injection H as <- <-. left. split; [reflexivity|].
    eexists. split; [reflexivity | exact I]. }
  cbn [fst snd].
  destruct (process_document _ _ _ pages (fst w)) as [e|[[d cs] t1]] eqn:Ep.
  { intros H. injection H as <- <-. left. split; [reflexivity|].
    eexists. split; [reflexivity | exact I]. }
  cbn [fst snd].
  destruct (embed_chunks (env_collaborators E) d cs t1) as [e|[cs' t2]] eqn:Ee.
  { intros H. injection H as <- <-. left. split; [reflexivity|].
    eexists. split; [reflexivity | exact I]. }
  cbn [fst snd]. intros H. right. exists d, cs, cs', t1, t2.
  split; [reflexivity|]. split; [exact Ee|].
  destruct (store_document (env_storage E) d (snd w)) as [[e|[]] log1] eqn:Es.
  - exists (inl e), log1. split; [reflexivity|].
    injection H as <- <-. split; reflexivity.
  - exists (inr tt), log1. split; [reflexivity|]. cbn [fst snd] in H.
    destruct (store_chunks (env_storage E) cs' log1) as [[e|[]] log2] eqn:Ec.
    + exists (inl e), log2. injection H as <- <-. repeat split.
    + exists (inr tt), log2. injection H as <- <-. repeat split.
Qed.


Lemma stored_rows_ok (doc_path : str) (w : world E)
  (d : Document (vec (env_collaborators E)))
  (cs cs' : list (RAGChunk (vec (env_collaborators E)))) (ttl : str)
  (pages : list str) (t1 t2 : trace) :
  process_document (env_collaborators E) (_arxiv_id_from_path doc_path)
    ttl pages (fst w) = inr ((d, cs), t1) ->
  embed_chunks (env_collaborators E) d cs t1 = inr (cs', t2) ->
  document_row_ok (_arxiv_id_from_path doc_path) (document_row_of d)
  /\ Forall (fun c => chunk_doc_id c = _arxiv_id_from_path doc_path) cs'
  /\ Forall (chunk_row_ok (_arxiv_id_from_path doc_path))
       (map chunk_row_of cs').
Proof.
  intros Hp He.
  apply process_document_fresh in Hp. destruct Hp as [Hd [Ha Hc]].
  apply embed_chunks_inr in He. destruct He as [vs [-> _]].
  assert (Hf : Forall (fun c => chunk_doc_id c = _arxiv_id_from_path doc_path
                                /\ _is_proper_chunk_text (content c) = true)
                 (assign_embeddings cs vs)).
  { apply assign_embeddings_Forall; [intros c v H; exact H|].
    eapply Forall_impl; [|exact Hc]. intros c [H1 [_ H2]]. auto. }
  split; [|split].
  - unfold document_row_ok, document_row_of.
    cbn [row_doc_id row_arxiv_id row_title row_document_summary].
    repeat split; auto using sanitized_clean.
  - eapply Forall_impl; [|exact Hf]. intros c [H _]. exact H.
  - apply Forall_map. eapply Forall_impl; [|exact Hf].
    intros c [H1 H2]. apply chunk_row_of_ok; assumption.
Qed.



(** X16. A document that fails. When the file cannot be read, or the
    processing or the embedding ends with an error, no request is sent to the
    store. When the store fails, the requests carried out before the failure
    stay: nothing, or the upsert of the row of the document alone, or the
    upsert and the deletion of the chunks stored under the identifier
    without any insertion. *)
Theorem failed_document_requests (doc_path : str) (w w' : world E)
  (e : batch_error E) :
  process_and_store_doc E doc_path w = (inl e, w') ->
  match e with
  | StoreFailed _ =>
      exists row,
        document_row_ok (_arxiv_id_from_path doc_path) row
        /\ (snd w' = snd w
            \/ snd w' = snd w ++ [Upsert (py "documents") row (py "doc_id")]
            \/ snd w'
               = snd w
                 ++ [Upsert (py "documents") row (py "doc_id");
                     DeleteEq (py "chunks") (py "doc_id")
                       (_arxiv_id_from_path doc_path)])
  | _ => snd w' = snd w
  end.
Proof.
  intros H. apply process_and_store_doc_inv in H.
  destruct H as [[Hw [e' [H He]]]|[d [cs [cs' [t1 [t2 [Hp [He H]]]]]]]].
  { injection H as <-. destruct e; [exact Hw | exact Hw | contradiction]. }
  destruct (stored_rows_ok doc_path w d cs cs' _ _ t1 t2 Hp He)
    as [Hrow [Hid _]].
  destruct H as [r1 [log1 [Hs H]]].
  destruct (store_document_cases d (snd w)) as [[e1 Hs']|Hs'];
    rewrite Hs' in Hs;
    pose proof (f_equal fst Hs) as Hr1; pose proof (f_equal snd Hs) as Hl1;
    cbn [fst snd] in Hr1, Hl1; subst r1 log1.
  - destruct H as [H Hw]. injection H as ->.
    exists (document_row_of d). split; [exact Hrow|]. left. exact Hw.
  - destruct H as [r2 [log2 [Hc [Hw Hr]]]].
    destruct r2 as [e2|[]]; [|discriminate]. injection Hr as ->.
    exists (document_row_of d). split; [exact Hrow|].
    pose proof (store_chunks_cases cs'
                  (snd w ++ [Upsert (py "documents") (document_row_of d)
                               (py "doc_id")])) as Hcases.
    destruct cs' as [|first rest].
    + rewrite Hcases in Hc. discriminate.
    + pose proof (Forall_inv Hid) as Hfirst. cbn beta in Hfirst.
      destruct Hcases as [[e Hc']|[[e Hc']|Hc']]; rewrite Hc' in Hc;
        try discriminate;
        apply (f_equal snd) in Hc; cbn [snd] in Hc; subst log2; rewrite Hw.
      * right. left. reflexivity.
      * right. right. rewrite Hfirst, <- app_assoc. reflexivity.
Qed.

Lemma process_and_store_docs_app (before after : list str) (w : world E) :
  process_and_store_docs E (before ++ after) w
  = match process_and_store_docs E before w with
    | (inl e, w1) => (inl e, w1)
    | (inr _, w1) => process_and_store_docs E after w1
    end.
Proof.
  revert w. induction before as [|p before IH]; intros w; [reflexivity|].
  cbn [app process_and_store_docs]. unfold batch_bind.
  destruct (process_and_store_doc E p w) as [[e|[]] w1]; [reflexivity|].
  apply IH.
Qed.

Lemma store_document_extends (d : Document (vec (env_collaborators E)))
  (log log' : list (request (vec (env_collaborators E))))
  (r : store_exn (env_storage E) + unit) :
  store_document (env_storage E) d log = (r, log') ->
  exists reqs, log' = log ++ reqs.
Proof.
  intros H. destruct (store_document_cases d log) as [[e H']|H'];
    rewrite H' in H; apply (f_equal snd) in H; cbn [snd] in H; subst log'.
  - exists []. rewrite app_nil_r. reflexivity.
  - eexists. reflexivity.
Qed.

Lemma store_chunks_extends (cs : list (RAGChunk (vec (env_collaborators E))))
  (log log' : list (request (vec (env_collaborators E))))
  (r : store_exn (env_storage E) + unit) :
  store_chunks (env_storage E) cs log = (r, log') ->
  exists reqs, log' = log ++ reqs.
Proof.
  intros H. pose proof (store_chunks_cases cs log) as Hc.
  destruct cs as [|first rest].
  - rewrite Hc in H. apply (f_equal snd) in H. cbn [snd] in H. subst log'.
    exists []. rewrite app_nil_r. reflexivity.
  - destruct Hc as [[e H']|[[e H']|H']]; rewrite H' in H;
      apply (f_equal snd) in H; cbn [snd] in H; subst log'.
    + exists []. rewrite app_nil_r. reflexivity.
    + eexists. reflexivity.
    + eexists. reflexivity.
Qed.

Lemma doc_log_extends (doc_path : str) (w w' : world E)
  (r : batch_error E + unit) :
  process_and_store_doc E doc_path w = (r, w') ->
  exists reqs, snd w' = snd w ++ reqs.
Proof.
  intros H. apply process_and_store_doc_inv in H.
  destruct H as [[Hw _]|[d [cs [cs' [t1 [t2 [_ [_ H]]]]]]]].
  { exists []. rewrite app_nil_r. exact Hw. }
  destruct H as [r1 [log1 [Hs H]]].
  apply store_document_extends in Hs. destruct Hs as [q1 ->].
  destruct r1 as [e|[]].
  - destruct H as [_ ->]. exists q1. reflexivity.
  - destruct H as [r2 [log2 [Hc [-> _]]]].
    apply store_chunks_extends in Hc. destruct Hc as [q2 ->].
    exists (q1 ++ q2). rewrite app_assoc. reflexivity.
Qed.

Lemma docs_log_extends (documents : list str) (w w' : world E)
  (r : batch_error E + unit) :
  process_and_store_docs E documents w = (r, w') ->
  exists reqs, snd w' = snd w ++ reqs.
Proof.
  revert w. induction documents as [|p documents IH]; intros w H.
  - injection H as _ <-. exists []. rewrite app_nil_r. reflexivity.
  - cbn [process_and_store_docs] in H. unfold batch_bind in H.
    destruct (process_and_store_doc E p w) as [[e|[]] w1] eqn:E1.
    + injection H as _ <-. eapply doc_log_extends. exact E1.
    + apply doc_log_extends in E1. destruct E1 as [q1 E1].
      apply IH in H. destruct H as [q2 H].
      exists (q1 ++ q2). rewrite H, E1, app_assoc. reflexivity.
Qed.

(** X17. The loop stops at the first document that fails: the batch ends
    with the failure of that document, whatever documents come after it,
    and the requests carried out for the documents before it, and for the
    failed document until its failure, stay in the store. *)
Theorem batch_stops_at_first_failure (before after : list str)
  (doc_path : str) (w w1 w2 : world E) (e : batch_error E) :
  process_and_store_docs E before w = (inr tt, w1) ->
  process_and_store_doc E doc_path w1 = (inl e, w2) ->
  process_and_store_docs E (before ++ doc_path :: after) w = (inl e, w2)
  /\ exists stored partial,
       snd w1 = snd w ++ stored /\ snd w2 = snd w1 ++ partial.
Proof.
  intros Hb Hd. split.
  - rewrite process_and_store_docs_app, Hb.
    cbn [process_and_store_docs]. unfold batch_bind. rewrite Hd. reflexivity.
  - apply docs_log_extends in Hb. destruct Hb as [stored Hb].
    apply doc_log_extends in Hd. destruct Hd as [partial Hd].
    exists stored, partial. split; assumption.
Qed.


End Batch.
(** ** The fact sentence of a section *)

Section FactSentence.

Variable C : collaborators.

Lemma split_aux_head (cur s : str) :
  exists r, hd [] (split_aux [LF] 0 cur s) = rev cur ++ r.
Proof.
  revert cur. induction s as [|a s IH]; intros cur.
  - exists []. cbn. rewrite app_nil_r. reflexivity.
  - cbn [split_aux]. destruct (startswith (a :: s) [LF]).
    + exists []. cbn [hd]. rewrite app_nil_r. reflexivity.
    + destruct (IH (a :: cur)) as [r Hr]. exists (a :: r).
      rewrite Hr. cbn [rev]. rewrite <- app_assoc. reflexivity.
Qed.

(** The first line of a trimmed text that is not empty is not blank. *)
Lemma first_line_not_blank (line : str) :
  line <> [] -> lstrip line = line ->
  strip (hd [] (split line [LF])) <> [].
Proof.
  intros Hne Hl. destruct line as [|c rest]; [congruence|].
  apply lstrip_fixed_head in Hl.
  unfold split. cbn [split_aux].
  assert (Hs : startswith (c :: rest) [LF] = false).
  { destruct (startswith (c :: rest) [LF]) eqn:E; [|reflexivity].
    apply startswith_iff in E. destruct E as [r E].
    injection E as -> _. vm_compute in Hl. discriminate. }
  rewrite Hs. destruct (split_aux_head [c] rest) as [r ->].
  cbn [rev app]. intros H. apply strip_nil_iff in H.
  inversion H as [|? ? Hc _]; subst. congruence.
Qed.

(** X19. The fact sentence of a section. For a blank text it is empty and
    no request is made. Otherwise one request is made, which carries at most
    the first 8000 characters of the text after a fixed heading and a line
    feed; of the
    reply only the first line is kept, trimmed, so the sentence is trimmed
    and holds no line feed, and it is empty exactly when the reply is absent
    or blank. *)
Theorem usage_line_shape (text u : str) (t t' : trace) :
  _extract_section_usage_line C text t = inr (u, t') ->
  one_trimmed_line u
  /\ length (usage_request text) <= length (py "Section text:") + 1 + 8000
  /\ ((strip text = [] /\ u = [] /\ t' = t)
      \/ (strip text <> []
          /\ t' = t ++ [ChatCompletion usage_system_prompt
                          (usage_request text)]
          /\ exists reply,
               chat_completions_create C t usage_system_prompt
                 (usage_request text) = inr reply
               /\ u = strip (hd [] (split (strip (or_empty reply)) [LF]))
               /\ (u = [] <-> strip (or_empty reply) = []))).
Proof.
  intros H.
  assert (Hlen : length (usage_request text)
                 <= length (py "Section text:") + 1 + 8000).
  { unfold usage_request. rewrite !length_app, length_firstn.
    rewrite <- Nat.add_assoc. apply Nat.add_le_mono_l.
    apply Nat.add_le_mono; [apply Nat.le_refl | apply Nat.le_min_l]. }
  destruct (strip text) as [|c0 r0] eqn:Es.
  - unfold _extract_section_usage_line in H. rewrite Es in H.
    rewrite orb_true_r in H. injection H as <- <-.
    split; [split; [reflexivity | intros []]|].
    split; [exact Hlen|]. left. auto.
  - assert (Hne : text <> []) by (intros ->; discriminate).
    rewrite usage_line_call in H; [|exact Hne | rewrite Es; discriminate].
    destruct (chat_completions_create C t usage_system_prompt
                (usage_request text)) as [e|reply] eqn:Er; [discriminate|].
    cbn zeta in H. injection H as Hu <-.
    assert (Hcases :
              u = strip (hd [] (split (strip (or_empty reply)) [LF]))
              /\ (u = [] <-> strip (or_empty reply) = [])).
    { destruct (strip (or_empty reply)) as [|c r] eqn:El.
      - cbn in Hu. subst u. split; [reflexivity|]. tauto.
      - cbn [is_empty] in Hu. subst u. split; [reflexivity|].
        split; [|discriminate]. intros H. exfalso.
        apply (first_line_not_blank (c :: r)); [discriminate | | exact H].
        rewrite <- El. apply lstrip_strip. }
    destruct Hcases as [Hu' Hiff].
    split; [|split; [exact Hlen|]].
    + rewrite Hu'. split; [apply strip_strip|].
      intros Hin. apply in_strip in Hin.
      pose proof (split_no_sep LF (strip (or_empty reply))) as Hs.
      unfold split in *.
      destruct (split_aux [LF] 0 [] (strip (or_empty reply))) as [|x l];
        [exact Hin|].
      inversion Hs as [|? ? Hx _]; subst. exact (Hx Hin).
    + right. split; [discriminate|]. split; [reflexivity|].
      exists reply. auto.
Qed.

End FactSentence.
(** ** The further properties on the samples *)

Section MoreRuns.

Import Samples StoreSamples.

(** X1, on the path of the sample paper. *)
Lemma arxiv_id_of_file_witness :
  _arxiv_id_from_path (py "documents/2005.11401v4.pdf") = py "2005.11401v4"
  /\ _arxiv_id_from_path (py "2005.11401v4.pdf") = py "2005.11401v4".
Proof.
  assert (H1 : ~ In "/"%char (py "2005.11401v4"))
    by (intros H; cbv in H; intuition discriminate).
  assert (H2 : ~ In "/"%char (py "pdf"))
    by (intros H; cbv in H; intuition discriminate).
  assert (H3 : ~ In "."%char (py "pdf"))
    by (intros H; cbv in H; intuition discriminate).
  assert (H4 : exists c, In c (py "2005.11401v4") /\ c <> "."%char)
    by (exists "2"%char; split; [left; reflexivity | discriminate]).
  exact (arxiv_id_of_file (py "documents") (py "2005.11401v4") (py "pdf")
           H1 H2 H3 H4).
Defined.

(** X7, on the first sample sentence. *)
Lemma accepted_text_has_letter_witness :
  exists c, In c prose1 /\ isalpha c = true.
Proof. apply accepted_text_has_letter. vm_compute. reflexivity. Defined.

(** X8, on two chunks and an embedder that returns one vector. *)
Lemma embed_chunks_keeps_chunks_witness :
  exists result t',
    embed_chunks one_vector (mkDocument did did ttl [] None) two_chunks []
    = inr (result, t')
    /\ length result = 2
    /\ map content result = [prose1; prose2]
    /\ t' = [Embeddings [prose1; prose2]].
Proof.
  destruct (embed_chunks one_vector (mkDocument did did ttl [] None)
              two_chunks []) as [e|[result t']] eqn:E;
    [vm_compute in E; discriminate|].
  destruct (embed_chunks_keeps_chunks one_vector _ _ _ _ _ E)
    as [Hl [_ [Hc [_ [_ Ht]]]]].
  exists result, t'. split; [reflexivity|].
  split; [exact Hl|]. split; [exact Hc | exact Ht].
Defined.

(** X9, on the same chunks: the second chunk gets no vector and is
    returned as it was. *)
Lemma embed_chunks_by_position_witness :
  exists result t',
    embed_chunks one_vector (mkDocument did did ttl [] None) two_chunks []
    = inr (result, t')
    /\ nth_error result 1 = nth_error two_chunks 1.
Proof.
  destruct (embed_chunks one_vector (mkDocument did did ttl [] None)
              two_chunks []) as [e|[result t']] eqn:E;
    [vm_compute in E; discriminate|].
  assert (Hne : two_chunks <> []) by discriminate.
  destruct (embed_chunks_by_position one_vector _ _ _ _ _ E Hne)
    as [vs [Hv [_ [Htail _]]]].
  exists result, t'. split; [reflexivity|].
  apply Htail. cbv in Hv. injection Hv as <-. cbn. lia.
Defined.

(** X10, on the one-page sample. *)
Lemma process_document_result_witness :
  exists d cs t,
    process_document demo did ttl [page_plain] [] = inr ((d, cs), t)
    /\ doc_id d = did /\ title d = ttl
    /\ Forall (fresh_chunk did) cs.
Proof.
  destruct (process_document demo did ttl [page_plain] [])
    as [e|[[d cs] t]] eqn:E; [vm_compute in E; discriminate|].
  destruct (process_document_result demo did ttl _ _ _ _ _ E)
    as [H1 [_ [H3 [_ [_ H6]]]]].
  exists d, cs, t. auto.
Defined.

(** X11, on the sample with sections. *)
Lemma process_document_calls_witness :
  exists d cs t usage condense emb,
    process_document demo did ttl [page_sections] [] = inr ((d, cs), t)
    /\ t = [] ++ usage ++ condense ++ emb
    /\ Forall usage_call usage
    /\ (emb = [] \/ emb = [Embeddings [document_summary d]]).
Proof.
  destruct (process_document demo did ttl [page_sections] [])
    as [e|[[d cs] t]] eqn:E; [vm_compute in E; discriminate|].
  destruct (process_document_calls demo did ttl _ _ _ _ _ E)
    as [usage [condense [emb [H1 [H2 [_ [H4 _]]]]]]].
  exists d, cs, t, usage, condense, emb. auto.
Defined.

(** X13, on a block of two reference entries. *)
Lemma references_block_discarded_witness :
  process_block demo did (set_in_references true (init_state demo))
    (lines_text ["[1] Smith et al."; "1 Introduction"]%string) []
  = inr (set_current_part [] (set_in_references true (init_state demo)), []).
Proof.
  apply references_block_discarded; [reflexivity|].
  vm_compute. repeat constructor.
Defined.

(** X14, on the buffered sample sentence. *)
Lemma flush_twice_witness :
  exists st' t',
    flush demo did (buffered demo) [] = inr (st', t')
    /\ flush demo did st' t' = inr (st', t').
Proof.
  destruct (flush demo did (buffered demo) []) as [e|[st' t']] eqn:E;
    [vm_compute in E; discriminate|].
  exists st', t'. split; [reflexivity|].
  exact (flush_twice demo did _ _ _ _ E).
Defined.


(** X16, on the sample paper and a store that refuses insertions: the row
    of the document and the deletion stay. *)
Lemma failed_document_requests_witness :
  exists e w',
    process_and_store_doc library_refusing_inserts paper_path
      (([], []) : world library_refusing_inserts) = (inl e, w')
    /\ match e with
       | StoreFailed _ =>
           exists row,
             document_row_ok (_arxiv_id_from_path paper_path) row
             /\ (snd w' = []
                 \/ snd w' = [] ++ [Upsert (py "documents") row (py "doc_id")]
                 \/ snd w'
                    = [] ++ [Upsert (py "documents") row (py "doc_id");
                             DeleteEq (py "chunks") (py "doc_id")
                               (_arxiv_id_from_path paper_path)])
       | _ => snd w' = []
       end.
Proof.
  destruct (process_and_store_doc library_refusing_inserts paper_path
              (([], []) : world library_refusing_inserts))
    as [[e|[]] w'] eqn:E; [|vm_compute in E; discriminate].
  exists e, w'. split; [reflexivity|].
  exact (failed_document_requests library_refusing_inserts _ _ _ _ E).
Defined.

(** X17, on two copies of the sample paper and a store that refuses
    insertions. *)
Lemma batch_stops_at_first_failure_witness :
  exists e w2,
    process_and_store_docs library_refusing_inserts
      ([] ++ paper_path :: [paper_path])
      (([], []) : world library_refusing_inserts) = (inl e, w2).
Proof.
  destruct (process_and_store_doc library_refusing_inserts paper_path
              (([], []) : world library_refusing_inserts))
    as [[e|[]] w2] eqn:E; [|vm_compute in E; discriminate].
  exists e, w2.
  exact (proj1 (batch_stops_at_first_failure library_refusing_inserts
                  [] [paper_path] paper_path _ _ _ e eq_refl E)).
Defined.


(** X19, on the first sample sentence. *)
Lemma usage_line_shape_witness :
  exists u t',
    _extract_section_usage_line demo prose1 [] = inr (u, t')
    /\ one_trimmed_line u.
Proof.
  destruct (_extract_section_usage_line demo prose1 []) as [e|[u t']] eqn:E;
    [vm_compute in E; discriminate|].
  exists u, t'. split; [reflexivity|].
  exact (proj1 (usage_line_shape demo _ _ _ _ E)).
Defined.

End MoreRuns.
